(** * The composite workflow form: parameter binding and submission

    A shallow embedding of [static/scripts/mvc/tool/tool-form-composite.js]
    (the Backbone view that renders every step of a workflow as one form,
    binds "${name}" placeholders to shared workflow parameters, validates the
    step values and posts one invocation request) together with the
    properties its specification states about it.

    Layout of the development:
    - [JS]: the fragment of JavaScript values and coercions the view uses;
    - [Obj]: objects with integer-like keys, in their enumeration order;
    - the data model (inputs, steps, forms, the view) and the effects the
      view has on the widget toolkit, the page and the transport;
    - [initialize], the change handler, [_execute], [_enabled] and the
      callbacks of the request;
    - the header buttons, the document and the values the fields show;
    - the properties, one section per component: first those the
      specification states, then further properties of the registries, the
      binding loop, the validation pass, the responses and the document. *)

From Stdlib Require Import Ascii.
From stdpp Require Import gmap strings list fin_maps pretty sorting.

Open Scope string_scope.
Open Scope list_scope.

Local Set Warnings "-register-all".

#[local] Arguments String.eqb : simpl never.
#[local] Arguments String.append : simpl never.

(** ** JavaScript values *)

Module JS.

(** The values that flow through the view: input values, option lists,
    form data and response payloads.  Numbers are the integers. *)
Inductive value : Type :=
| VUndefined
| VNull
| VBool (b : bool)
| VNum (n : Z)
| VStr (s : string)
| VArr (xs : list value)
| VObj (props : list (string * value)).

(** ToBoolean. *)
Definition truthy (v : value) : bool :=
  match v with
  | VUndefined | VNull => false
  | VBool b => b
  | VNum n => negb (n =? 0)%Z
  | VStr s => negb (String.eqb s "")
  | VArr _ | VObj _ => true
  end.

(** [null != v], the loose comparison: only [null] and [undefined] are
    loosely equal to [null]. *)
Definition nullish (v : value) : bool :=
  match v with
  | VUndefined | VNull => true
  | _ => false
  end.

(** [String(v)].  An array joins its elements with a comma, [null] and
    [undefined] elements contributing nothing; a plain object prints as
    "[object Object]". *)
Fixpoint String (v : value) : string :=
  match v with
  | VUndefined => "undefined"
  | VNull => "null"
  | VBool true => "true"
  | VBool false => "false"
  | VNum n => pretty n
  | VStr s => s
  | VArr xs =>
      (fix join (l : list value) : string :=
         match l with
         | [] => ""
         | x :: rest =>
             let hd := match x with
                       | VUndefined | VNull => ""
                       | _ => String x
                       end in
             match rest with
             | [] => hd
             | _ :: _ => hd +:+ "," +:+ join rest
             end
         end) xs
  | VObj _ => "[object Object]"
  end.

(** [s.substring(a, b)]: both indices are clamped to [0, s.length] and
    swapped when the first exceeds the second. *)
Definition substring (s : string) (a b : Z) : string :=
  let len := Z.of_nat (String.length s) in
  let a' := Z.min (Z.max a 0) len in
  let b' := Z.min (Z.max b 0) len in
  let from := Z.min a' b' in
  let to := Z.max a' b' in
  String.substring (Z.to_nat from) (Z.to_nat (to - from)) s.

(** [s.length] as a number. *)
Definition length (s : string) : Z := Z.of_nat (String.length s).

Fixpoint assoc (p : string) (props : list (string * value)) : value :=
  match props with
  | [] => VUndefined
  | (q, v) :: rest => if String.eqb p q then v else assoc p rest
  end.

(** [v[p]] on a value that is neither [null] nor [undefined] (every read
    in the view is guarded by a truthiness test).  Arrays answer to
    "length" and to their indices, strings to "length"; inherited methods
    are not represented. *)
Definition get (v : value) (p : string) : value :=
  match v with
  | VObj props => assoc p props
  | VArr xs =>
      if String.eqb p "length" then VNum (Z.of_nat (List.length xs))
      else
        match List.find (fun n => String.eqb (pretty n) p)
                        (seq 0 (List.length xs)) with
        | Some n => nth n xs VUndefined
        | None => VUndefined
        end
  | VStr s =>
      if String.eqb p "length" then VNum (length s) else VUndefined
  | _ => VUndefined
  end.

(** [v[0]]. *)
Definition first (v : value) : value :=
  match v with
  | VArr xs => nth 0 xs VUndefined
  | VStr s => if String.eqb s "" then VUndefined else VStr (substring s 0 1)
  | VObj props => assoc "0" props
  | _ => VUndefined
  end.

(** [v > 0] and [0 == v] for the lengths the view compares: a number
    compares as itself, [undefined] compares false both ways. *)
Definition positive (v : value) : bool :=
  match v with
  | VNum n => (0 <? n)%Z
  | _ => false
  end.

Definition is_zero (v : value) : bool :=
  match v with
  | VNum n => (n =? 0)%Z
  | _ => false
  end.

(** ["lit" == v] for a literal that is not numeric: a string compares by
    content, an array or object through its string form, everything else
    is different. *)
Definition eq_literal (lit : string) (v : value) : bool :=
  match v with
  | VStr _ | VArr _ | VObj _ => String.eqb lit (String v)
  | _ => false
  end.

End JS.

(** ** Objects keyed by step id

    [this.forms] and [this.steps] are plain objects whose keys are step
    ids.  Step ids are integers.  An object enumerates the keys that are
    array indices -- the integers below 2^32 - 1 -- first and in ascending
    order, whatever the order of insertion, and its other keys after
    them, in the order in which they were put.  So such an object is a
    list of bindings kept in the order of enumeration. *)

Module Obj.

Definition t (V : Type) : Type := list (N * V).

(** [o[k]] *)
Fixpoint get {V} (o : t V) (k : N) : option V :=
  match o with
  | [] => None
  | (k', v) :: rest => if (k =? k')%N then Some v else get rest k
  end.

(** The key is an array index: an integer below 2^32 - 1. *)
Definition is_index (k : N) : bool := (k <? 4294967295)%N.

(** [k] is enumerated before [k'] wherever the two were put: [k] is an
    array index, and [k'] is none or a larger one. *)
Definition precedes (k k' : N) : bool :=
  is_index k && (negb (is_index k') || (k <? k')%N).

(** [o[k] = v]: a key that is there keeps its place; a new array index
    goes before the first key it precedes; any other new key goes last. *)
Fixpoint set {V} (o : t V) (k : N) (v : V) : t V :=
  match o with
  | [] => [(k, v)]
  | (k', v') :: rest =>
      if (k =? k')%N then (k, v) :: rest
      else if precedes k k' then (k, v) :: o
      else (k', v') :: set rest k v
  end.

Definition keys {V} (o : t V) : list N := List.map fst o.

(** The keys are distinct and come in the order of enumeration: no key
    stands before a key that precedes it. *)
Definition ordered {V} (o : t V) : Prop :=
  StronglySorted (fun k k' => k <> k' /\ precedes k' k = false) (keys o).

End Obj.

(** ** Data model *)

(** An upstream connection of an input: which output of which step. *)
Record connection := Connection {
  output_name : string;
  conn_order_index : N
}.

(** An input of a step, with the properties the view reads or writes.
    [in_name] is the flat name under which [input_connections_by_name] and
    [data_ref] refer to the input, [in_inputs] the inputs nested below it
    (repeat blocks, conditional cases, sections). *)
Inductive input : Type := Input {
  in_id : string;
  in_name : string;
  in_type : option string;
  in_value : JS.value;
  in_options : JS.value;
  in_is_workflow : bool;
  in_optional : bool;
  in_collapsible : bool;
  in_collapsible_value : JS.value;
  in_collapsible_preview : bool;
  in_ignore : JS.value;
  in_help : JS.value;
  in_data_ref : option string;
  in_inputs : list input
}.

Record step := Step {
  step_id : N;
  step_type : string;
  order_index : N;
  step_name : string;
  annotation : JS.value;
  description : JS.value;
  collapsed : bool;
  inputs : list input;
  input_connections_by_name : gmap string (list connection);
  post_job_actions : list string
}.

(** The workflow descriptor [initialize] receives. *)
Record workflow := Workflow {
  wf_id : string;
  wf_name : string;
  wf_history_id : JS.value;
  wf_steps : list step
}.

(** The form of a step, by the constructor that built it:
    [new Form(merge({title: ...}, b))] for the data inputs and
    [new ToolFormBase(b).form] for the tools. *)
Inductive form :=
| FormView (title : string) (b : step)
| ToolForm (b : step).

(** The "send results to a new history" form, with the default name of the
    new history. *)
Inductive history_form_t := HistoryForm (new_history_name : string).

(** A field of the toolkit: [forms[c].field_list[id]] of a step form, or a
    field of the workflow parameter form. *)
Inductive field :=
| StepField (c : N) (id : string)
| ParameterField (l : string).

(** A workflow parameter, as put into the parameter form's [inputs]. *)
Record parameter := WorkflowParameter {
  p_type : option string;
  p_is_workflow : JS.value;
  p_label : string;
  p_name : string;
  p_color : string
}.

(** What [_execute] builds and posts. *)
Record request := Request {
  rq_inputs : gmap N JS.value;
  rq_parameters : gmap N (gmap string JS.value)
}.

(** One item of [form.data.create()]: the flat key, the input definition
    the key stands for ([input_list[data.match(key)]], which the form data
    keeps for every key it reports) and the value extracted from the
    field. *)
Record entry := Entry {
  e_key : string;
  e_input : input;
  e_value : JS.value
}.

(** ** Effects

    The calls the view makes on its collaborators, in the order it makes
    them: the widget toolkit (fields, elements, forms, portlets, the
    execute button), the page (modal, history panel) and the transport. *)

Inductive effect :=
| FieldValue (fld : field) (v : string)        (* field.value(v) *)
| ElementDisable (fld : field)                 (* element.disable(true) *)
| Style (fld : field) (color cls : string)     (* k(field, color, cls) *)
| FormReset (e : N)                            (* form.trigger("reset") *)
| FormHighlight (e : N) (m : string)           (* form.highlight(m) *)
| ButtonWait
| ButtonUnwait
| HistoryEnable
| HistoryDisable
| PortletEnable (e : N)
| PortletDisable (e : N)
| Post (url : string) (c : request)            (* a.request({type: "POST"}) *)
| GlobalHighlight (m : string) (msg : JS.value) (* form.highlight(c, b[c]) *)
| ModalShow (body : string)
| RefreshContents.

Inductive exn := TypeError | ReferenceError.

Inductive outcome (A : Type) :=
| Ret (a : A)
| Throw (x : exn).

Arguments Ret {A} a.
Arguments Throw {A} x.

(** A run of view code: the effects it had, and how it ended.  The effects
    made before an exception stay made. *)
Definition act (A : Type) : Type := list effect * outcome A.

Definition tell (l : list effect) : act unit := (l, Ret tt).

Definition throw {A} (x : exn) : act A := ([], Throw x).

#[global] Instance act_ret : MRet act := fun A a => ([], Ret a).

#[global] Instance act_bind : MBind act := fun A B k m =>
  match m with
  | (l, Ret a) => let '(l', r) := k a in (l ++ l', r)
  | (l, Throw x) => (l, Throw x)
  end.

(** [_.each(l, f)] threading the locals [s] that [f] updates. *)
Fixpoint each {A S} (f : S -> A -> act S) (l : list A) (s : S) : act S :=
  match l with
  | [] => mret s
  | x :: rest => s' ← f s x; each f rest s'
  end.

(** ** Collaborators outside the module *)

(** [utils/utils] is not part of the sources at hand; of [sanitize] the
    view only needs that it turns a value into text. *)
Class Utils := { sanitize : JS.value -> string }.

(** What the module finds in the page it runs in.  [form], [ToolTemplate]
    and [options] are read by the error callback but bound nowhere in the
    module (not by [define]'s callback, not by [initialize] or [_execute]),
    so they resolve against the global object of the page. *)
Record page := Page {
  Galaxy_root : string;
  Galaxy_modal : bool;                 (* Galaxy.modal is there *)
  currHistoryPanel : bool;             (* parent.Galaxy.currHistoryPanel *)
  global_form : option (JS.value -> list (string * JS.value));
                                       (* form.data.matchResponse *)
  global_ToolTemplate_error : option string
                                       (* ToolTemplate.error(options.job_def) *)
}.

(** ** [initialize]: preparing the steps *)

Definition set_is_workflow (v : bool) (a : input) : input :=
  Input (in_id a) (in_name a) (in_type a) (in_value a) (in_options a) v
        (in_optional a) (in_collapsible a) (in_collapsible_value a)
        (in_collapsible_preview a) (in_ignore a) (in_help a) (in_data_ref a)
        (in_inputs a).

Definition set_value (v : JS.value) (a : input) : input :=
  Input (in_id a) (in_name a) (in_type a) v (in_options a) (in_is_workflow a)
        (in_optional a) (in_collapsible a) (in_collapsible_value a)
        (in_collapsible_preview a) (in_ignore a) (in_help a) (in_data_ref a)
        (in_inputs a).

(** [a.collapsible = true, a.collapsible_value = a.value,
    a.collapsible_preview = true] *)
Definition set_collapsible (a : input) : input :=
  Input (in_id a) (in_name a) (in_type a) (in_value a) (in_options a)
        (in_is_workflow a) (in_optional a) true (in_value a) true
        (in_ignore a) (in_help a) (in_data_ref a) (in_inputs a).

Definition set_inputs (l : list input) (a : input) : input :=
  Input (in_id a) (in_name a) (in_type a) (in_value a) (in_options a)
        (in_is_workflow a) (in_optional a) (in_collapsible a)
        (in_collapsible_value a) (in_collapsible_preview a) (in_ignore a)
        (in_help a) (in_data_ref a) l.

(** A type that is set and not the empty string. *)
Definition type_given (a : input) : bool :=
  match in_type a with
  | Some s => negb (String.eqb s "")
  | None => false
  end.

(** [-1 != ["data", "data_collection"].indexOf(a.type)] *)
Definition data_type (a : input) : bool :=
  match in_type a with
  | Some s => String.eqb s "data" || String.eqb s "data_collection"
  | None => false
  end.

(** ["$" === String(v).substring(0, 1)] *)
Definition dollar (v : JS.value) : bool :=
  String.eqb "$" (JS.substring (JS.String v) 0 1).

(** The callback given to [deepeach]. *)
Definition deepeach_callback (a : input) : input :=
  if type_given a then
    let a :=
      if JS.truthy (in_options a)
         && JS.is_zero (JS.get (in_options a) "length")
      then set_is_workflow true a else a in
    if JS.truthy (in_value a)
       && JS.eq_literal "RuntimeValue" (JS.get (in_value a) "__class__")
    then set_value JS.VNull a
    else if negb (data_type a) && negb (dollar (in_value a))
         then set_collapsible a
         else a
  else a.

(** The help text of a connected input: the [_.reduce] over its
    connections. *)
Definition provenance (a : list connection) : string :=
  fold_left
    (fun acc b =>
       (if String.eqb acc "" then acc else acc +:+ ", ")
       +:+ "Output dataset '" +:+ output_name b
       +:+ "' from step " +:+ pretty (conn_order_index b))
    a "".

(** The callback given to [matchIds]: [a] are the connections found for
    the input [b]. *)
Definition matchIds_callback (a : list connection) (b : input) : input :=
  Input (in_id b) (in_name b) (Some "hidden") (JS.VStr "") JS.VNull
        (in_is_workflow b) (in_optional b) (in_collapsible b)
        (in_collapsible_value b) (in_collapsible_preview b) (JS.VStr "")
        (JS.VStr (provenance a)) (in_data_ref b) (in_inputs b).

(** The callback given to [matchContext]: [a] is the input that carries a
    [data_ref], [b] the input it refers to. *)
Definition matchContext_callback (a b : input) : input :=
  set_is_workflow
    (negb (JS.truthy (in_options b))
     || negb (JS.truthy (JS.get (in_options b) (JS.String (in_value a)))))
    a.

(** Every input of a tree, parents before children. *)
Fixpoint flatten (a : input) : list input :=
  a :: List.flat_map flatten (in_inputs a).

Definition all_inputs (l : list input) : list input :=
  List.flat_map flatten l.

(** Applies [f] to every node of an input tree. *)
Fixpoint deep (f : input -> input) (a : input) : input :=
  set_inputs (List.map (deep f) (in_inputs a)) (f a).

(** Modelled from the spec: [deepeach] of utils/utils, which is not among
    the sources.  The spec: the normalizer "recursively visits every input
    node". *)
Definition deepeach (l : list input) (callback : input -> input)
  : list input :=
  List.map (deep callback) l.

(** Modelled from the spec: [matchIds] of mvc/form/form-data, which is not
    among the sources.  The spec: the normalizer "rewrites any input that
    has an incoming connection from a prior step", with "every upstream
    connection found" for it. *)
Definition matchIds (l : list input)
    (mapping : gmap string (list connection))
    (callback : list connection -> input -> input) : list input :=
  List.map
    (deep (fun b =>
             match mapping !! in_name b with
             | Some a => callback a b
             | None => b
             end))
    l.

(** Modelled from the spec: [matchContext] of mvc/form/form-data, which is
    not among the sources.  The spec: "for any data_ref-style dependent
    field, it recomputes is_workflow based on whether the referenced option
    set actually contains the field's current value". *)
Definition matchContext (l : list input)
    (callback : input -> input -> input) : list input :=
  List.map
    (deep (fun a =>
             match in_data_ref a with
             | Some r =>
                 match List.find (fun b => String.eqb (in_name b) r)
                                 (all_inputs l) with
                 | Some b => callback a b
                 | None => a
                 end
             | None => a
             end))
    l.

(** [-1 != ["data_input", "data_collection_input"].indexOf(t)] *)
Definition data_input_type (t : string) : bool :=
  String.eqb t "data_input" || String.eqb t "data_collection_input".

(** Modelled from the spec: [merge] of utils/utils, which is not among the
    sources, applied to the display defaults of step number [f].  The
    spec: "title composed from index+name, annotation text becomes
    description, default collapse state = collapsed for every step except
    the first".  The other defaults are constants of the toolkit. *)
Definition merge (f : nat) (b : step) : step :=
  Step (step_id b) (step_type b) (order_index b)
       ("Step " +:+ pretty (f + 1)%nat +:+ ": " +:+ step_name b)
       (annotation b)
       (if JS.truthy (annotation b)
        then JS.VStr (" - " +:+ JS.String (annotation b))
        else description b)
       (0 <? f)%nat
       (inputs b) (input_connections_by_name b) (post_job_actions b).

Definition with_inputs (l : list input) (b : step) : step :=
  Step (step_id b) (step_type b) (order_index b) (step_name b)
       (annotation b) (description b) (collapsed b) l
       (input_connections_by_name b) (post_job_actions b).

(** The three passes over the inputs of a tool step. *)
Definition normalize (b : step) : step :=
  let l := deepeach (inputs b) deepeach_callback in
  let l := matchIds l (input_connections_by_name b) matchIds_callback in
  let l := matchContext l matchContext_callback in
  with_inputs l b.

(** The body of the loop over [f.steps]: the prepared step and its form,
    [None] being the [null] a step of any other type is left with. *)
Definition prepare_step (f : nat) (b : step) : step * option form :=
  let b := merge f b in
  if data_input_type (step_type b)
  then (b, Some (FormView ("<b>" +:+ step_name b +:+ "</b>") b))
  else if String.eqb "tool" (step_type b)
       then let b := normalize b in (b, Some (ToolForm b))
       else (b, None).

(** The loop over [f.steps], from index [f] on: it fills [this.forms] and
    [this.steps]. *)
Fixpoint prepare (f : nat) (l : list step)
    (fs : Obj.t (option form)) (ss : Obj.t step)
  : Obj.t (option form) * Obj.t step :=
  match l with
  | [] => (fs, ss)
  | b :: rest =>
      let '(b, h) := prepare_step f b in
      prepare (S f) rest (Obj.set fs (step_id b) h) (Obj.set ss (step_id b) b)
  end.

(** ** [initialize]: binding the workflow parameters *)

(** The locals [h] (targets by parameter name), [i] (parameters by name)
    and [j] (the colour counter) of [initialize]. *)
Record binder := Binder {
  targets : gmap string (list field);
  parameters : gmap string parameter;
  count : N
}.

(** [100 * j], the hue written into the colour of the [j]-th parameter. *)
Definition hue (j : N) : N := (100 * j)%N.

(** ["hsl( " + 100 * j + ", 70%, 30% )"] *)
Definition color (j : N) : string :=
  "hsl( " +:+ pretty (hue j) +:+ ", 70%, 30% )".

(** [a.sanitize(d.substring(2, d.length - 1))] for [d = String(b.value)] *)
Definition label {U : Utils} (b : input) : string :=
  let d := JS.String (in_value b) in
  sanitize (JS.VStr (JS.substring d 2 (JS.length d - 1))).

(** [h] and [i] start as [{}]: a name that every object inherits from
    [Object.prototype] is found in them before it was ever put there.
    For such a name [h[l] || []] is the inherited member, not a list. *)
Definition inherited (l : string) : bool :=
  existsb (String.eqb l)
          ["constructor"; "hasOwnProperty"; "isPrototypeOf";
           "propertyIsEnumerable"; "toLocaleString"; "toString"; "valueOf";
           "__defineGetter__"; "__defineSetter__"; "__lookupGetter__";
           "__lookupSetter__"; "__proto__"].

(** The body of the loop over the inputs of step [c]. *)
Definition bind_input {U : Utils} (forms : Obj.t (option form)) (c : N)
    (s : binder) (b : input) : act binder :=
  if dollar (in_value b) then
    match Obj.get forms c with
    | Some (Some _) =>
        let e := StepField c (in_id b) in
        let l := label b in
        if inherited l then throw TypeError   (* h[l].push *) else
        let hl := default [] (targets s !! l) ++ [e] in
        let '(p, j) :=
          match parameters s !! l with
          | Some p => (p, count s)
          | None =>
              (WorkflowParameter (in_type b) (in_options b) l l
                                 (color (count s + 1)),
               (count s + 1)%N)
          end in
        tell [FieldValue e l; ElementDisable e;
              Style e (p_color p) "ui-form-wp-target"];;
        mret (Binder (<[l := hl]> (targets s)) (<[l := p]> (parameters s)) j)
    | _ => throw TypeError
    end
  else mret s.

(** The loop over [this.steps] and, within, over the inputs of each. *)
Definition bind_steps {U : Utils} (forms : Obj.t (option form))
    (steps : Obj.t step) : act binder :=
  each (fun s '(c, b) => each (bind_input forms c) (inputs b) s)
       steps (Binder ∅ ∅ 0).

(** The view once [initialize] has run. *)
Record view := View {
  workflow_id : string;
  forms : Obj.t (option form);
  steps : Obj.t step;
  wp_targets : gmap string (list field);        (* h *)
  wp_inputs : gmap string parameter;            (* i, the parameter form *)
  history_form : option history_form_t
}.

(** The fields of the parameter form get their parameter's colour. *)
Definition style_sources (i : gmap string parameter) : list effect :=
  List.map (fun '(l, p) => Style (ParameterField l) (p_color p)
                                 "ui-form-wp-source")
           (map_to_list i).

(** [initialize].  The assembly of the document (header, paragraphs,
    post-job-action lines, the execute button) has no bearing on the
    registries and is left out, except that appending a step's form reads
    [forms[b].$el], which fails on [null]. *)
Definition initialize {U : Utils} (f : workflow) : act view :=
  let '(forms, steps) := prepare 0 (wf_steps f) [] [] in
  s ← bind_steps forms steps;
  tell (style_sources (parameters s));;
  each (fun (_ : unit) '(b, _) =>
          match Obj.get forms b with
          | Some (Some _) => mret tt
          | _ => throw TypeError
          end)
       steps tt;;
  mret (View (wf_id f) forms steps (targets s) (parameters s)
             (if JS.truthy (wf_history_id f) then None
              else Some (HistoryForm (wf_name f)))).

(** [a.sanitize(b) || c] *)
Definition pushed {U : Utils} (b : JS.value) (c : string) : string :=
  let s := sanitize b in
  if String.eqb s "" then c else s.

(** The [onchange] handler of the parameter form; [data] is what
    [l.data.create()] returns when the handler runs. *)
Definition onchange {U : Utils} (this : view) (data : list (string * JS.value))
  : list effect :=
  List.flat_map
    (fun '(c, b) =>
       List.map (fun d => FieldValue d (pushed b c))
                (default [] (wp_targets this !! c)))
    data.

(** ** [_enabled] *)

Definition _enabled (this : view) (a : bool) : act unit :=
  tell [if a then ButtonUnwait else ButtonWait];;
  match history_form this with
  | Some _ => tell [if a then HistoryEnable else HistoryDisable]
  | None => throw TypeError         (* this.history_form.portlet *)
  end;;
  each (fun (_ : unit) '(e, b) =>
          match b with
          | Some _ => tell [if a then PortletEnable e else PortletDisable e]
          | None => throw TypeError (* b.portlet *)
          end)
       (forms this) tt.

(** ** [_execute] *)

(** The locals [c] and [d] of [_execute], with the toolkit calls made so
    far. *)
Record pass := Pass {
  c : request;
  d : bool;
  calls : list effect
}.

(** [l && l.values && l.values.length > 0] *)
Definition selected (l : JS.value) : bool :=
  JS.truthy l && JS.truthy (JS.get l "values")
  && JS.positive (JS.get (JS.get l "values") "length").

(** [c.parameters[h][k] = l] *)
Definition set_parameter (h : N) (k : string) (l : JS.value) (c : request)
  : request :=
  Request (rq_inputs c)
          (<[h := <[k := l]> (default ∅ (rq_parameters c !! h))]>
             (rq_parameters c)).

(** The body of the [for (var k in f)] loop, for the form under key [e]
    and its step [g]. *)
Definition check (e : N) (g : step) (s : pass) (x : entry) : pass :=
  let l := e_value x in
  let m := in_id (e_input x) in
  let n := e_input x in
  if data_input_type (step_type g) then
    if selected l
    then Pass (Request (<[order_index g := JS.first (JS.get l "values")]>
                          (rq_inputs (c s)))
                       (rq_parameters (c s)))
              (d s) (calls s)
    else if d s
         then Pass (c s) false (calls s ++ [FormHighlight e m])
         else s
  else if in_optional n || in_is_workflow n || negb (JS.nullish l)
       then Pass (set_parameter (step_id g) (e_key x) l (c s)) (d s) (calls s)
       else Pass (c s) false (calls s ++ [FormHighlight e m]).

(** [c.parameters[h] = {}, a.trigger("reset")] *)
Definition open_form (e : N) (g : step) (s : pass) : pass :=
  Pass (Request (rq_inputs (c s)) (<[step_id g := ∅]> (rq_parameters (c s))))
       (d s) (calls s ++ [FormReset e]).

(** The loop over [this.forms]; [create e] is what [a.data.create()]
    returns for the form under key [e]. *)
Fixpoint check_forms (steps : Obj.t step) (create : N -> list entry)
    (fs : list (N * option form)) (s : pass) : pass * outcome unit :=
  match fs with
  | [] => (s, Ret tt)
  | (e, a) :: rest =>
      match a, Obj.get steps e with
      | Some _, Some g =>
          check_forms steps create rest
                      (fold_left (check e g) (create e) (open_form e g s))
      | _, _ => (s, Throw TypeError)   (* a.data, g.step_id *)
      end
  end.

(** [c = {inputs: {}, parameters: {}}, d = true] *)
Definition start : pass := Pass (Request ∅ ∅) true [].

Definition validate (this : view) (create : N -> list entry)
  : pass * outcome unit :=
  check_forms (steps this) create (forms this) start.

Definition url (pg : page) (this : view) : string :=
  Galaxy_root pg +:+ "api/workflows/" +:+ workflow_id this +:+ "/invocations".

Definition _execute (pg : page) (this : view) (create : N -> list entry)
  : act unit :=
  let '(s, r) := validate this create in
  (calls s, r);;
  if d s
  then _enabled this false;; tell [Post (url pg this) (c s)]
  else _enabled this true.

(** ** The callbacks of the request *)

Definition success (pg : page) (a : JS.value) : act unit :=
  tell (if currHistoryPanel pg then [RefreshContents] else []).

(** [error]: with field detail, the first field of
    [form.data.matchResponse(a.err_data)] is highlighted on [form];
    without, the modal shows [a.err_msg] or the text of
    [ToolTemplate.error(options.job_def)]. *)
Definition error (pg : page) (a : JS.value) : act unit :=
  if JS.truthy a && JS.truthy (JS.get a "err_data") then
    match global_form pg with
    | None => throw ReferenceError                     (* form *)
    | Some matchResponse =>
        match matchResponse (JS.get a "err_data") with
        | (c, msg) :: _ => tell [GlobalHighlight c msg]
        | [] => mret tt
        end
    end
  else if Galaxy_modal pg then
    if JS.truthy a && JS.truthy (JS.get a "err_msg")
    then tell [ModalShow (JS.String (JS.get a "err_msg"))]
    else match global_ToolTemplate_error pg with
         | None => throw ReferenceError                (* ToolTemplate *)
         | Some body => tell [ModalShow body]
         end
  else mret tt.

Definition complete (this : view) : act unit := _enabled this true.

(** Modelled from the spec: [request] of utils/utils, which is not among
    the sources, at the completion of a posted request.  The spec: "On
    success response: ... On failure response: ... In all terminal cases
    (success or failure) the UI is finally re-enabled"; completion
    "(success or failure) is the only allowed trigger" out of the
    submitting state.  So the callback of the case is called, then
    [complete].  [success] returns whatever the response holds, so
    [complete] always follows it. *)
Definition on_success (pg : page) (this : view) (a : JS.value)
  : list effect :=
  fst (success pg a) ++ fst (complete this).

(** Modelled from the spec: [request] of utils/utils at a failure
    response, as above: [error] is called, then [complete].  The two are
    calls of one dispatch, one after the other: an exception that [error]
    throws ends the dispatch, and [complete] is not called. *)
Definition on_failure (pg : page) (this : view) (a : JS.value)
  : list effect :=
  fst (error pg a;; complete this).

(** ** The state of the toolkit the effects act on *)

Record ui := Ui {
  waiting : bool;                        (* the execute button *)
  history_disabled : bool;
  disabled : gset N;                     (* the step forms' portlets *)
  highlighted : list (N * string);
  in_flight : nat                        (* posted, not yet completed *)
}.

Definition apply (u : ui) (x : effect) : ui :=
  match x with
  | ButtonWait =>
      Ui true (history_disabled u) (disabled u) (highlighted u) (in_flight u)
  | ButtonUnwait =>
      Ui false (history_disabled u) (disabled u) (highlighted u) (in_flight u)
  | HistoryEnable =>
      Ui (waiting u) false (disabled u) (highlighted u) (in_flight u)
  | HistoryDisable =>
      Ui (waiting u) true (disabled u) (highlighted u) (in_flight u)
  | PortletEnable e =>
      Ui (waiting u) (history_disabled u) (disabled u ∖ {[e]})
         (highlighted u) (in_flight u)
  | PortletDisable e =>
      Ui (waiting u) (history_disabled u) (disabled u ∪ {[e]})
         (highlighted u) (in_flight u)
  | FormReset e =>
      Ui (waiting u) (history_disabled u) (disabled u)
         (List.filter (fun em => negb (fst em =? e)%N) (highlighted u))
         (in_flight u)
  | FormHighlight e m =>
      Ui (waiting u) (history_disabled u) (disabled u)
         (highlighted u ++ [(e, m)]) (in_flight u)
  | Post _ _ =>
      Ui (waiting u) (history_disabled u) (disabled u) (highlighted u)
         (S (in_flight u))
  | _ => u
  end.

Definition run (u : ui) (l : list effect) : ui := fold_left apply l u.

(** A response arrives for one of the posted requests. *)
Definition land (u : ui) : ui :=
  Ui (waiting u) (history_disabled u) (disabled u) (highlighted u)
     (pred (in_flight u)).

Definition fresh : ui := Ui false false ∅ [] 0.

(** The states the form goes through once built: the user presses the
    execute button with whatever the fields hold, edits a workflow
    parameter, or a posted request completes. *)
Inductive reachable {U : Utils} (pg : page) (this : view) : ui -> Prop :=
| reach_fresh : reachable pg this fresh
| reach_execute u create :
    reachable pg this u ->
    reachable pg this (run u (fst (_execute pg this create)))
| reach_change u data :
    reachable pg this u ->
    reachable pg this (run u (onchange this data))
| reach_success u a :
    reachable pg this u -> (0 < in_flight u)%nat ->
    reachable pg this (run (land u) (on_success pg this a))
| reach_failure u a :
    reachable pg this u -> (0 < in_flight u)%nat ->
    reachable pg this (run (land u) (on_failure pg this a)).

(** The execute control and every form can be used again. *)
Definition re_enabled (this : view) (u : ui) : Prop :=
  waiting u = false
  /\ (is_Some (history_form this) -> history_disabled u = false)
  /\ forall e, e ∈ Obj.keys (forms this) -> e ∉ disabled u.

(** ** Definitions used to state the properties *)

(** The form [prepare_step] builds for a prepared step. *)
Definition form_of (g : step) : option form :=
  if data_input_type (step_type g)
  then Some (FormView ("<b>" +:+ step_name g +:+ "</b>") g)
  else if String.eqb "tool" (step_type g) then Some (ToolForm g)
       else None.

(** The inputs the binding loop visits, with the key of their step, in
    the order it visits them. *)
Definition scan_list (steps : Obj.t step) : list (N * input) :=
  List.flat_map (fun '(c, g) => List.map (pair c) (inputs g)) steps.

(** What the body of the binding loop does to [h], [i] and [j]. *)
Definition record {U : Utils} (s : binder) (cb : N * input) : binder :=
  let '(c, b) := cb in
  if dollar (in_value b) then
    let l := label b in
    Binder (<[l := default [] (targets s !! l) ++ [StepField c (in_id b)]]>
              (targets s))
           (<[l := match parameters s !! l with
                   | Some p => p
                   | None => WorkflowParameter (in_type b) (in_options b) l l
                                               (color (count s + 1))
                   end]> (parameters s))
           (match parameters s !! l with
            | Some _ => count s
            | None => (count s + 1)%N
            end)
  else s.

(** The names of the placeholders among the visited inputs. *)
Definition names {U : Utils} (l : list (N * input)) : list string :=
  List.map (fun cb => label (snd cb))
           (List.filter (fun cb => dollar (in_value (snd cb))) l).

(** The fields whose input is a placeholder for [n]. *)
Definition fields_named {U : Utils} (n : string) (l : list (N * input))
  : list field :=
  List.map (fun cb => StepField (fst cb) (in_id (snd cb)))
           (List.filter
              (fun cb => dollar (in_value (snd cb))
                         && String.eqb (label (snd cb)) n) l).

(** The distinct elements of a list, in the order of their first
    occurrence. *)
Definition first_seen (l : list string) : list string :=
  fold_left (fun acc x => if decide (x ∈ acc) then acc else acc ++ [x]) l [].

(** The distinct parameter names of a view in the order the binding loop
    comes across them. *)
Definition discovery_order {U : Utils} (this : view) : list string :=
  first_seen (names (scan_list (steps this))).

(** What the validation loop goes through: a form is opened, then each of
    its items is checked. *)
Inductive visit :=
| Open (e : N) (g : step)
| Item (e : N) (g : step) (x : entry).

Definition do_visit (s : pass) (v : visit) : pass :=
  match v with
  | Open e g => open_form e g s
  | Item e g x => check e g s x
  end.

Definition visits (steps : Obj.t step) (create : N -> list entry)
    (fs : list (N * option form)) : list visit :=
  List.flat_map
    (fun ea => match Obj.get steps (fst ea) with
               | Some g => Open (fst ea) g
                           :: List.map (Item (fst ea) g) (create (fst ea))
               | None => []
               end)
    fs.

(** The field of a tool step is required and its value is empty. *)
Definition required_empty (x : entry) : bool :=
  negb (in_optional (e_input x)) && negb (in_is_workflow (e_input x))
  && JS.nullish (e_value x).

(** The item fails validation. *)
Definition invalid (g : step) (x : entry) : bool :=
  if data_input_type (step_type g) then negb (selected (e_value x))
  else required_empty x.

Definition flagged (v : visit) : bool :=
  match v with
  | Open _ _ => false
  | Item _ g x => invalid g x
  end.

(** An unselected item of a data input. *)
Definition unselected (v : visit) : bool :=
  match v with
  | Open _ _ => false
  | Item _ g x => data_input_type (step_type g) && negb (selected (e_value x))
  end.

Definition key_of (v : visit) : N :=
  match v with
  | Open e _ | Item e _ _ => e
  end.

Definition step_of (v : visit) : step :=
  match v with
  | Open _ g | Item _ g _ => g
  end.

(** The locals of [_execute] after the loop has gone through the visits
    [vs]. *)
Definition swept (s : pass) (vs : list visit) : pass :=
  fold_left do_visit vs s.

(** Every form is opened once, before any of its items is checked. *)
Fixpoint tidy (seen : list N) (vs : list visit) : Prop :=
  match vs with
  | [] => True
  | Open e _ :: rest => (e ∉ seen) /\ tidy (e :: seen) rest
  | Item e _ _ :: rest => (e ∈ seen) /\ tidy seen rest
  end.

(** [c.parameters[h]], the empty object standing for a missing one. *)
Definition sub (s : pass) (h : N) : gmap string JS.value :=
  default ∅ (rq_parameters (c s) !! h).

(** The calls of [_enabled(a)] when it runs to its end. *)
Definition enabling (a : bool) (keys : list N) : list effect :=
  [if a then ButtonUnwait else ButtonWait;
   if a then HistoryEnable else HistoryDisable]
  ++ List.map (fun e => if a then PortletEnable e else PortletDisable e) keys.

Definition is_Post (x : effect) : bool :=
  match x with
  | Post _ _ => true
  | _ => false
  end.

Definition is_portlet (x : effect) : bool :=
  match x with
  | PortletEnable _ | PortletDisable _ | HistoryEnable | HistoryDisable => true
  | _ => false
  end.

(** The registries [initialize] leaves behind: both keep their keys
    distinct and in the order of enumeration, every step sits under its
    own id next to the form built from it, and no form is without a
    step. *)
Definition registry_ok (fs : Obj.t (option form)) (ss : Obj.t step) : Prop :=
  Obj.ordered fs /\ Obj.ordered ss
  /\ (forall e g, Obj.get ss e = Some g ->
                  step_id g = e /\ Obj.get fs e = Some (form_of g))
  /\ (forall e, is_Some (Obj.get fs e) -> is_Some (Obj.get ss e)).

(** [h], [i] and [j] once the binding loop has gone through [l]. *)
Definition bound {U : Utils} (l : list (N * input)) : binder :=
  fold_left record l (Binder ∅ ∅ 0).

(** What holds of every view [initialize] returns. *)
Definition view_ok {U : Utils} (this : view) : Prop :=
  registry_ok (forms this) (steps this)
  /\ (forall e a, (e, a) ∈ forms this -> is_Some a)
  /\ wp_targets this = targets (bound (scan_list (steps this)))
  /\ wp_inputs this = parameters (bound (scan_list (steps this))).

(** ** Sample data

    A sanitizer and small workflows on which the view is run below. *)

(** Escapes the markup characters of a text. *)
Fixpoint escape (s : string) : string :=
  match s with
  | EmptyString => ""
  | String a rest =>
      (if Ascii.eqb a "&"%char then "&amp;"
       else if Ascii.eqb a "<"%char then "&lt;"
       else if Ascii.eqb a ">"%char then "&gt;"
       else String a "")
      +:+ escape rest
  end.

(** A sanitizer to run the view with: the text of the value, escaped.
    The properties hold for every instance of [Utils]. *)
Definition text_utils : Utils := {| sanitize v := escape (JS.String v) |}.

Definition plain_input (id type : string) (value : JS.value) : input :=
  Input id id (Some type) value JS.VUndefined false false false
        JS.VUndefined false JS.VUndefined JS.VUndefined None [].

Definition dataset_step : step :=
  Step 0 "data_input" 0 "Input dataset" JS.VUndefined JS.VUndefined false
       [plain_input "input" "data" JS.VNull] ∅ [].

(** A tool with one input bound to the parameter [color] and one literal
    input. *)
Definition paint_step (placeholder : string) : step :=
  Step 1 "tool" 1 "Paint" JS.VUndefined JS.VUndefined false
       [plain_input "tint" "text" (JS.VStr placeholder);
        plain_input "title" "text" (JS.VStr "sunset")] ∅ [].

Definition paint_workflow (placeholder : string) (history_id : JS.value)
  : workflow :=
  Workflow "f2db41e1fa331b3e" "Paint" history_id
           [dataset_step; paint_step placeholder].

Definition a_page : page := Page "/" true true None None.

(** A tool with two parameters, one of them referenced twice. *)
Definition blend_step : step :=
  Step 3 "tool" 3 "Blend" JS.VUndefined JS.VUndefined false
       [plain_input "left" "text" (JS.VStr "${color}");
        plain_input "width" "integer" (JS.VStr "${size}");
        plain_input "right" "text" (JS.VStr "${color}")] ∅ [].

Definition blend_workflow : workflow :=
  Workflow "a799d38679e985db" "Blend" JS.VUndefined [blend_step].

(** The view [initialize] returns for a sample workflow. *)
Definition built {U : Utils} (f : workflow) : view :=
  match snd (initialize f) with
  | Ret this => this
  | Throw _ => View "" [] [] ∅ ∅ None
  end.

(** ** The properties as the specification words them, where the view
    does otherwise *)

(** The recognizer of the specification: "$<name>$", a leading [$]
    followed by a name and a trailing [$]. *)
Definition spec_placeholder (d : string) : option string :=
  let n := String.length d in
  if (2 <=? n)%nat
     && String.eqb (String.substring 0 1 d) "$"
     && String.eqb (String.substring (n - 1) 1 d) "$"
  then Some (String.substring 1 (n - 2) d)
  else None.

(** C1 as the specification states its first half: the parameters are the
    sanitized names of the values of the form "$name$". *)
Definition dollar_name_parameters {U : Utils} (f : workflow) : Prop :=
  forall log this, initialize f = (log, Ret this) ->
  forall l, is_Some (wp_inputs this !! l)
            <-> exists c g b name,
                  Obj.get (steps this) c = Some g /\ b ∈ inputs g
                  /\ spec_placeholder (JS.String (in_value b)) = Some name
                  /\ l = sanitize (JS.VStr name).

(** A connected input as the specification has it after normalization:
    hidden, value and options cleared, the provenance as help text. *)
Definition rendered_disabled (x : input) (cs : list connection) : Prop :=
  in_type x = Some "hidden" /\ in_value x = JS.VStr ""
  /\ in_options x = JS.VNull /\ in_help x = JS.VStr (provenance cs).

(** C3 as the specification states it, for the steps of every type. *)
Definition connected_inputs_disabled_in_every_step {U : Utils}
    (f : workflow) : Prop :=
  forall log this, initialize f = (log, Ret this) ->
  forall c g x cs,
    Obj.get (steps this) c = Some g ->
    x ∈ all_inputs (inputs g) ->
    input_connections_by_name g !! in_name x = Some cs ->
    NoDup (List.map in_id (all_inputs (inputs g))) ->
    rendered_disabled x cs
    /\ forall l, StepField c (in_id x) ∉ default [] (wp_targets this !! l).

(** A data input that is given a connection and a placeholder. *)
Definition linked_dataset_step : step :=
  Step 5 "data_input" 5 "Linked dataset" JS.VUndefined JS.VUndefined false
       [plain_input "input" "data" (JS.VStr "${source}")]
       {["input" := [Connection "out_file1" 2]]} [].

(** A tool whose first input is connected to two upstream outputs, though
    its value reads like a placeholder. *)
Definition join_step : step :=
  Step 4 "tool" 4 "Join" JS.VUndefined JS.VUndefined false
       [plain_input "first" "data" (JS.VStr "${source}");
        plain_input "sep" "text" (JS.VStr "${sep}")]
       {["first" := [Connection "out_file1" 2; Connection "output" 3]]} [].

(** C2 as the specification states its second half: a sub-map for every
    tool step, none for the other steps. *)
Definition sub_maps_for_tools_only {U : Utils} (f : workflow)
    (create : N -> list entry) : Prop :=
  forall log this, initialize f = (log, Ret this) ->
  d (fst (validate this create)) = true ->
  forall h, is_Some (rq_parameters (c (fst (validate this create))) !! h)
            <-> exists g, Obj.get (steps this) h = Some g
                          /\ step_type g = "tool".

(** C4 as the specification states its last part: the first data input
    met without a selected value is highlighted. *)
Definition first_unselected_highlighted {U : Utils} (f : workflow)
    (pg : page) (create : N -> list entry) : Prop :=
  forall log this, initialize f = (log, Ret this) ->
  forall pre post e g x,
    visits (steps this) create (forms this) = pre ++ Item e g x :: post ->
    unselected (Item e g x) = true ->
    forallb (fun v => negb (unselected v)) pre = true ->
    forall u, (e, in_id (e_input x))
              ∈ highlighted (run u (fst (_execute pg this create))).

(** What the forms of [paint_workflow] report when the dataset field
    holds [dataset] and the tool field [tint]. *)
Definition a_dataset : JS.value :=
  JS.VObj [("values", JS.VArr [JS.VObj [("id", JS.VStr "bbd44e69cb8906b5");
                                        ("src", JS.VStr "hda")]]);
           ("batch", JS.VBool false)].

Definition paint_data (dataset tint : JS.value) (e : N) : list entry :=
  if (e =? 0)%N then
    [Entry "input" (plain_input "input" "data" JS.VNull) dataset]
  else if (e =? 1)%N then
    [Entry "tint" (plain_input "tint" "text" (JS.VStr "${color}")) tint;
     Entry "title" (set_collapsible
                      (plain_input "title" "text" (JS.VStr "sunset")))
           (JS.VStr "sunset")]
  else [].

(** A workflow whose data input has a higher step id than its tool, and
    forms in which neither field is filled. *)
Definition late_input_workflow : workflow :=
  Workflow "c9a1c4a2b0e1f6d7" "Threshold" JS.VUndefined
           [Step 1 "tool" 1 "Threshold" JS.VUndefined JS.VUndefined false
                 [plain_input "level" "integer" JS.VNull] ∅ [];
            Step 2 "data_input" 0 "Mask" JS.VUndefined JS.VUndefined false
                 [plain_input "input" "data" JS.VNull] ∅ []].

Definition late_input_data (e : N) : list entry :=
  if (e =? 1)%N then
    [Entry "level" (set_collapsible (plain_input "level" "integer" JS.VNull))
           JS.VNull]
  else if (e =? 2)%N then
    [Entry "input" (plain_input "input" "data" JS.VNull) JS.VNull]
  else [].

Definition paint_view : view :=
  built (U:=text_utils) (paint_workflow "${color}" JS.VUndefined).

Definition late_input_view : view :=
  built (U:=text_utils) late_input_workflow.

(** The effects that leave the portlets and the count of posted requests
    as they are. *)
Definition inert (x : effect) : bool :=
  negb (is_Post x)
  && match x with
     | PortletEnable _ | PortletDisable _ => false
     | _ => true
     end.

(** A response with field detail, and one with neither detail nor
    message. *)
Definition field_error : JS.value :=
  JS.VObj [("err_msg", JS.VStr "Workflow cannot be run");
           ("err_data", JS.VObj [("tint", JS.VStr "Unknown colour")])].

Definition bare_error : JS.value := JS.VObj [].

(** A value that is empty as a form field is: no value ([null],
    [undefined]) or the empty text. *)
Definition blank_value (v : JS.value) : bool :=
  JS.nullish v
  || match v with
     | JS.VStr t => String.eqb t EmptyString
     | _ => false
     end.

(** C5 as the specification states it: the value of a field of a tool is
    invalid exactly when the field is required and the value is empty,
    and every other value is written into
    [parameters[step_id][input_id]]. *)
Definition values_classified_by_input_id {U : Utils} (f : workflow)
    (create : N -> list entry) : Prop :=
  forall log this, initialize f = (log, Ret this) ->
  forall e g x,
    Obj.get (steps this) e = Some g ->
    step_type g = "tool" ->
    x ∈ create e ->
    NoDup (List.map e_key (create e)) ->
    let s := fst (validate this create) in
    let required :=
      negb (in_optional (e_input x)) && negb (in_is_workflow (e_input x)) in
    (required && blank_value (e_value x) = true ->
       FormHighlight e (in_id (e_input x)) ∈ calls s /\ d s = false)
    /\ (required && blank_value (e_value x) = false ->
          sub s (step_id g) !! in_id (e_input x) = Some (e_value x)).

(** A tool whose tint is an input of the section [options]: the form
    data report it under the flat key ["options|tint"]. *)
Definition sectioned_step : step :=
  Step 1 "tool" 0 "Paint" JS.VUndefined JS.VUndefined false
       [Input "options" "options" (Some "section") JS.VUndefined
              JS.VUndefined false false false JS.VUndefined false
              JS.VUndefined JS.VUndefined None
              [plain_input "tint" "text" (JS.VStr "crimson")]] ∅ [].

Definition sectioned_workflow : workflow :=
  Workflow "5ae9bd3eb9ac1bd1" "Paint" JS.VUndefined [sectioned_step].

Definition sectioned_data (tint : JS.value) (e : N) : list entry :=
  if (e =? 1)%N then
    [Entry "options|tint"
           (set_collapsible (plain_input "tint" "text" (JS.VStr "crimson")))
           tint]
  else [].

(** The hue of [hsl( h, s, l )] is an angle of the colour wheel: [h]
    counts degrees, and 360 of them come back to the same hue. *)
Definition angle (h : N) : N := (h mod 360)%N.

(** C6 as the specification states it: as a hue, the colour of a
    parameter differs from the colour of every parameter discovered
    before it. *)
Definition hues_all_differ {U : Utils} (f : workflow) : Prop :=
  forall log this, initialize f = (log, Ret this) ->
  forall n m l l' p p' j j',
    (m < n)%nat ->
    discovery_order this !! n = Some l ->
    discovery_order this !! m = Some l' ->
    wp_inputs this !! l = Some p -> p_color p = color j ->
    wp_inputs this !! l' = Some p' -> p_color p' = color j' ->
    angle (hue j') <> angle (hue j).

(** A tool with nineteen parameters, [p1] to [p19]. *)
Definition spectrum_step : step :=
  Step 1 "tool" 0 "Spectrum" JS.VUndefined JS.VUndefined false
       (List.map (fun k => plain_input ("band" +:+ pretty k) "text"
                             (JS.VStr ("${p" +:+ pretty k +:+ "}")))
                 (seq 1 19)) ∅ [].

Definition spectrum_workflow : workflow :=
  Workflow "0a248a1f62a0cc04" "Spectrum" JS.VUndefined [spectrum_step].

(** ** The header buttons *)

(** The calls the two buttons of the header make on the portlets of the
    step forms. *)
Inductive portlet_call :=
| Collapse (e : N)                             (* a.portlet.collapse() *)
| Expand (e : N).                              (* a.portlet.expand() *)

(** [_.each(g.forms, function(a){ a.portlet.collapse() })], and the same
    with [expand]: the calls made, and how the handler ended. *)
Fixpoint each_form (call : N -> portlet_call) (fs : list (N * option form))
  : list portlet_call * outcome unit :=
  match fs with
  | [] => ([], Ret tt)
  | (e, a) :: rest =>
      match a with
      | Some _ => let '(w, r) := each_form call rest in (call e :: w, r)
      | None => ([], Throw TypeError)          (* a.portlet *)
      end
  end.

(** [onclick] of the button "Collapse". *)
Definition collapse_onclick (this : view) : list portlet_call * outcome unit :=
  each_form Collapse (forms this).

(** [onclick] of the button "Expand all". *)
Definition expand_all_onclick (this : view)
  : list portlet_call * outcome unit :=
  each_form Expand (forms this).

(** The step forms that are folded, as the calls leave them. *)
Definition toggle (s : gset N) (x : portlet_call) : gset N :=
  match x with
  | Collapse e => s ∪ {[e]}
  | Expand e => s ∖ {[e]}
  end.

Definition folded (s : gset N) (l : list portlet_call) : gset N :=
  fold_left toggle l s.

(** ** The document

    What [initialize] appends to [this.$el], in the order it appends. *)

Inductive node :=
| HeaderNode (label : string) (buttons : list string)   (* this.$header *)
| ParagraphNode                                         (* "<p/>" *)
| ParameterFormNode                                     (* l.$el *)
| StepFormNode (e : N)                                  (* g.forms[b].$el *)
| BoltNode                       (* $("<div/>").addClass("fa fa-bolt") *)
| TextNode (s : string)          (* the text given to [append] *)
| HistoryFormNode                                       (* history_form.$el *)
| ExecuteButtonNode (title : string).                   (* execute_btn.$el *)

(** [_.reduce(a.post_job_actions,
              function(a, b){ return a + " " + b.short_str }, "")] *)
Definition actions_text (l : list string) : string :=
  fold_left (fun a b => a +:+ " " +:+ b) l "".

(** What the loop over [g.steps] appends for the step [a] under key [b]. *)
Definition step_nodes (ba : N * step) : list node :=
  let '(b, a) := ba in
  [ParagraphNode; StepFormNode b]
  ++ match post_job_actions a with
     | [] => []
     | _ :: _ => [BoltNode; TextNode (actions_text (post_job_actions a))]
     end.

(** The children of [this.$el] once [initialize] has returned [this] for
    the descriptor [f]. *)
Definition document (f : workflow) (this : view) : list node :=
  [HeaderNode ("Workflow: " +:+ wf_name f) ["Collapse"; "Expand all"]]
  ++ (if decide (wp_inputs this = ∅) then []
      else [ParagraphNode; ParameterFormNode])
  ++ List.flat_map step_nodes (steps this)
  ++ match history_form this with
     | Some _ => [ParagraphNode; HistoryFormNode]
     | None => []
     end
  ++ [ParagraphNode; ExecuteButtonNode "Run workflow"].

Definition is_step_form (x : node) : bool :=
  match x with
  | StepFormNode _ => true
  | _ => false
  end.

(** ** What the fields show *)

#[global] Instance field_eq_dec : EqDecision field.
Proof. solve_decision. Defined.

(** [field.value(v)] on a store of the values the fields hold; the other
    calls leave the values alone. *)
Definition write (st : field -> option string) (y : effect)
  : field -> option string :=
  match y with
  | FieldValue fld v => fun f => if decide (f = fld) then Some v else st f
  | _ => st
  end.

Definition shown (st : field -> option string) (l : list effect)
  : field -> option string :=
  fold_left write l st.

(** ** The calls of the binding loop *)

(** The toolkit calls of the body of the binding loop when it runs to its
    end from the locals [s]. *)
Definition marks {U : Utils} (s : binder) (cb : N * input) : list effect :=
  if dollar (in_value (snd cb)) then
    let e := StepField (fst cb) (in_id (snd cb)) in
    let l := label (snd cb) in
    [FieldValue e l; ElementDisable e;
     Style e (p_color (match parameters s !! l with
                       | Some p => p
                       | None => WorkflowParameter
                                   (in_type (snd cb)) (in_options (snd cb))
                                   l l (color (count s + 1))
                       end))
           "ui-form-wp-target"]
  else [].

Fixpoint trail {U : Utils} (l : list (N * input)) (s : binder)
  : list effect :=
  match l with
  | [] => []
  | cb :: rest => marks s cb ++ trail rest (record s cb)
  end.

(** The step of the descriptor that a registry keeps for an id: the last
    one that carries it, with its position. *)
Fixpoint last_with (e : N) (f : nat) (l : list step) : option (nat * step) :=
  match l with
  | [] => None
  | b :: rest =>
      match last_with e (S f) rest with
      | Some r => Some r
      | None => if (step_id b =? e)%N then Some (f, b) else None
      end
  end.

(** The fields a list of calls highlights, in the order of the calls. *)
Definition highlights (l : list effect) : list (N * string) :=
  omap (fun y => match y with
                 | FormHighlight e m => Some (e, m)
                 | _ => None
                 end) l.

(** [a.value && "RuntimeValue" == a.value.__class__] *)
Definition runtime (v : JS.value) : bool :=
  JS.truthy v && JS.eq_literal "RuntimeValue" (JS.get v "__class__").

(** The test under which [deepeach]'s callback marks an input
    collapsible. *)
Definition literal (a : input) : bool :=
  type_given a && negb (runtime (in_value a)) && negb (data_type a)
  && negb (dollar (in_value a)).

(** ** More sample data *)

(** A descriptor in which two steps carry the id 2; the later one has
    post-job actions. *)
Definition trim_step : step :=
  Step 2 "tool" 0 "Trim" JS.VUndefined JS.VUndefined false
       [plain_input "length" "integer" (JS.VStr "${n}")] ∅ [].

Definition reads_step : step :=
  Step 7 "data_input" 1 "Reads" JS.VUndefined JS.VUndefined false
       [plain_input "input" "data" JS.VNull] ∅ [].

Definition adapters_step : step :=
  Step 2 "data_input" 2 "Adapters" JS.VUndefined JS.VUndefined false
       [plain_input "input" "data" JS.VNull] ∅ ["Rename"; "Hide"].

Definition twin_workflow : workflow :=
  Workflow "5f3a9c1e7b2d4a60" "Twins" JS.VUndefined
           [trim_step; reads_step; adapters_step].




Definition blend_view : view := built (U:=text_utils) blend_workflow.

Definition twin_view : view := built (U:=text_utils) twin_workflow.


Definition preselected_view : view :=
  built (U:=text_utils)
        (paint_workflow "${color}" (JS.VStr "1cd8e2f6b131e891")).

(** The forms of [late_input_workflow] with a dataset selected. *)
Definition late_input_filled (e : N) : list entry :=
  if (e =? 1)%N then
    [Entry "level" (set_collapsible (plain_input "level" "integer" JS.VNull))
           (JS.VNum 3)]
  else if (e =? 2)%N then
    [Entry "input" (plain_input "input" "data" JS.VNull) a_dataset]
  else [].

(** Nothing was written to any field yet. *)
Definition blank : field -> option string := fun _ => None.

(** What the help text of a connected input says of one connection. *)
Definition mention (b : connection) : string :=
  "Output dataset '" +:+ output_name b +:+ "' from step "
  +:+ pretty (conn_order_index b).

(** The forms a list of calls resets, in the order of the calls. *)
Definition resets (l : list effect) : list N :=
  omap (fun y => match y with
                 | FormReset e => Some e
                 | _ => None
                 end) l.

(** The distinct ids of a list, in the order of their first occurrence. *)
Definition first_met (l : list N) : list N :=
  fold_left (fun acc x => if decide (x ∈ acc) then acc else acc ++ [x]) l [].

(** The id is not an array index. *)
Definition large (k : N) : bool := negb (Obj.is_index k).

(** A data input under a given id. *)
Definition reads_under (id : N) : step :=
  Step id "data_input" 0 "Reads" JS.VUndefined JS.VUndefined false
       [plain_input "input" "data" JS.VNull] ∅ [].

(** * Properties *)

(** ** JavaScript values *)

Example String_of_array :
  JS.String (JS.VArr [JS.VStr "${a}"; JS.VNull; JS.VNum 3]) = "${a},,3".
Proof. reflexivity. Qed.

Example substring_swaps : JS.substring "$x" 2 1 = "x".
Proof. reflexivity. Qed.

Example substring_of_lone_dollar : JS.substring "$" 2 0 = "$".
Proof. reflexivity. Qed.

Example substring_of_placeholder : JS.substring "${color}" 2 7 = "color".
Proof. reflexivity. Qed.

(** ** Objects keyed by step id *)

Section ObjLemmas.

Context {V : Type}.
Implicit Types (o : Obj.t V) (k : N) (v : V).

Lemma Obj_get_set_eq o k v : Obj.get (Obj.set o k v) k = Some v.
Proof.
  induction o as [|[k' v'] o IH]; simpl.
  - by rewrite N.eqb_refl.
  - destruct (N.eqb_spec k k'); simpl.
    + by rewrite N.eqb_refl.
    + destruct (Obj.precedes k k'); simpl.
      * by rewrite N.eqb_refl.
      * destruct (N.eqb_spec k k'); [done | exact IH].
Qed.

Lemma Obj_get_set_ne o k k' v :
  k ≠ k' -> Obj.get (Obj.set o k v) k' = Obj.get o k'.
Proof.
  intros Hne. induction o as [|[k0 v0] o IH]; simpl.
  - destruct (N.eqb_spec k' k); congruence.
  - destruct (N.eqb_spec k k0) as [->|]; simpl.
    + destruct (N.eqb_spec k' k0); congruence.
    + destruct (Obj.precedes k k0); simpl.
      * destruct (N.eqb_spec k' k); congruence.
      * by rewrite IH.
Qed.

Lemma Obj_keys_set o k v k' :
  k' ∈ Obj.keys (Obj.set o k v) <-> k' = k \/ k' ∈ Obj.keys o.
Proof.
  unfold Obj.keys. induction o as [|[k0 v0] o IH]; simpl.
  - rewrite elem_of_cons. tauto.
  - destruct (N.eqb_spec k k0) as [->|]; simpl; [rewrite !elem_of_cons; tauto|].
    destruct (Obj.precedes k k0); simpl; [rewrite !elem_of_cons; tauto|].
    rewrite !elem_of_cons, IH. tauto.
Qed.

(** What stands after a key that [k] precedes stands after [k] as
    well. *)
Lemma Obj_precedes_trans k k0 x :
  Obj.precedes k k0 = true -> k0 <> x -> Obj.precedes x k0 = false ->
  k <> x /\ Obj.precedes x k = false.
Proof.
  unfold Obj.precedes, Obj.is_index.
  destruct (N.ltb_spec k 4294967295), (N.ltb_spec k0 4294967295),
    (N.ltb_spec x 4294967295), (N.ltb_spec k k0), (N.ltb_spec x k0),
    (N.ltb_spec x k); simpl; intros; split; try done; lia.
Qed.

Lemma Obj_set_ordered o k v : Obj.ordered o -> Obj.ordered (Obj.set o k v).
Proof.
  unfold Obj.ordered, Obj.keys.
  induction o as [|[k0 v0] o IH]; simpl; intros Hs.
  - repeat constructor.
  - apply StronglySorted_inv in Hs as [Hs Hall].
    destruct (N.eqb_spec k k0) as [->|Hne]; simpl; [by constructor|].
    destruct (Obj.precedes k k0) eqn:Hp; simpl.
    + constructor; [by constructor|].
      constructor.
      * split; [done|]. revert Hp. unfold Obj.precedes, Obj.is_index.
        destruct (N.ltb_spec k 4294967295), (N.ltb_spec k0 4294967295),
          (N.ltb_spec k k0), (N.ltb_spec k0 k); simpl; intros; try done; lia.
      * eapply Forall_impl; [exact Hall|]. simpl.
        intros x [Hx Hpx]. by apply (Obj_precedes_trans k k0 x).
    + constructor; [by apply IH|].
      apply Forall_forall. intros k1 Hk1.
      apply (Obj_keys_set o k v k1) in Hk1 as [->|Hk1]; [done|].
      rewrite Forall_forall in Hall. by apply Hall.
Qed.

Lemma Obj_ordered_NoDup o : Obj.ordered o -> NoDup (Obj.keys o).
Proof.
  unfold Obj.ordered. induction 1 as [|k l Hs IH Hall].
  - constructor.
  - constructor; [|done].
    intros Hin. rewrite Forall_forall in Hall.
    by destruct (Hall _ Hin).
Qed.

(** Keys that are all array indices are enumerated in ascending order. *)
Lemma Obj_ordered_ascending o :
  Forall (fun k => Obj.is_index k = true) (Obj.keys o) ->
  Obj.ordered o -> StronglySorted N.lt (Obj.keys o).
Proof.
  unfold Obj.ordered. intros Hidx. induction 1 as [|k l Hs IH Hall].
  - constructor.
  - apply Forall_cons in Hidx as [Hk Hl].
    constructor; [by apply IH|].
    rewrite Forall_forall in Hall, Hl. apply Forall_forall. intros x Hx.
    destruct (Hall x Hx) as [Hne Hp]. specialize (Hl x Hx).
    revert Hp. unfold Obj.precedes. rewrite Hl, Hk. simpl.
    destruct (N.ltb_spec x k); [done|]. lia.
Qed.

Lemma Obj_get_elem o k v : Obj.get o k = Some v -> (k, v) ∈ o.
Proof.
  induction o as [|[k0 v0] o IH]; simpl; [done|].
  destruct (N.eqb_spec k k0) as [->|]; intros Hg.
  - injection Hg as ->. left.
  - right. by apply IH.
Qed.

Lemma Obj_elem_get o k v :
  NoDup (Obj.keys o) -> (k, v) ∈ o -> Obj.get o k = Some v.
Proof.
  unfold Obj.keys.
  induction o as [|[k0 v0] o IH]; simpl; intros Hnd Hin.
  - by apply elem_of_nil in Hin.
  - apply NoDup_cons in Hnd as [Hk0 Hnd].
    apply elem_of_cons in Hin as [Heq|Hin].
    + injection Heq as -> ->. by rewrite N.eqb_refl.
    + destruct (N.eqb_spec k k0) as [->|]; [|by apply IH].
      exfalso. apply Hk0.
      apply (list_elem_of_fmap_2 fst) in Hin. exact Hin.
Qed.

Lemma Obj_get_keys o k : is_Some (Obj.get o k) <-> k ∈ Obj.keys o.
Proof.
  unfold Obj.keys. induction o as [|[k0 v0] o IH]; simpl.
  - split; [by intros [? ?] | by intros ?%elem_of_nil].
  - destruct (N.eqb_spec k k0) as [->|].
    + split; [left | by eexists].
    + rewrite IH. rewrite elem_of_cons. tauto.
Qed.

End ObjLemmas.

(** ** Runs of view code *)

Lemma bind_Ret_inv {A B} (m : act A) (k : A -> act B) w b :
  m ≫= k = (w, Ret b) ->
  exists w1 a w2, m = (w1, Ret a) /\ k a = (w2, Ret b) /\ w = w1 ++ w2.
Proof.
  destruct m as [w1 [a|x]]; unfold mbind, act_bind; [|done].
  destruct (k a) as [w2 r] eqn:Hk. intros [= <- ->]. by exists w1, a, w2.
Qed.

Lemma bind_Ret {A B} (m : act A) (k : A -> act B) w1 a :
  m = (w1, Ret a) -> m ≫= k = (w1 ++ fst (k a), snd (k a)).
Proof. intros ->. unfold mbind, act_bind. by destruct (k a). Qed.

Lemma tell_bind {B} l (k : unit -> act B) :
  tell l ≫= k = (l ++ fst (k tt), snd (k tt)).
Proof. by apply bind_Ret. Qed.

Lemma bind_Throw {A B} (m : act A) (k : A -> act B) w1 x :
  m = (w1, Throw x) -> m ≫= k = (w1, Throw x).
Proof. by intros ->. Qed.

Lemma each_fold {A S} (f : S -> A -> act S) (g : S -> A -> S) l s :
  (forall s x, x ∈ l -> exists w, f s x = (w, Ret (g s x))) ->
  exists w, each f l s = (w, Ret (fold_left g l s)).
Proof.
  revert s. induction l as [|x l IH]; simpl; intros s Hf.
  - by exists [].
  - destruct (Hf s x) as [w1 Hx]; [left|].
    destruct (IH (g s x)) as [w2 Hl].
    { intros s' y Hy. apply Hf. by right. }
    exists (w1 ++ w2). by rewrite (bind_Ret _ _ _ _ Hx), Hl.
Qed.

Lemma each_Ret_inv {A S} (f : S -> A -> act S) l s w s' x :
  each f l s = (w, Ret s') -> x ∈ l ->
  exists s1 w1 s2, f s1 x = (w1, Ret s2).
Proof.
  revert s w. induction l as [|y l IH]; simpl; intros s w He Hx.
  - by apply elem_of_nil in Hx.
  - apply bind_Ret_inv in He as (w1 & s1 & w2 & Hy & Hl & _).
    apply elem_of_cons in Hx as [->|Hx]; [by exists s, w1, s1|].
    by eapply IH.
Qed.

(** ** The registries of [initialize] *)

Lemma prepare_step_type f b :
  step_type (fst (prepare_step f b)) = step_type b.
Proof.
  unfold prepare_step. simpl.
  destruct (data_input_type (step_type b)); [done|].
  by destruct (String.eqb "tool" (step_type b)).
Qed.

Lemma prepare_step_form f b :
  snd (prepare_step f b) = form_of (fst (prepare_step f b)).
Proof.
  unfold prepare_step, form_of. simpl.
  destruct (data_input_type (step_type b)) eqn:Hd; simpl.
  - by rewrite Hd.
  - destruct (String.eqb "tool" (step_type b)) eqn:Ht; simpl;
      by rewrite Hd, Ht.
Qed.

Lemma registry_ok_empty : registry_ok [] [].
Proof.
  repeat split; try constructor; try done.
  intros e [a Ha]. done.
Qed.

Lemma registry_ok_set fs ss g :
  registry_ok fs ss ->
  registry_ok (Obj.set fs (step_id g) (form_of g)) (Obj.set ss (step_id g) g).
Proof.
  intros (Hfs & Hss & Hget & Hsome).
  split; [by apply Obj_set_ordered|].
  split; [by apply Obj_set_ordered|].
  split.
  - intros e g'. destruct (decide (step_id g = e)) as [<-|Hne].
    + rewrite !Obj_get_set_eq. by intros [= <-].
    + rewrite !Obj_get_set_ne by done. apply Hget.
  - intros e. destruct (decide (step_id g = e)) as [<-|Hne].
    + rewrite !Obj_get_set_eq. by eexists.
    + rewrite !Obj_get_set_ne by done. apply Hsome.
Qed.

Lemma prepare_ok l : forall f fs ss,
  registry_ok fs ss ->
  registry_ok (fst (prepare f l fs ss)) (snd (prepare f l fs ss)).
Proof.
  induction l as [|b l IH]; simpl; intros f fs ss Hok; [done|].
  pose proof (prepare_step_form f b) as Hform.
  destruct (prepare_step f b) as [g a]. simpl in Hform. subst a.
  apply IH. by apply registry_ok_set.
Qed.

(** Every registered step is a step of the descriptor, prepared. *)
Lemma prepare_origin l : forall f fs ss e g,
  Obj.get (snd (prepare f l fs ss)) e = Some g ->
  Obj.get ss e = Some g
  \/ exists f' b, b ∈ l /\ g = fst (prepare_step f' b).
Proof.
  induction l as [|b l IH]; simpl; intros f fs ss e g Hg; [by left|].
  destruct (prepare_step f b) as [g0 a] eqn:Hp.
  apply IH in Hg as [Hg|(f' & b' & Hin & ->)].
  - destruct (decide (step_id g0 = e)) as [<-|Hne].
    + rewrite Obj_get_set_eq in Hg. injection Hg as <-.
      right. exists f, b. split; [left | by rewrite Hp].
    + rewrite Obj_get_set_ne in Hg by done. by left.
  - right. exists f', b'. split; [by right | done].
Qed.

Section Initialize.

Context {U : Utils}.

Lemma bind_input_record forms c s b a :
  Obj.get forms c = Some (Some a) ->
  (dollar (in_value b) = true -> inherited (label b) = false) ->
  exists w, bind_input forms c s b = (w, Ret (record s (c, b))).
Proof.
  intros Hc Hl. unfold bind_input, record.
  destruct (dollar (in_value b)); [|by exists []].
  rewrite Hc, Hl by done. destruct (parameters s !! label b); by eexists.
Qed.

Lemma bind_input_own forms c s b w s' :
  bind_input forms c s b = (w, Ret s') ->
  dollar (in_value b) = true -> inherited (label b) = false.
Proof.
  unfold bind_input. intros Hb Hd. rewrite Hd in Hb.
  destruct (Obj.get forms c) as [[a|]|]; [|done|done].
  by destruct (inherited (label b)).
Qed.

Lemma fold_left_record_step c l s :
  fold_left record (List.map (pair c) l) s
  = fold_left (fun s b => record s (c, b)) l s.
Proof. revert s. induction l; simpl; auto. Qed.

Lemma bind_steps_record forms steps :
  (forall c g, (c, g) ∈ steps -> exists a, Obj.get forms c = Some (Some a)) ->
  (forall c g b, (c, g) ∈ steps -> b ∈ inputs g ->
                 dollar (in_value b) = true -> inherited (label b) = false) ->
  exists w, bind_steps forms steps
            = (w, Ret (fold_left record (scan_list steps) (Binder ∅ ∅ 0))).
Proof.
  intros Hforms Hown. unfold bind_steps, scan_list.
  generalize (Binder ∅ ∅ 0) as s.
  induction steps as [|[c g] steps IH]; simpl; intros s.
  - by exists [].
  - destruct (Hforms c g) as [a Ha]; [left|].
    destruct (each_fold (bind_input forms c)
                        (fun s b => record s (c, b)) (inputs g) s) as [w1 H1].
    { intros s' b Hb. eapply bind_input_record; [done|].
      apply (Hown c g); [left | done]. }
    destruct (IH (fun c' g' Hin => Hforms c' g' (list_elem_of_further _ _ _ Hin))
                 (fun c' g' b' Hin =>
                    Hown c' g' b' (list_elem_of_further _ _ _ Hin))
                 (fold_left (fun s b => record s (c, b)) (inputs g) s))
      as [w2 H2].
    exists (w1 ++ w2).
    rewrite (bind_Ret _ _ _ _ H1), H2. simpl.
    by rewrite fold_left_app, fold_left_record_step.
Qed.

(** What [initialize] returns when it returns. *)
Lemma initialize_inv f log this :
  initialize f = (log, Ret this) ->
  let fs := fst (prepare 0 (wf_steps f) [] []) in
  let ss := snd (prepare 0 (wf_steps f) [] []) in
  forms this = fs /\ steps this = ss
  /\ workflow_id this = wf_id f
  /\ history_form this
     = (if JS.truthy (wf_history_id f) then None
        else Some (HistoryForm (wf_name f)))
  /\ (forall c g, (c, g) ∈ ss -> exists a, Obj.get fs c = Some (Some a))
  /\ (forall c g b, (c, g) ∈ ss -> b ∈ inputs g ->
                    dollar (in_value b) = true -> inherited (label b) = false)
  /\ exists w s, bind_steps fs ss = (w, Ret s)
                 /\ wp_targets this = targets s
                 /\ wp_inputs this = parameters s.
Proof.
  unfold initialize.
  destruct (prepare 0 (wf_steps f) [] []) as [fs ss]. cbn [fst snd].
  intros Hi.
  apply bind_Ret_inv in Hi as (w1 & s & w2 & Hb0 & Hi & _).
  apply bind_Ret_inv in Hi as (w3 & [] & w4 & _ & Hi & _).
  apply bind_Ret_inv in Hi as (w5 & [] & w6 & Hl & Hi & _).
  injection Hi as _ <-. simpl.
  repeat split; try done.
  - intros c g Hin.
    destruct (each_Ret_inv _ _ _ _ _ _ Hl Hin) as ([] & w' & [] & Hc).
    simpl in Hc.
    destruct (Obj.get fs c) as [[a|]|]; [by exists a | done | done].
  - intros c g b Hin Hb Hd. unfold bind_steps in Hb0.
    destruct (each_Ret_inv _ _ _ _ _ _ Hb0 Hin) as (s1 & w' & s2 & Hc).
    simpl in Hc.
    destruct (each_Ret_inv _ _ _ _ _ _ Hc Hb) as (s3 & w'' & s4 & Hc').
    by eapply bind_input_own.
  - by exists w1, s.
Qed.

Lemma initialize_view f log this :
  initialize f = (log, Ret this) -> view_ok this.
Proof.
  intros Hi.
  destruct (initialize_inv _ _ _ Hi)
    as (Hf & Hs & _ & _ & Hnn & Hown & w & s & Hb & Ht & Hp).
  pose proof (prepare_ok (wf_steps f) 0 [] [] registry_ok_empty) as Hok.
  rewrite <- Hf, <- Hs in Hok, Hnn. rewrite <- Hs in Hown.
  destruct (bind_steps_record (forms this) (steps this) Hnn Hown) as [w' Hb'].
  rewrite Hf, Hs, Hb in Hb'. injection Hb' as _ Hs'.
  rewrite <- Hs in Hs'.
  split; [done|]. split; [|by rewrite Ht, Hp, Hs'].
  intros e a Hin.
  destruct Hok as (Hfs & Hss & Hget & Hsome).
  apply Obj_elem_get in Hin; [|by apply Obj_ordered_NoDup].
  destruct (Hsome e) as [g Hg]; [by eexists|].
  destruct (Hnn e g) as [a' Ha']; [by apply Obj_get_elem|].
  rewrite Hin in Ha'. injection Ha' as ->. by eexists.
Qed.

End Initialize.

(** ** The binding loop *)

Lemma first_seen_snoc l x :
  first_seen (l ++ [x])
  = if decide (x ∈ first_seen l) then first_seen l else first_seen l ++ [x].
Proof. unfold first_seen. by rewrite fold_left_app. Qed.

Lemma elem_of_first_seen l x : x ∈ first_seen l <-> x ∈ l.
Proof.
  induction l as [|y l IH] using rev_ind.
  - done.
  - rewrite first_seen_snoc, elem_of_app, list_elem_of_singleton.
    destruct (decide (y ∈ first_seen l)) as [Hy|Hy].
    + rewrite IH. split; [tauto|]. intros [?| ->]; [done | by apply IH].
    + rewrite elem_of_app, list_elem_of_singleton, IH. tauto.
Qed.

Lemma NoDup_first_seen l : NoDup (first_seen l).
Proof.
  induction l as [|y l IH] using rev_ind.
  - constructor.
  - rewrite first_seen_snoc. destruct (decide (y ∈ first_seen l)); [done|].
    apply NoDup_app. split; [done|]. split; [|apply NoDup_singleton].
    intros z Hz ->%list_elem_of_singleton. done.
Qed.

Lemma scan_list_elem steps c b :
  (c, b) ∈ scan_list steps <-> exists g, (c, g) ∈ steps /\ b ∈ inputs g.
Proof.
  unfold scan_list. rewrite list_elem_of_In, in_flat_map. split.
  - intros ([c' g] & Hin & Hb). apply in_map_iff in Hb as (b' & [= <- <-] & Hb).
    exists g. by rewrite !list_elem_of_In.
  - intros (g & Hin & Hb). exists (c, g). rewrite <- list_elem_of_In.
    split; [done|]. apply in_map_iff. exists b. by rewrite <- list_elem_of_In.
Qed.

Section Returns.

Context {U : Utils}.

Lemma fold_left_tt {A} (l : list A) :
  fold_left (fun (_ : unit) (_ : A) => tt) l tt = tt.
Proof. induction l; simpl; auto. Qed.

Lemma form_of_known g :
  data_input_type (step_type g) = true \/ step_type g = "tool" ->
  is_Some (form_of g).
Proof.
  unfold form_of. intros [->| ->]; [by eexists|].
  simpl. by eexists.
Qed.

(** [initialize] returns for every descriptor whose steps are data
    inputs or tools and whose placeholders avoid the inherited names. *)
Lemma initialize_returns f :
  (forall b, b ∈ wf_steps f ->
             data_input_type (step_type b) = true \/ step_type b = "tool") ->
  (forall c b, (c, b) ∈ scan_list (snd (prepare 0 (wf_steps f) [] [])) ->
               dollar (in_value b) = true -> inherited (label b) = false) ->
  exists log this, initialize f = (log, Ret this).
Proof.
  intros Htypes Hown.
  pose proof (prepare_ok (wf_steps f) 0 [] [] registry_ok_empty)
    as (Hfs & Hss & Hget & _).
  unfold initialize.
  destruct (prepare 0 (wf_steps f) [] []) as [fs ss] eqn:Hp.
  cbn [fst snd] in *.
  assert (forall c g, (c, g) ∈ ss ->
                      exists a, Obj.get fs c = Some (Some a)) as Hnn.
  { intros c g Hin.
    apply Obj_elem_get in Hin; [|by apply Obj_ordered_NoDup].
    destruct (Hget c g Hin) as [_ Hf]. rewrite Hf.
    destruct (form_of_known g) as [a ->]; [|by exists a].
    pose proof (prepare_origin (wf_steps f) 0 [] [] c g) as Ho.
    rewrite Hp in Ho. destruct (Ho Hin) as [?|(f' & b & Hb & ->)]; [done|].
    rewrite prepare_step_type. by apply Htypes. }
  destruct (bind_steps_record fs ss Hnn) as [w1 Hb].
  { intros c g b Hin Hb. apply (Hown c). apply scan_list_elem. by exists g. }
  destruct (each_fold
              (fun (_ : unit) '((b, _) : N * step) =>
                 match Obj.get fs b with
                 | Some (Some _) => mret tt
                 | _ => throw TypeError
                 end)
              (fun _ _ => tt) ss tt) as [w2 Hl].
  { intros [] [c g] Hin. destruct (Hnn c g Hin) as [a ->]. by exists []. }
  rewrite fold_left_tt in Hl.
  rewrite (bind_Ret _ _ _ _ Hb), tell_bind. simpl.
  rewrite (bind_Ret _ _ _ _ Hl). simpl. by do 2 eexists.
Qed.

End Returns.

Section Binding.

Context {U : Utils}.

Lemma bound_snoc l x : bound (l ++ [x]) = record (bound l) x.
Proof. unfold bound. by rewrite fold_left_app. Qed.

Lemma names_snoc l x :
  names (l ++ [x])
  = names l ++ (if dollar (in_value (snd x)) then [label (snd x)] else []).
Proof.
  unfold names. rewrite List.filter_app, List.map_app. simpl.
  by destruct (dollar (in_value (snd x))).
Qed.

Lemma fields_named_snoc n l x :
  fields_named n (l ++ [x])
  = fields_named n l
    ++ (if dollar (in_value (snd x)) && String.eqb (label (snd x)) n
        then [StepField (fst x) (in_id (snd x))] else []).
Proof.
  unfold fields_named. rewrite List.filter_app, List.map_app. simpl.
  by destruct (dollar (in_value (snd x)) && String.eqb (label (snd x)) n).
Qed.

Lemma elem_of_names l n :
  n ∈ names l
  <-> exists c b, (c, b) ∈ l /\ dollar (in_value b) = true /\ label b = n.
Proof.
  unfold names. rewrite list_elem_of_In, in_map_iff. split.
  - intros ([c b] & <- & Hin). apply filter_In in Hin as [Hin Hd].
    exists c, b. by rewrite list_elem_of_In.
  - intros (c & b & Hin & Hd & <-). exists (c, b). split; [done|].
    apply filter_In. by rewrite <- list_elem_of_In.
Qed.

Lemma elem_of_fields_named l n fld :
  fld ∈ fields_named n l
  <-> exists c b, (c, b) ∈ l /\ dollar (in_value b) = true /\ label b = n
                  /\ fld = StepField c (in_id b).
Proof.
  unfold fields_named. rewrite list_elem_of_In, in_map_iff. split.
  - intros ([c b] & <- & Hin). apply filter_In in Hin as [Hin Hd].
    apply andb_true_iff in Hd as [Hd Hl]. apply String.eqb_eq in Hl.
    exists c, b. by rewrite list_elem_of_In.
  - intros (c & b & Hin & Hd & Hl & ->). exists (c, b). split; [done|].
    apply filter_In. rewrite <- list_elem_of_In. split; [done|]. simpl.
    rewrite Hd. by apply String.eqb_eq.
Qed.

(** [h[n]] holds the fields of the placeholders for [n], in the order the
    loop met them. *)
Lemma bound_targets l n :
  default [] (targets (bound l) !! n) = fields_named n l.
Proof.
  induction l as [|[c b] l IH] using rev_ind; [done|].
  rewrite bound_snoc, fields_named_snoc. unfold record. simpl.
  destruct (dollar (in_value b)); simpl; [|by rewrite app_nil_r].
  destruct (String.eqb_spec (label b) n) as [->|Hne].
  - rewrite lookup_insert_eq. simpl. by rewrite IH.
  - rewrite lookup_insert_ne by done. by rewrite app_nil_r.
Qed.

(** [j] counts the distinct names; [i] has exactly these names, the
    [k]-th of them (from 0) under colour [k + 1]. *)
Lemma bound_parameters l :
  count (bound l) = N.of_nat (length (first_seen (names l)))
  /\ (forall n, is_Some (parameters (bound l) !! n)
                <-> n ∈ first_seen (names l))
  /\ (forall k n, first_seen (names l) !! k = Some n ->
        exists p, parameters (bound l) !! n = Some p
                  /\ p_color p = color (N.of_nat k + 1)
                  /\ p_name p = n /\ p_label p = n).
Proof.
  induction l as [|[c b] l (Hj & Hdom & Hcol)] using rev_ind.
  - split; [done|]. split.
    + intros n. unfold bound. simpl. rewrite lookup_empty.
      split; [by intros [? ?] | by intros ?%elem_of_nil].
    + intros k n. unfold names, first_seen. simpl. by rewrite lookup_nil.
  - rewrite bound_snoc, names_snoc. unfold record. simpl.
    destruct (dollar (in_value b)); [|by rewrite app_nil_r].
    rewrite first_seen_snoc.
    destruct (parameters (bound l) !! label b) as [p|] eqn:Hp.
    + assert (label b ∈ first_seen (names l)) as Hin
        by (apply Hdom; by eexists).
      rewrite decide_True by done. simpl.
      rewrite insert_id by done. done.
    + assert (label b ∉ first_seen (names l)) as Hnin.
      { intros Hin%Hdom. rewrite Hp in Hin. by destruct Hin. }
      rewrite decide_False by done. simpl.
      split; [rewrite length_app, Hj; simpl; lia|].
      split.
      * intros n. rewrite elem_of_app, list_elem_of_singleton.
        destruct (decide (label b = n)) as [<-|Hne].
        -- rewrite lookup_insert_eq. split; [by right | by eexists].
        -- rewrite lookup_insert_ne by done. rewrite Hdom.
           split; [by left | by intros [?|?]].
      * intros k n Hk.
        apply lookup_app_Some in Hk as [Hk|[Hlen Hk]].
        -- destruct (Hcol k n Hk) as (p & Hn & Hc).
           exists p. split; [|done].
           rewrite lookup_insert_ne; [done|].
           intros <-. by rewrite Hp in Hn.
        -- apply list_lookup_singleton_Some in Hk as [Hk <-].
           rewrite lookup_insert_eq. eexists. split; [done|]. simpl.
           split; [|done]. f_equal. rewrite Hj. lia.
Qed.

End Binding.

(** ** Colours *)

Lemma append_cons x a t : String x a +:+ t = String x (a +:+ t).
Proof. reflexivity. Qed.

Lemma append_nil t : "" +:+ t = t.
Proof. reflexivity. Qed.

Lemma append_length a t :
  String.length (a +:+ t) = (String.length a + String.length t)%nat.
Proof.
  induction a as [|x a IH]; [done|].
  rewrite append_cons. simpl. by rewrite IH.
Qed.

Lemma append_inj_r a b t : a +:+ t = b +:+ t -> a = b.
Proof.
  revert b. induction a as [|x a IH]; intros [|y b] Heq.
  - done.
  - apply (f_equal String.length) in Heq.
    rewrite append_nil, append_cons in Heq. simpl in Heq.
    rewrite append_length in Heq. lia.
  - apply (f_equal String.length) in Heq.
    rewrite append_nil, append_cons in Heq. simpl in Heq.
    rewrite append_length in Heq. lia.
  - rewrite !append_cons in Heq. injection Heq as -> Heq. f_equal. by apply IH.
Qed.

Lemma hue_inj j j' : hue j = hue j' -> j = j'.
Proof. unfold hue. lia. Qed.

(** The hues are distinct as the numbers the view writes; read as angles
    of the colour wheel they come round again with the nineteenth
    parameter. *)
Example hue_of_nineteenth :
  hue 19 <> hue 1 /\ (hue 19 mod 360 = hue 1 mod 360)%N.
Proof. split; [discriminate | reflexivity]. Qed.

Lemma angle_hue_mod j : angle (hue j) = angle (hue (j mod 18)).
Proof.
  unfold angle, hue.
  rewrite (N.div_mod j 18) at 1 by done.
  replace (100 * (18 * (j / 18) + j mod 18))%N
    with (100 * (j mod 18) + 5 * (j / 18) * 360)%N by lia.
  by rewrite N.Div0.mod_add.
Qed.

Lemma angle_hue_small r r' :
  (r < 18)%N -> (r' < 18)%N -> angle (hue r) = angle (hue r') -> r = r'.
Proof.
  unfold angle, hue. intros Hr Hr' Heq.
  pose proof (N.mod_upper_bound (100 * r) 360).
  pose proof (N.mod_upper_bound (100 * r') 360).
  pose proof (N.div_mod (100 * r) 360). pose proof (N.div_mod (100 * r') 360).
  lia.
Qed.

(** Two counts give the same angle exactly when they differ by a multiple
    of 18: eighteen steps of 100 degrees are five full turns. *)
Lemma angle_hue_eq j j' :
  angle (hue j) = angle (hue j') <-> (j mod 18 = j' mod 18)%N.
Proof.
  rewrite (angle_hue_mod j), (angle_hue_mod j'). split.
  - apply angle_hue_small; by apply N.mod_upper_bound.
  - by intros ->.
Qed.

Lemma positions_mod_18 (m n : nat) :
  (m < n)%nat ->
  ((N.of_nat m + 1) mod 18 = (N.of_nat n + 1) mod 18)%N
  <-> ((n - m) mod 18 = 0)%nat.
Proof.
  intros Hm.
  pose proof (N.mod_upper_bound (N.of_nat m + 1) 18 ltac:(lia)).
  pose proof (N.mod_upper_bound (N.of_nat n + 1) 18 ltac:(lia)).
  pose proof (N.div_mod (N.of_nat m + 1) 18 ltac:(lia)).
  pose proof (N.div_mod (N.of_nat n + 1) 18 ltac:(lia)).
  pose proof (Nat.mod_upper_bound (n - m) 18 ltac:(lia)).
  pose proof (Nat.div_mod_eq (n - m) 18).
  generalize dependent ((N.of_nat m + 1) mod 18)%N.
  generalize dependent ((N.of_nat n + 1) mod 18)%N.
  generalize dependent ((N.of_nat m + 1) / 18)%N.
  generalize dependent ((N.of_nat n + 1) / 18)%N.
  generalize dependent ((n - m) mod 18)%nat.
  generalize dependent ((n - m) / 18)%nat.
  intros. split; intros; lia.
Qed.

Lemma color_inj j j' : color j = color j' -> j = j'.
Proof.
  unfold color. intros Heq.
  apply String.app_inj in Heq. apply append_inj_r in Heq.
  apply pretty_N_inj in Heq. by apply hue_inj.
Qed.

(** ** Workflow parameters (ParameterBinder) *)

Section Parameters.

Context {U : Utils}.

Lemma view_scan_elem this c b :
  view_ok this ->
  (c, b) ∈ scan_list (steps this)
  <-> exists g, Obj.get (steps this) c = Some g /\ b ∈ inputs g.
Proof.
  intros ((_ & Hss & _) & _). rewrite scan_list_elem.
  split; intros (g & Hg & Hb); exists g; (split; [|done]).
  - apply Obj_elem_get; [by apply Obj_ordered_NoDup | done].
  - by apply Obj_get_elem.
Qed.

(** C6. Within one form build the colours go by discovery order: the
    parameter discovered in position [n] (from 0) gets the colour of hue
    [100 * (n + 1)], and as a number and as a text that hue and that
    colour differ from those of every parameter discovered before it.  As
    an angle of the colour wheel the hue is the one of an earlier
    parameter exactly when the two positions are a multiple of 18 apart:
    the first eighteen parameters have hues of their own, the nineteenth
    has the hue of the first. *)
Theorem colors_follow_discovery_order f log this :
  initialize f = (log, Ret this) ->
  forall n l, discovery_order this !! n = Some l ->
  exists p, wp_inputs this !! l = Some p
            /\ p_color p = color (N.of_nat n + 1)
            /\ forall m l' p',
                 (m < n)%nat -> discovery_order this !! m = Some l' ->
                 wp_inputs this !! l' = Some p' ->
                 hue (N.of_nat m + 1) <> hue (N.of_nat n + 1)
                 /\ p_color p' <> p_color p
                 /\ p_color p' = color (N.of_nat m + 1)
                 /\ (angle (hue (N.of_nat m + 1))
                     = angle (hue (N.of_nat n + 1))
                     <-> ((n - m) mod 18 = 0)%nat).
Proof.
  intros Hi n l Hn.
  destruct (initialize_view _ _ _ Hi) as (_ & _ & _ & Hp).
  destruct (bound_parameters (scan_list (steps this))) as (_ & _ & Hcol).
  unfold discovery_order in *.
  destruct (Hcol n l Hn) as (p & Hl & Hc & _).
  exists p. rewrite Hp. split; [done|]. split; [done|].
  intros m l' p' Hm Hm' Hl'.
  destruct (Hcol m l' Hm') as (q & Hq & Hcq & _).
  rewrite Hl' in Hq. injection Hq as <-.
  split; [|split; [|split; [done|]]].
  - intros Heq%hue_inj. lia.
  - rewrite Hc, Hcq. intros Heq%color_inj. lia.
  - rewrite angle_hue_eq. by apply positions_mod_18.
Qed.

Lemma view_targets this c :
  view_ok this ->
  default [] (wp_targets this !! c) = fields_named c (scan_list (steps this)).
Proof. intros (_ & _ & -> & _). apply bound_targets. Qed.

Lemma onchange_elem this data fld v :
  FieldValue fld v ∈ onchange this data
  <-> exists c b, (c, b) ∈ data /\ fld ∈ default [] (wp_targets this !! c)
                  /\ v = pushed b c.
Proof.
  unfold onchange. rewrite list_elem_of_In, in_flat_map. split.
  - intros ([c b] & Hin & Hf). apply in_map_iff in Hf as (d & [= <- <-] & Hd).
    exists c, b. by rewrite !list_elem_of_In.
  - intros (c & b & Hin & Hf & ->). exists (c, b).
    rewrite <- list_elem_of_In. split; [done|].
    apply in_map_iff. exists fld. by rewrite <- list_elem_of_In.
Qed.

(** C7. On a change event of the parameter form, for every parameter [c]
    of the change set with new value [b], every target field recorded for
    [c] is sent the sanitized [b], or [c] itself when the sanitized value
    is the empty text; the fields recorded for [c] are those of the
    placeholders for [c], in the order the form build met them. *)
Theorem change_pushes_to_targets f log this :
  initialize f = (log, Ret this) ->
  forall data c b,
    (c, b) ∈ data ->
    default [] (wp_targets this !! c)
    = fields_named c (scan_list (steps this))
    /\ forall fld,
         fld ∈ default [] (wp_targets this !! c) ->
         FieldValue fld (if String.eqb (sanitize b) "" then c else sanitize b)
         ∈ onchange this data.
Proof.
  intros Hi data c b Hin.
  split; [apply view_targets; by eapply initialize_view|].
  intros fld Hf. apply onchange_elem. by exists c, b.
Qed.

(** C1, amended.  A value is a placeholder when its text starts with [$];
    its name is the text from the third character up to, not including,
    the last (the form "${name}"), sanitized.  The parameter form has
    exactly one input per distinct name of a placeholder among the inputs
    of the steps, filed under that name; and a change event writes, for
    each parameter it carries, to exactly the fields of the placeholders
    for that parameter. *)
Theorem parameters_of_placeholders f log this :
  initialize f = (log, Ret this) ->
  (forall l, is_Some (wp_inputs this !! l)
             <-> exists c g b,
                   Obj.get (steps this) c = Some g /\ b ∈ inputs g
                   /\ dollar (in_value b) = true
                   /\ l = sanitize
                            (JS.VStr
                               (JS.substring
                                  (JS.String (in_value b)) 2
                                  (JS.length (JS.String (in_value b)) - 1))))
  /\ (forall l p, wp_inputs this !! l = Some p ->
                  p_name p = l /\ p_label p = l)
  /\ (forall data,
        onchange this data
        = List.flat_map
            (fun lv => List.map
                         (fun fld => FieldValue fld (pushed (snd lv) (fst lv)))
                         (fields_named (fst lv) (scan_list (steps this))))
            data).
Proof.
  intros Hi. pose proof (initialize_view _ _ _ Hi) as Hok.
  pose proof Hok as (_ & _ & Ht & Hp).
  destruct (bound_parameters (scan_list (steps this))) as (_ & Hdom & Hcol).
  split; [|split].
  - intros l. rewrite Hp, Hdom, elem_of_first_seen, elem_of_names. split.
    + intros (c & b & Hin & Hd & <-).
      apply (view_scan_elem _ _ _ Hok) in Hin as (g & Hg & Hb).
      by exists c, g, b.
    + intros (c & g & b & Hg & Hb & Hd & ->). exists c, b.
      split; [|done]. apply (view_scan_elem _ _ _ Hok). by exists g.
  - intros l p Hl. rewrite Hp in Hl.
    assert (l ∈ first_seen (names (scan_list (steps this)))) as Hin
      by (apply Hdom; by eexists).
    apply list_elem_of_lookup in Hin as [k Hk].
    destruct (Hcol k l Hk) as (q & Hq & _ & Hn).
    rewrite Hl in Hq. by injection Hq as <-.
  - intros data. unfold onchange.
    induction data as [|[l v] data IH]; simpl; [done|].
    by rewrite IH, (view_targets _ _ Hok).
Qed.

End Parameters.

Lemma spectrum_view_built :
  initialize (U:=text_utils) spectrum_workflow
  = (fst (initialize (U:=text_utils) spectrum_workflow),
     Ret (built (U:=text_utils) spectrum_workflow)).
Proof. vm_compute. reflexivity. Qed.

Lemma colors_follow_discovery_order_witness :
  exists p,
    wp_inputs (built (U:=text_utils) spectrum_workflow) !! "p19" = Some p
    /\ p_color p = color (N.of_nat 18 + 1)
    /\ forall m l' p',
         (m < 18)%nat ->
         discovery_order (U:=text_utils)
           (built (U:=text_utils) spectrum_workflow) !! m = Some l' ->
         wp_inputs (built (U:=text_utils) spectrum_workflow) !! l'
         = Some p' ->
         hue (N.of_nat m + 1) <> hue (N.of_nat 18 + 1)
         /\ p_color p' <> p_color p
         /\ p_color p' = color (N.of_nat m + 1)
         /\ (angle (hue (N.of_nat m + 1)) = angle (hue (N.of_nat 18 + 1))
             <-> ((18 - m) mod 18 = 0)%nat).
Proof.
  refine (colors_follow_discovery_order (U:=text_utils) spectrum_workflow
            _ _ spectrum_view_built 18 "p19" _).
  vm_compute. reflexivity.
Defined.

(** C6 as stated does not hold: the nineteenth parameter has the hue of
    the first, 1900 degrees being five turns and 100 degrees. *)
Lemma hues_all_differ_fails :
  ~ hues_all_differ (U:=text_utils) spectrum_workflow.
Proof.
  intros Hc.
  apply (Hc _ _ spectrum_view_built 18%nat 0%nat "p19" "p1"
            (WorkflowParameter (Some "text") JS.VUndefined "p19" "p19"
                               (color 19))
            (WorkflowParameter (Some "text") JS.VUndefined "p1" "p1"
                               (color 1))
            19%N 1%N); try (vm_compute; reflexivity).
  lia.
Qed.

Example colors_of_first_and_nineteenth :
  p_color <$> wp_inputs (built (U:=text_utils) spectrum_workflow) !! "p1"
  = Some "hsl( 100, 70%, 30% )"
  /\ p_color <$> wp_inputs (built (U:=text_utils) spectrum_workflow) !! "p19"
     = Some "hsl( 1900, 70%, 30% )"
  /\ angle 1900 = angle 100.
Proof. vm_compute. repeat split; reflexivity. Qed.

Lemma change_pushes_to_targets_witness :
  default [] (wp_targets (built (U:=text_utils) blend_workflow) !! "color")
  = fields_named (U:=text_utils) "color"
      (scan_list (steps (built (U:=text_utils) blend_workflow)))
  /\ forall fld,
       fld ∈ default []
               (wp_targets (built (U:=text_utils) blend_workflow) !! "color") ->
       FieldValue fld
         (if String.eqb (sanitize (Utils:=text_utils) (JS.VStr "red")) ""
          then "color" else sanitize (Utils:=text_utils) (JS.VStr "red"))
       ∈ onchange (U:=text_utils) (built (U:=text_utils) blend_workflow)
           [("size", JS.VStr ""); ("color", JS.VStr "red")].
Proof.
  refine (change_pushes_to_targets (U:=text_utils) blend_workflow
            (fst (initialize (U:=text_utils) blend_workflow))
            (built (U:=text_utils) blend_workflow) _
            [("size", JS.VStr ""); ("color", JS.VStr "red")]
            "color" (JS.VStr "red") _).
  - vm_compute. reflexivity.
  - right. left.
Defined.

Lemma parameters_of_placeholders_witness :
  is_Some (wp_inputs (built (U:=text_utils) (paint_workflow "${color}"
                                               JS.VUndefined)) !! "color")
  /\ onchange (U:=text_utils)
       (built (U:=text_utils) (paint_workflow "${color}" JS.VUndefined))
       [("color", JS.VStr "red")]
     = [FieldValue (StepField 1 "tint") "red"].
Proof.
  destruct (parameters_of_placeholders (U:=text_utils)
              (paint_workflow "${color}" JS.VUndefined)
              (fst (initialize (U:=text_utils)
                      (paint_workflow "${color}" JS.VUndefined)))
              (built (U:=text_utils) (paint_workflow "${color}" JS.VUndefined)))
    as (Hdom & _ & Hch).
  - vm_compute. reflexivity.
  - split.
    + apply Hdom.
      exists 1%N, (fst (prepare_step 1 (paint_step "${color}"))),
             (plain_input "tint" "text" (JS.VStr "${color}")).
      split; [reflexivity|]. split; [left|]. split; reflexivity.
    + rewrite Hch. reflexivity.
Defined.

(** C1 as stated does not hold: the view drops the first two characters
    and the last one, so "$color$" files its parameter under "olor", not
    under "color". *)
Lemma dollar_name_parameters_fails :
  ~ dollar_name_parameters (U:=text_utils)
      (paint_workflow "$color$" JS.VUndefined).
Proof.
  intros Hc.
  specialize (Hc (fst (initialize (U:=text_utils)
                         (paint_workflow "$color$" JS.VUndefined)))
                 (built (U:=text_utils) (paint_workflow "$color$" JS.VUndefined))
                 ltac:(vm_compute; reflexivity) "color").
  destruct Hc as [_ Hc].
  destruct Hc as [p Hp].
  - exists 1%N, (fst (prepare_step 1 (paint_step "$color$"))),
           (plain_input "tint" "text" (JS.VStr "$color$")), "color".
    split; [reflexivity|]. split; [left|]. split; reflexivity.
  - vm_compute in Hp. discriminate Hp.
Qed.

Example dollar_color_is_filed_under_olor :
  map_to_list (wp_inputs (built (U:=text_utils)
                            (paint_workflow "$color$" JS.VUndefined)))
  = [("olor", WorkflowParameter (Some "text") JS.VUndefined "olor" "olor"
                                "hsl( 100, 70%, 30% )")].
Proof. vm_compute. reflexivity. Qed.

(** ** Connected inputs (InputNormalizer) *)

Lemma input_ind' (P : input -> Prop) :
  (forall a, Forall P (in_inputs a) -> P a) -> forall a, P a.
Proof.
  intros HP. fix IH 1. intros a. apply HP.
  destruct a as [? ? ? ? ? ? ? ? ? ? ? ? ? l]. simpl.
  induction l as [|b l IHl]; constructor; [apply IH | exact IHl].
Qed.

Lemma deep_eq F a :
  deep F a = set_inputs (List.map (deep F) (in_inputs a)) (F a).
Proof. by destruct a. Qed.

Lemma flatten_eq a : flatten a = a :: List.flat_map flatten (in_inputs a).
Proof. by destruct a. Qed.

Lemma flatten_self a : a ∈ flatten a.
Proof. rewrite flatten_eq. left. Qed.

(** Every node of a mapped tree is the image of a node of the tree. *)
Lemma flatten_deep F a x' :
  x' ∈ flatten (deep F a) ->
  exists x, x ∈ flatten a
            /\ x' = set_inputs (List.map (deep F) (in_inputs x)) (F x).
Proof.
  revert x'. induction a as [a IH] using input_ind'. intros x'.
  rewrite (flatten_eq (deep F a)), (flatten_eq a), deep_eq.
  intros [->|Hin]%elem_of_cons.
  - exists a. split; [left | done].
  - simpl in Hin. rewrite list_elem_of_In in Hin.
    apply in_flat_map in Hin as (y' & Hy' & Hx').
    apply in_map_iff in Hy' as (y & <- & Hy).
    rewrite Forall_forall in IH.
    destruct (IH y (proj2 (list_elem_of_In _ _) Hy) x') as (x & Hx & ->).
    { by apply list_elem_of_In. }
    exists x. split; [|done]. right.
    apply list_elem_of_In, in_flat_map. exists y.
    split; [done | by apply list_elem_of_In].
Qed.

Lemma all_inputs_deep F l x' :
  x' ∈ all_inputs (List.map (deep F) l) ->
  exists x, x ∈ all_inputs l
            /\ x' = set_inputs (List.map (deep F) (in_inputs x)) (F x).
Proof.
  unfold all_inputs. rewrite list_elem_of_In, in_flat_map.
  intros (y' & Hy' & Hx'). apply in_map_iff in Hy' as (y & <- & Hy).
  apply list_elem_of_In, flatten_deep in Hx' as (x & Hx & ->).
  exists x. split; [|done].
  apply list_elem_of_In, in_flat_map. exists y.
  split; [done | by apply list_elem_of_In].
Qed.

Lemma top_level_inputs l b : b ∈ l -> b ∈ all_inputs l.
Proof.
  intros Hb. unfold all_inputs. apply list_elem_of_In, in_flat_map.
  exists b. split; [by apply list_elem_of_In|].
  apply list_elem_of_In, flatten_self.
Qed.

(** After the three passes, an input with connections under its name has
    been through the callback of [matchIds]. *)
Lemma normalize_connected b x cs :
  x ∈ all_inputs (inputs (normalize b)) ->
  input_connections_by_name b !! in_name x = Some cs ->
  rendered_disabled x cs /\ in_ignore x = JS.VStr "".
Proof.
  unfold normalize, matchContext, matchIds, deepeach. simpl.
  intros Hx Hcs.
  apply all_inputs_deep in Hx as (x2 & Hx2 & ->).
  apply all_inputs_deep in Hx2 as (x1 & _ & ->).
  assert (forall (a : input) (o : option input),
             in_name (match o with
                      | Some b' => matchContext_callback a b'
                      | None => a
                      end) = in_name a) as Hname3
    by (by intros a [b'|]).
  revert Hcs. simpl.
  destruct (in_data_ref _) as [r|]; simpl.
  - rewrite Hname3. simpl.
    destruct (input_connections_by_name b !! in_name x1) as [a|] eqn:Ha;
      simpl; rewrite Ha; [|done].
    intros [= ->].
    destruct (List.find _ _) as [b'|]; by repeat split.
  - destruct (input_connections_by_name b !! in_name x1) as [a|] eqn:Ha;
      simpl; rewrite Ha; [|done].
    intros [= ->]. by repeat split.
Qed.

Lemma NoDup_map_inj {A B} (f : A -> B) (l : list A) x y :
  NoDup (List.map f l) -> x ∈ l -> y ∈ l -> f x = f y -> x = y.
Proof.
  induction l as [|a l IH]; simpl; intros Hnd Hx Hy Hf.
  - by apply elem_of_nil in Hx.
  - apply NoDup_cons in Hnd as [Ha Hnd].
    apply elem_of_cons in Hx as [->|Hx]; apply elem_of_cons in Hy as [->|Hy].
    + done.
    + exfalso. apply Ha. rewrite Hf. apply list_elem_of_In, in_map.
      by apply list_elem_of_In.
    + exfalso. apply Ha. rewrite <- Hf. apply list_elem_of_In, in_map.
      by apply list_elem_of_In.
    + by apply IH.
Qed.

Section Normalizer.

Context {U : Utils}.

(** A registered tool step is a step of the descriptor after [merge] and
    the three passes. *)
Lemma tool_step_normalized f log this c g :
  initialize f = (log, Ret this) ->
  Obj.get (steps this) c = Some g -> step_type g = "tool" ->
  exists f' b, b ∈ wf_steps f /\ g = normalize (merge f' b).
Proof.
  intros Hi Hg Htool.
  destruct (initialize_inv _ _ _ Hi) as (_ & Hs & _).
  rewrite Hs in Hg.
  apply prepare_origin in Hg as [Hg|(f' & b & Hb & ->)]; [done|].
  exists f', b. split; [done|].
  rewrite prepare_step_type in Htool.
  unfold prepare_step. simpl. by rewrite Htool.
Qed.

(** C3, amended.  In every step of type "tool", every input with an
    incoming connection has been rewritten by the normalization: its type
    is "hidden", its value the empty text, its options [null], and its
    help lists "Output dataset '<name>' from step <index>" for each
    upstream connection; and, the inputs of the step having distinct
    ids, its field is a target of no workflow parameter, whatever type
    it declared. *)
Theorem connected_tool_inputs_are_disabled f log this :
  initialize f = (log, Ret this) ->
  forall c g x cs,
    Obj.get (steps this) c = Some g ->
    step_type g = "tool" ->
    x ∈ all_inputs (inputs g) ->
    input_connections_by_name g !! in_name x = Some cs ->
    NoDup (List.map in_id (all_inputs (inputs g))) ->
    rendered_disabled x cs
    /\ forall l, StepField c (in_id x) ∉ default [] (wp_targets this !! l).
Proof.
  intros Hi c g x cs Hg Htool Hx Hcs Hids.
  pose proof (initialize_view _ _ _ Hi) as Hok.
  destruct (tool_step_normalized _ _ _ _ _ Hi Hg Htool) as (f' & b & _ & ->).
  destruct (normalize_connected (merge f' b) x cs Hx Hcs) as [Hr _].
  split; [done|].
  intros l. rewrite (view_targets _ _ Hok). intros Hin.
  apply elem_of_fields_named in Hin as (c' & b' & Hs & Hd & _ & [= <- Hid]).
  apply (view_scan_elem _ _ _ Hok) in Hs as (g' & Hg' & Hb').
  rewrite Hg in Hg'. injection Hg' as <-.
  apply top_level_inputs in Hb'.
  assert (x = b') as <- by (by eapply (NoDup_map_inj in_id)).
  destruct Hr as (_ & Hv & _). rewrite Hv in Hd. done.
Qed.

End Normalizer.

Lemma connected_tool_inputs_are_disabled_witness :
  rendered_disabled
    (matchIds_callback [Connection "out_file1" 2; Connection "output" 3]
                       (plain_input "first" "data" (JS.VStr "${source}")))
    [Connection "out_file1" 2; Connection "output" 3]
  /\ forall l,
       StepField 4 "first"
       ∉ default []
           (wp_targets (built (U:=text_utils)
                          (Workflow "w" "Join" JS.VNull [join_step])) !! l).
Proof.
  refine (connected_tool_inputs_are_disabled (U:=text_utils)
            (Workflow "w" "Join" JS.VNull [join_step])
            (fst (initialize (U:=text_utils)
                    (Workflow "w" "Join" JS.VNull [join_step])))
            (built (U:=text_utils) (Workflow "w" "Join" JS.VNull [join_step]))
            _ 4%N (fst (prepare_step 0 join_step))
            (matchIds_callback
               [Connection "out_file1" 2; Connection "output" 3]
               (plain_input "first" "data" (JS.VStr "${source}")))
            [Connection "out_file1" 2; Connection "output" 3] _ _ _ _ _).
  - vm_compute. reflexivity.
  - vm_compute. reflexivity.
  - reflexivity.
  - left.
  - vm_compute. reflexivity.
  - vm_compute. repeat constructor; rewrite ?elem_of_cons, ?elem_of_nil; 
      intuition discriminate.
Defined.

Example provenance_of_two :
  provenance [Connection "out_file1" 2; Connection "output" 3]
  = "Output dataset 'out_file1' from step 2, Output dataset 'output' from step 3".
Proof. reflexivity. Qed.

(** C3 as stated does not hold: the rewrite is part of the branch for the
    steps of type "tool", so an input of a data input step keeps its type
    and value, connection or not, and a placeholder there is bound. *)
Lemma connected_inputs_disabled_in_every_step_fails :
  ~ connected_inputs_disabled_in_every_step (U:=text_utils)
      (Workflow "w" "Linked" JS.VNull [linked_dataset_step]).
Proof.
  intros Hc.
  destruct (Hc (fst (initialize (U:=text_utils)
                       (Workflow "w" "Linked" JS.VNull [linked_dataset_step])))
               (built (U:=text_utils)
                  (Workflow "w" "Linked" JS.VNull [linked_dataset_step]))
               ltac:(vm_compute; reflexivity)
               5%N (fst (prepare_step 0 linked_dataset_step))
               (plain_input "input" "data" (JS.VStr "${source}"))
               [Connection "out_file1" 2])
    as [(Ht & _) _].
  - vm_compute. reflexivity.
  - left.
  - vm_compute. reflexivity.
  - vm_compute. repeat constructor. by intros ?%elem_of_nil.
  - discriminate Ht.
Qed.

Example linked_dataset_is_bound :
  wp_targets (built (U:=text_utils)
                (Workflow "w" "Linked" JS.VNull [linked_dataset_step]))
  !! "source"
  = Some [StepField 5 "input"].
Proof. vm_compute. reflexivity. Qed.

(** ** The validation loop of [_execute] *)

Lemma fold_left_items e g items s :
  fold_left do_visit (List.map (Item e g) items) s
  = fold_left (check e g) items s.
Proof. revert s. induction items; simpl; auto. Qed.

Lemma check_forms_visits steps create fs s :
  (forall e a, (e, a) ∈ fs -> is_Some a /\ is_Some (Obj.get steps e)) ->
  check_forms steps create fs s = (swept s (visits steps create fs), Ret tt).
Proof.
  revert s. induction fs as [|[e a] fs IH]; simpl; intros s Hfs; [done|].
  destruct (Hfs e a) as [[a' ->] [g Hg]]; [left|].
  rewrite Hg, IH.
  - unfold swept. simpl. by rewrite fold_left_app, fold_left_items.
  - intros e' b Hin. apply Hfs. by right.
Qed.

Lemma view_forms_steps {U : Utils} this e a :
  view_ok this -> (e, a) ∈ forms this ->
  is_Some a /\ exists g, Obj.get (steps this) e = Some g /\ step_id g = e.
Proof.
  intros ((Hfs & Hss & Hget & Hsome) & Hnn & _) Hin.
  split; [by eapply Hnn|].
  destruct (Hsome e) as [g Hg].
  { exists a. apply Obj_elem_get; [by apply Obj_ordered_NoDup | done]. }
  exists g. split; [done|]. by apply Hget.
Qed.

Lemma validate_swept {U : Utils} this create :
  view_ok this ->
  validate this create
  = (swept start (visits (steps this) create (forms this)), Ret tt).
Proof.
  intros Hok. unfold validate. apply check_forms_visits.
  intros e a Hin. destruct (view_forms_steps _ _ _ Hok Hin) as [Ha (g & Hg & _)].
  split; [done | by eexists].
Qed.

Lemma swept_items e g items s :
  swept s (List.map (Item e g) items) = fold_left (check e g) items s.
Proof. apply fold_left_items. Qed.

Lemma swept_snoc s vs v : swept s (vs ++ [v]) = do_visit (swept s vs) v.
Proof. unfold swept. by rewrite fold_left_app. Qed.

Lemma swept_app s vs vs' : swept s (vs ++ vs') = swept (swept s vs) vs'.
Proof. unfold swept. by rewrite fold_left_app. Qed.

(** [d] stays [true] exactly as long as no item fails. *)
Lemma d_swept s vs :
  d (swept s vs) = d s && forallb (fun v => negb (flagged v)) vs.
Proof.
  induction vs as [|v vs IH] using rev_ind.
  - simpl. by rewrite andb_true_r.
  - rewrite swept_snoc, forallb_app, andb_assoc, <- IH. simpl.
    rewrite andb_true_r.
    destruct v as [e g|e g x]; simpl; [by rewrite andb_true_r|].
    unfold check, invalid, required_empty.
    destruct (data_input_type (step_type g)).
    + destruct (selected (e_value x)); simpl; [by rewrite andb_true_r|].
      rewrite andb_false_r. by destruct (d (swept s vs)) eqn:Hd.
    + destruct (in_optional (e_input x)), (in_is_workflow (e_input x)),
        (JS.nullish (e_value x)); simpl;
        by rewrite ?andb_true_r, ?andb_false_r.
Qed.

(** The toolkit calls of the loop only accumulate. *)
Lemma calls_swept s vs : exists w, calls (swept s vs) = calls s ++ w.
Proof.
  induction vs as [|v vs [w IH]] using rev_ind.
  - exists []. by rewrite app_nil_r.
  - rewrite swept_snoc.
    destruct v as [e g|e g x]; simpl.
    + exists (w ++ [FormReset e]). by rewrite IH, app_assoc.
    + unfold check.
      destruct (data_input_type (step_type g)).
      * destruct (selected (e_value x)); simpl; [by exists w|].
        destruct (d (swept s vs)); simpl; [|by exists w].
        exists (w ++ [FormHighlight e (in_id (e_input x))]).
        by rewrite IH, app_assoc.
      * destruct (_ || _ || _); simpl; [by exists w|].
        exists (w ++ [FormHighlight e (in_id (e_input x))]).
        by rewrite IH, app_assoc.
Qed.

(** A highlight comes from an item that failed. *)
Lemma highlight_sound s vs e m :
  FormHighlight e m ∈ calls (swept s vs) ->
  FormHighlight e m ∈ calls s
  \/ exists g x, Item e g x ∈ vs /\ invalid g x = true
                 /\ m = in_id (e_input x).
Proof.
  induction vs as [|v vs IH] using rev_ind; [by left|].
  rewrite swept_snoc.
  assert (FormHighlight e m ∈ calls (swept s vs) ->
          FormHighlight e m ∈ calls s
          \/ exists g x, Item e g x ∈ vs ++ [v] /\ invalid g x = true
                         /\ m = in_id (e_input x)) as IH'.
  { intros [?|(g & x & Hin & ?)]%IH; [by left|].
    right. exists g, x. split; [|done]. apply elem_of_app. by left. }
  assert (forall g x, v = Item e g x -> invalid g x = true ->
                      m = in_id (e_input x) ->
                      exists g x, Item e g x ∈ vs ++ [v] /\ invalid g x = true
                                  /\ m = in_id (e_input x)) as Hnew.
  { intros g x -> Hinv ->. exists g, x. split; [|done].
    apply elem_of_app. right. left. }
  destruct v as [e' g|e' g x]; simpl.
  - rewrite elem_of_app, list_elem_of_singleton.
    intros [Hin|[=]]. by apply IH'.
  - unfold check.
    destruct (data_input_type (step_type g)) eqn:Hdt.
    + destruct (selected (e_value x)) eqn:Hsel; simpl; [exact IH'|].
      destruct (d (swept s vs)); simpl; [|exact IH'].
      rewrite elem_of_app, list_elem_of_singleton.
      intros [Hin|[= <- ->]]; [by apply IH'|].
      right. eapply Hnew; [done| |done].
      unfold invalid. by rewrite Hdt, Hsel.
    + destruct (in_optional (e_input x)) eqn:Ho,
        (in_is_workflow (e_input x)) eqn:Hw,
        (JS.nullish (e_value x)) eqn:Hn; simpl; try exact IH'.
      rewrite elem_of_app, list_elem_of_singleton.
      intros [Hin|[= <- ->]]; [by apply IH'|].
      right. eapply Hnew; [done| |done].
      unfold invalid, required_empty. by rewrite Hdt, Ho, Hw, Hn.
Qed.

(** An item that fails is highlighted, provided, for a data input, that
    nothing failed before it. *)
Lemma highlight_complete s pre post e g x :
  invalid g x = true ->
  d (swept s pre) = true \/ data_input_type (step_type g) = false ->
  FormHighlight e (in_id (e_input x))
  ∈ calls (swept s (pre ++ Item e g x :: post)).
Proof.
  intros Hinv Hd.
  rewrite swept_app. simpl.
  destruct (calls_swept (check e g (swept s pre) x) post) as [w ->].
  apply elem_of_app. left.
  unfold check, invalid, required_empty in *.
  destruct (data_input_type (step_type g)).
  - destruct (selected (e_value x)); [done|].
    destruct Hd as [->|?]; [|done]. simpl.
    apply elem_of_app. right. left.
  - destruct (in_optional (e_input x)), (in_is_workflow (e_input x)),
      (JS.nullish (e_value x)); simpl in *; try done.
    apply elem_of_app. right. left.
Qed.

Lemma tidy_open seen P e g Q :
  tidy seen (P ++ Open e g :: Q) ->
  (e ∉ seen) /\ forall v, v ∈ P -> key_of v <> e.
Proof.
  revert seen. induction P as [|v P IH]; simpl; intros seen Ht.
  - split; [tauto|]. by intros v ?%elem_of_nil.
  - destruct v as [e' g'|e' g' x']; destruct Ht as [He' Ht];
      apply IH in Ht as [He HP].
    + apply not_elem_of_cons in He as [Hne He]. split; [done|].
      intros v [->|Hv]%elem_of_cons; [done | by apply HP].
    + split; [done|].
      intros v [->|Hv]%elem_of_cons; [|by apply HP].
      simpl. by intros ->.
Qed.

Lemma tidy_items seen e g items rest :
  e ∈ seen -> tidy seen rest ->
  tidy seen (List.map (Item e g) items ++ rest).
Proof. intros He Hr. induction items; simpl; [done | by split]. Qed.

Lemma tidy_visits steps create fs : forall seen,
  NoDup (List.map fst fs) ->
  (forall e, e ∈ List.map fst fs -> e ∉ seen) ->
  tidy seen (visits steps create fs).
Proof.
  induction fs as [|[e a] fs IH]; simpl; intros seen Hnd Hseen; [done|].
  apply NoDup_cons in Hnd as [He Hnd].
  destruct (Obj.get steps e) as [g|]; simpl.
  - split; [apply Hseen; left|].
    apply tidy_items; [left|]. apply IH; [done|].
    intros e' He'. apply not_elem_of_cons. split.
    + by intros ->.
    + apply Hseen. by right.
  - apply IH; [done|]. intros e' He'. apply Hseen. by right.
Qed.

Lemma run_snoc u l x : run u (l ++ [x]) = apply (run u l) x.
Proof. unfold run. by rewrite fold_left_app. Qed.

Lemma run_app u l l' : run u (l ++ l') = run (run u l) l'.
Proof. unfold run. by rewrite fold_left_app. Qed.

(** What the loop highlights stays highlighted until the loop ends: a
    form is reset before its items are checked, never after. *)
Lemma highlights_persist u vs :
  tidy [] vs ->
  forall P Q, vs = P ++ Q ->
  forall e m, FormHighlight e m ∈ calls (swept start P) ->
              (e, m) ∈ highlighted (run u (calls (swept start P))).
Proof.
  intros Ht P. induction P as [|v P IH] using rev_ind; intros Q HPQ e m.
  - by intros ?%elem_of_nil.
  - rewrite <- app_assoc in HPQ. simpl in HPQ.
    specialize (IH _ HPQ e m).
    rewrite swept_snoc.
    destruct v as [e' g'|e' g' x']; simpl.
    + rewrite elem_of_app, list_elem_of_singleton.
      intros [Hin|[=]]. rewrite run_snoc. simpl.
      apply list_elem_of_In, filter_In. split.
      * apply list_elem_of_In. by apply IH.
      * simpl. apply negb_true_iff, N.eqb_neq.
        apply highlight_sound in Hin as [Hin|(g & x & Hin & _)];
          [by apply elem_of_nil in Hin|].
        rewrite HPQ in Ht. apply tidy_open in Ht as [_ Ht].
        by apply (Ht (Item e g x)).
    + assert (forall w,
                 FormHighlight e m ∈ calls (swept start P) ++ w ->
                 (forall y, y ∈ w -> y = FormHighlight e' (in_id (e_input x'))) ->
                 (e, m) ∈ highlighted (run u (calls (swept start P) ++ w)))
        as Hw.
      { intros w Hin Hall. rewrite run_app.
        assert ((e, m) ∈ highlighted (run u (calls (swept start P)))
                \/ FormHighlight e m ∈ w) as Hcases.
        { apply elem_of_app in Hin as [Hin|Hin]; [left; by apply IH | by right]. }
        clear Hin IH. revert Hcases Hall.
        generalize (run u (calls (swept start P))) as u'.
        induction w as [|y w IHw]; intros u' Hc Hall.
        - destruct Hc as [Hc|Hc]; [done | by apply elem_of_nil in Hc].
        - simpl. pose proof (Hall y (list_elem_of_here _ _)) as ->.
          apply IHw.
          + simpl. destruct Hc as [Hc|Hc].
            * left. apply elem_of_app. by left.
            * apply elem_of_cons in Hc as [[= -> ->]|Hc]; [|by right].
              left. apply elem_of_app. right. left.
          + intros y' Hy'. apply Hall. by right. }
      unfold check.
      destruct (data_input_type (step_type g')).
      * destruct (selected (e_value x')); simpl.
        -- intros Hin. specialize (Hw [] ). rewrite app_nil_r in Hw.
           apply Hw; [done|]. by intros y ?%elem_of_nil.
        -- destruct (d (swept start P)); simpl.
           ++ intros Hin. apply Hw; [done|].
              by intros y ->%list_elem_of_singleton.
           ++ intros Hin. specialize (Hw []). rewrite app_nil_r in Hw.
              apply Hw; [done|]. by intros y ?%elem_of_nil.
      * destruct (_ || _ || _); simpl.
        -- intros Hin. specialize (Hw []). rewrite app_nil_r in Hw.
           apply Hw; [done|]. by intros y ?%elem_of_nil.
        -- intros Hin. apply Hw; [done|].
           by intros y ->%list_elem_of_singleton.
Qed.

(** *** What the loop visits *)

Lemma visits_open steps create fs e g :
  Open e g ∈ visits steps create fs
  <-> e ∈ List.map fst fs /\ Obj.get steps e = Some g.
Proof.
  unfold visits. rewrite list_elem_of_In, in_flat_map. split.
  - intros ([e' a] & Hin & Hv). simpl in Hv.
    destruct (Obj.get steps e') as [g'|] eqn:Hg; [|done].
    destruct Hv as [[= -> ->]|Hv].
    + split; [|done]. apply list_elem_of_In, in_map_iff. by exists (e, a).
    + apply in_map_iff in Hv as (? & [=] & _).
  - intros [He Hg]. apply list_elem_of_In, in_map_iff in He as ([e' a] & <- & Hin).
    simpl in *. exists (e', a). split; [done|]. simpl. rewrite Hg. by left.
Qed.

Lemma visits_item steps create fs e g x :
  Item e g x ∈ visits steps create fs
  <-> e ∈ List.map fst fs /\ Obj.get steps e = Some g /\ x ∈ create e.
Proof.
  unfold visits. rewrite list_elem_of_In, in_flat_map. split.
  - intros ([e' a] & Hin & Hv). simpl in Hv.
    destruct (Obj.get steps e') as [g'|] eqn:Hg; [|done].
    destruct Hv as [[=]|Hv].
    apply in_map_iff in Hv as (x' & [= -> -> ->] & Hx).
    split; [|split; [done | by apply list_elem_of_In]].
    apply list_elem_of_In, in_map_iff. by exists (e, a).
  - intros (He & Hg & Hx).
    apply list_elem_of_In, in_map_iff in He as ([e' a] & <- & Hin).
    simpl in *. exists (e', a). split; [done|]. simpl. rewrite Hg. right.
    apply in_map_iff. exists x. by rewrite <- list_elem_of_In.
Qed.

Lemma visits_steps steps create fs v :
  v ∈ visits steps create fs ->
  key_of v ∈ List.map fst fs /\ Obj.get steps (key_of v) = Some (step_of v).
Proof.
  destruct v as [e g|e g x]; simpl.
  - by intros ?%visits_open.
  - intros (? & ? & _)%visits_item. done.
Qed.

(** The visits of a form come in one block, between the visits of the
    forms before and after it. *)
Lemma visits_split steps create fs e g :
  NoDup (List.map fst fs) -> e ∈ List.map fst fs ->
  Obj.get steps e = Some g ->
  exists A B,
    visits steps create fs
    = A ++ (Open e g :: List.map (Item e g) (create e)) ++ B
    /\ (forall v, v ∈ A -> key_of v <> e)
    /\ (forall v, v ∈ B -> key_of v <> e).
Proof.
  intros Hnd He Hg.
  induction fs as [|[e' a] fs IH]; simpl in *.
  - by apply elem_of_nil in He.
  - apply NoDup_cons in Hnd as [He' Hnd].
    apply elem_of_cons in He as [->|He].
    + exists [], (visits steps create fs). rewrite Hg. simpl.
      split; [done|]. split; [by intros v ?%elem_of_nil|].
      intros v [Hv _]%visits_steps Heq. apply He'. by rewrite <- Heq.
    + destruct (IH Hnd He) as (A & B & Hv & HA & HB).
      exists ((match Obj.get steps e' with
               | Some g' => Open e' g' :: List.map (Item e' g') (create e')
               | None => []
               end) ++ A), B.
      fold (visits steps create fs). rewrite Hv, <- app_assoc.
      split; [done|]. split; [|done].
      intros v [Hin|Hin]%elem_of_app; [|by apply HA].
      assert (key_of v = e') as ->.
      { destruct (Obj.get steps e') as [g'|]; [|by apply elem_of_nil in Hin].
        apply elem_of_cons in Hin as [->|Hin]; [done|].
        apply list_elem_of_In, in_map_iff in Hin as (? & <- & _). done. }
      by intros ->.
Qed.

(** *** The maps of the request *)

Lemma inputs_swept s vs j :
  is_Some (rq_inputs (c (swept s vs)) !! j)
  <-> is_Some (rq_inputs (c s) !! j)
      \/ exists e g x, Item e g x ∈ vs
                       /\ data_input_type (step_type g) = true
                       /\ selected (e_value x) = true
                       /\ order_index g = j.
Proof.
  induction vs as [|v vs IH] using rev_ind.
  - simpl. split; [by left|]. intros [?|(? & ? & ? & ?%elem_of_nil & _)]; done.
  - rewrite swept_snoc.
    assert ((exists e g x, Item e g x ∈ vs ++ [v]
                           /\ data_input_type (step_type g) = true
                           /\ selected (e_value x) = true
                           /\ order_index g = j)
            <-> (exists e g x, Item e g x ∈ vs
                               /\ data_input_type (step_type g) = true
                               /\ selected (e_value x) = true
                               /\ order_index g = j)
                \/ (exists e g x, v = Item e g x
                                  /\ data_input_type (step_type g) = true
                                  /\ selected (e_value x) = true
                                  /\ order_index g = j)) as ->.
    { split.
      - intros (e & g & x & [Hin|Hin%list_elem_of_singleton]%elem_of_app & Hr).
        + left. by exists e, g, x.
        + right. by exists e, g, x.
      - intros [(e & g & x & Hin & Hr)|(e & g & x & -> & Hr)];
          exists e, g, x; (split; [|done]); apply elem_of_app;
          [by left | right; left]. }
    destruct v as [e g|e g x]; simpl.
    + rewrite IH. split; [tauto|].
      intros [?|[?|(? & ? & ? & [=] & _)]]; tauto.
    + unfold check.
      destruct (data_input_type (step_type g)) eqn:Hdt.
      * destruct (selected (e_value x)) eqn:Hsel; simpl.
        -- destruct (decide (order_index g = j)) as [<-|Hne].
           ++ rewrite lookup_insert_eq. split; [|by eexists].
              intros _. right. right. by exists e, g, x.
           ++ rewrite lookup_insert_ne by done. rewrite IH.
              split; [tauto|].
              intros [?|[?|(? & ? & ? & ? & _ & _ & ?)]];
                [tauto | tauto | simplify_eq].
        -- assert (rq_inputs
                     (c (if d (swept s vs)
                         then Pass (c (swept s vs)) false
                                (calls (swept s vs)
                                 ++ [FormHighlight e (in_id (e_input x))])
                         else swept s vs))
                   = rq_inputs (c (swept s vs))) as ->
             by (by destruct (d (swept s vs))).
           rewrite IH. split; [tauto|].
           intros [?|[?|(? & ? & ? & ? & _ & ? & _)]];
             [tauto | tauto | simplify_eq; congruence].
      * assert (forall s', rq_inputs
                             (c (if in_optional (e_input x)
                                    || in_is_workflow (e_input x)
                                    || negb (JS.nullish (e_value x))
                                 then Pass (set_parameter (step_id g) (e_key x)
                                              (e_value x) (c s'))
                                        (d s') (calls s')
                                 else Pass (c s') false
                                        (calls s'
                                         ++ [FormHighlight e
                                               (in_id (e_input x))])))
                           = rq_inputs (c s')) as ->
          by (intros s'; by destruct (_ || _ || _)).
        rewrite IH. split; [tauto|].
        intros [?|[?|(? & ? & ? & ? & ? & _)]];
          [tauto | tauto | simplify_eq; congruence].
Qed.

Lemma parameters_visit s v h :
  step_id (step_of v) <> h ->
  rq_parameters (c (do_visit s v)) !! h = rq_parameters (c s) !! h.
Proof.
  intros Hne. destruct v as [e g|e g x]; simpl in *.
  - by rewrite lookup_insert_ne.
  - unfold check. destruct (data_input_type (step_type g)).
    + destruct (selected (e_value x)); simpl; [done|].
      by destruct (d s).
    + destruct (_ || _ || _); simpl; [|done].
      by rewrite lookup_insert_ne.
Qed.

Lemma parameters_untouched s vs h :
  (forall v, v ∈ vs -> step_id (step_of v) <> h) ->
  rq_parameters (c (swept s vs)) !! h = rq_parameters (c s) !! h.
Proof.
  induction vs as [|v vs IH] using rev_ind; intros Hvs; [done|].
  rewrite swept_snoc, parameters_visit.
  - apply IH. intros v' Hv'. apply Hvs, elem_of_app. by left.
  - apply Hvs, elem_of_app. right. left.
Qed.

Lemma parameters_keep s v h :
  is_Some (rq_parameters (c s) !! h) ->
  is_Some (rq_parameters (c (do_visit s v)) !! h).
Proof.
  intros Hs.
  destruct (decide (step_id (step_of v) = h)) as [<-|Hne];
    [|by rewrite parameters_visit].
  destruct v as [e g|e g x]; simpl in *.
  - rewrite lookup_insert_eq. by eexists.
  - unfold check. destruct (data_input_type (step_type g)).
    + destruct (selected (e_value x)); simpl; [done|].
      by destruct (d s).
    + destruct (_ || _ || _); simpl; [|done].
      rewrite lookup_insert_eq. by eexists.
Qed.

Lemma parameters_swept_keep s vs h :
  is_Some (rq_parameters (c s) !! h) ->
  is_Some (rq_parameters (c (swept s vs)) !! h).
Proof.
  induction vs as [|v vs IH] using rev_ind; [done|].
  intros Hs. rewrite swept_snoc. by apply parameters_keep, IH.
Qed.

(** A sub-map appears only under the id of a visited step. *)
Lemma parameters_swept_dom s vs h :
  is_Some (rq_parameters (c (swept s vs)) !! h) ->
  is_Some (rq_parameters (c s) !! h)
  \/ exists v, v ∈ vs /\ step_id (step_of v) = h.
Proof.
  induction vs as [|v vs IH] using rev_ind; [by left|].
  rewrite swept_snoc.
  destruct (decide (step_id (step_of v) = h)) as [Heq|Hne].
  - intros _. right. exists v. split; [|done]. apply elem_of_app. right. left.
  - rewrite parameters_visit by done.
    intros [?|(v' & Hv' & ?)]%IH; [by left|].
    right. exists v'. split; [|done]. apply elem_of_app. by left.
Qed.

(** Checking the items of a data input leaves the parameters alone. *)
Lemma data_items_parameters e g items s :
  data_input_type (step_type g) = true ->
  rq_parameters (c (fold_left (check e g) items s)) = rq_parameters (c s).
Proof.
  intros Hdt. revert s. induction items as [|x items IH]; simpl; [done|].
  intros s. rewrite IH. unfold check. rewrite Hdt.
  destruct (selected (e_value x)); simpl; [done|]. by destruct (d s).
Qed.

(** Checking the items of a tool writes the values that pass under their
    keys and nothing else. *)
Lemma tool_items_parameters e g items s :
  data_input_type (step_type g) = false ->
  NoDup (List.map e_key items) ->
  (forall x, x ∈ items -> required_empty x = false ->
             sub (fold_left (check e g) items s) (step_id g) !! e_key x
             = Some (e_value x))
  /\ (forall k, (forall x, x ∈ items -> required_empty x = false ->
                           e_key x <> k) ->
                sub (fold_left (check e g) items s) (step_id g) !! k
                = sub s (step_id g) !! k).
Proof.
  intros Hdt.
  induction items as [|y items IH] using rev_ind; intros Hnd.
  - split; [by intros x ?%elem_of_nil | done].
  - rewrite List.map_app in Hnd. apply NoDup_app in Hnd as (Hnd & Hy & _).
    destruct (IH Hnd) as [IH1 IH2]. clear IH.
    rewrite fold_left_app. simpl.
    set (s' := fold_left (check e g) items s) in *.
    assert (sub (check e g s' y) (step_id g)
            = if required_empty y then sub s' (step_id g)
              else <[e_key y := e_value y]> (sub s' (step_id g))) as Hsub.
    { unfold check, required_empty, sub. rewrite Hdt.
      destruct (in_optional (e_input y)), (in_is_workflow (e_input y)),
        (JS.nullish (e_value y)); simpl; by rewrite ?lookup_insert_eq. }
    rewrite Hsub. split.
    + intros x [Hx| ->%list_elem_of_singleton]%elem_of_app Hre.
      * assert (e_key x <> e_key y) as Hne.
        { intros Heq. apply (Hy (e_key x)).
          - apply list_elem_of_In, in_map. by apply list_elem_of_In.
          - rewrite Heq. simpl. left. }
        destruct (required_empty y); [by apply IH1|].
        rewrite lookup_insert_ne by done. by apply IH1.
      * rewrite Hre. by rewrite lookup_insert_eq.
    + intros k Hk.
      assert (sub s' (step_id g) !! k = sub s (step_id g) !! k) as <-.
      { apply IH2. intros x Hx. apply Hk, elem_of_app. by left. }
      destruct (required_empty y) eqn:Hre; [done|].
      rewrite lookup_insert_ne; [done|].
      apply Hk; [|done]. apply elem_of_app. right. left.
Qed.

(** ** [_enabled] and [_execute] *)

Lemma each_portlet (a : bool) (fs : list (N * option form)) :
  (forall e b, (e, b) ∈ fs -> is_Some b) ->
  each (fun (_ : unit) '((e, b) : N * option form) =>
          match b with
          | Some _ => tell [if a then PortletEnable e else PortletDisable e]
          | None => throw TypeError
          end) fs tt
  = (List.map (fun e => if a then PortletEnable e else PortletDisable e)
              (Obj.keys fs), Ret tt).
Proof.
  induction fs as [|[e b] fs IH]; simpl; intros Hfs; [done|].
  destruct (Hfs e b) as [b' ->]; [left|].
  rewrite tell_bind, IH; [done|].
  intros e' b'' Hin. apply (Hfs e'). by right.
Qed.

Lemma _enabled_some this a hf :
  history_form this = Some hf ->
  (forall e b, (e, b) ∈ forms this -> is_Some b) ->
  _enabled this a = (enabling a (Obj.keys (forms this)), Ret tt).
Proof.
  intros Hh Hfs. unfold _enabled, enabling. rewrite Hh.
  rewrite !tell_bind. simpl. by rewrite each_portlet.
Qed.

Lemma _enabled_none this a :
  history_form this = None ->
  _enabled this a = ([if a then ButtonUnwait else ButtonWait], Throw TypeError).
Proof. intros Hh. unfold _enabled. by rewrite Hh. Qed.

Section Execute.

Context {U : Utils}.

Lemma _execute_some pg this create hf :
  view_ok this -> history_form this = Some hf ->
  let s := swept start (visits (steps this) create (forms this)) in
  _execute pg this create
  = (calls s ++ enabling (negb (d s)) (Obj.keys (forms this))
     ++ (if d s then [Post (url pg this) (c s)] else []), Ret tt).
Proof.
  intros Hok Hh s. unfold _execute.
  rewrite (validate_swept _ _ Hok). fold s.
  rewrite (bind_Ret (calls s, Ret tt) _ _ tt eq_refl). simpl.
  pose proof Hok as (_ & Hnn & _).
  destruct (d s); simpl.
  - by rewrite (bind_Ret _ _ _ tt (_enabled_some _ false _ Hh Hnn)).
  - rewrite (_enabled_some _ true _ Hh Hnn). simpl. by rewrite app_nil_r.
Qed.

Lemma _execute_none pg this create :
  view_ok this -> history_form this = None ->
  let s := swept start (visits (steps this) create (forms this)) in
  _execute pg this create
  = (calls s ++ [if d s then ButtonWait else ButtonUnwait], Throw TypeError).
Proof.
  intros Hok Hh s. unfold _execute.
  rewrite (validate_swept _ _ Hok). fold s.
  rewrite (bind_Ret (calls s, Ret tt) _ _ tt eq_refl). simpl.
  destruct (d s); simpl.
  - by rewrite (bind_Throw _ _ _ _ (_enabled_none _ false Hh)).
  - by rewrite (_enabled_none _ true Hh).
Qed.

End Execute.

(** ** Validation and the request (SubmissionValidator) *)

Lemma forallb_false_elem {A} (p : A -> bool) l x :
  x ∈ l -> p x = false -> forallb p l = false.
Proof.
  intros Hx Hp. apply not_true_is_false. intros Hall.
  rewrite forallb_forall in Hall.
  rewrite (Hall x) in Hp; [done | by apply list_elem_of_In].
Qed.

Lemma run_keeps_highlighted u l :
  (forall y, y ∈ l ->
             match y with
             | FormReset _ | FormHighlight _ _ => False
             | _ => True
             end) ->
  highlighted (run u l) = highlighted u.
Proof.
  revert u. induction l as [|y l IH]; simpl; intros u Hl; [done|].
  rewrite IH.
  - specialize (Hl y (list_elem_of_here _ _)). by destruct y.
  - intros y' Hy'. apply Hl. by right.
Qed.

Lemma calls_kinds s vs y :
  y ∈ calls (swept s vs) ->
  y ∈ calls s \/ (exists e, y = FormReset e)
  \/ (exists e m, y = FormHighlight e m).
Proof.
  induction vs as [|v vs IH] using rev_ind; [by left|].
  rewrite swept_snoc. destruct v as [e g|e g x]; simpl.
  - intros [Hy| ->%list_elem_of_singleton]%elem_of_app; [by apply IH|].
    right. left. by eexists.
  - unfold check. destruct (data_input_type (step_type g)).
    + destruct (selected (e_value x)); simpl; [exact IH|].
      destruct (d (swept s vs)); simpl; [|exact IH].
      intros [Hy| ->%list_elem_of_singleton]%elem_of_app; [by apply IH|].
      right. right. by do 2 eexists.
    + destruct (_ || _ || _); simpl; [exact IH|].
      intros [Hy| ->%list_elem_of_singleton]%elem_of_app; [by apply IH|].
      right. right. by do 2 eexists.
Qed.

Section Validator.

Context {U : Utils}.

Lemma view_keys_NoDup this : view_ok this -> NoDup (List.map fst (forms this)).
Proof. intros ((Hfs & _) & _). by apply Obj_ordered_NoDup. Qed.

Lemma view_step_form this e g :
  view_ok this -> Obj.get (steps this) e = Some g ->
  step_id g = e /\ e ∈ List.map fst (forms this).
Proof.
  intros ((_ & _ & Hget & _) & _) Hg.
  destruct (Hget e g Hg) as [Hid Hf]. split; [done|].
  apply (Obj_get_keys (forms this)). by eexists.
Qed.

Lemma view_visit_id this create v :
  view_ok this -> v ∈ visits (steps this) create (forms this) ->
  step_id (step_of v) = key_of v.
Proof.
  intros Hok [_ Hg]%visits_steps.
  by destruct (view_step_form _ _ _ Hok Hg).
Qed.

(** The locals after the loop, by way of the block of one form: what the
    forms after it do leaves the sub-map of the form alone. *)
Lemma view_form_block this create e g :
  view_ok this -> Obj.get (steps this) e = Some g ->
  exists A B,
    visits (steps this) create (forms this)
    = A ++ (Open e g :: List.map (Item e g) (create e)) ++ B
    /\ rq_parameters (c (swept start (visits (steps this) create
                                        (forms this)))) !! e
       = rq_parameters
           (c (fold_left (check e g) (create e)
                         (open_form e g (swept start A)))) !! e.
Proof.
  intros Hok Hg.
  destruct (view_step_form _ _ _ Hok Hg) as [Hid He].
  destruct (visits_split (steps this) create (forms this) e g
              (view_keys_NoDup _ Hok) He Hg) as (A & B & Hv & _ & HB).
  exists A, B. split; [done|].
  rewrite Hv, !swept_app. rewrite parameters_untouched.
  - unfold swept at 1. simpl. by rewrite fold_left_items.
  - intros v Hv'. rewrite (view_visit_id this create v Hok); [by apply HB|].
    rewrite Hv. apply elem_of_app. right. apply elem_of_app. by right.
Qed.

(** C5. While a tool step is validated, the value extracted for a field
    is treated as invalid exactly when the field is required (neither
    optional nor workflow-bound) and the value is empty ([null] or
    [undefined]): then the field is highlighted, [d] is cleared and
    nothing is written for its key; every other value is written into
    [parameters[step_id]] under the key of the field, and no field of the
    form is highlighted but those that are required and empty. *)
Theorem tool_values_are_classified f log this :
  initialize f = (log, Ret this) ->
  forall create e g x,
    Obj.get (steps this) e = Some g ->
    step_type g = "tool" ->
    x ∈ create e ->
    NoDup (List.map e_key (create e)) ->
    let s := fst (validate this create) in
    (required_empty x = true ->
       FormHighlight e (in_id (e_input x)) ∈ calls s /\ d s = false
       /\ sub s (step_id g) !! e_key x = None)
    /\ (required_empty x = false ->
          sub s (step_id g) !! e_key x = Some (e_value x))
    /\ (forall m, FormHighlight e m ∈ calls s ->
                  exists y, y ∈ create e /\ in_id (e_input y) = m
                            /\ required_empty y = true).
Proof.
  intros Hi create e g x Hg Htool Hx Hnd.
  pose proof (initialize_view _ _ _ Hi) as Hok.
  rewrite (validate_swept _ _ Hok). simpl.
  assert (data_input_type (step_type g) = false) as Hdt by (by rewrite Htool).
  destruct (view_step_form _ _ _ Hok Hg) as [Hid He].
  assert (Item e g x ∈ visits (steps this) create (forms this)) as Hitem
    by (by apply visits_item).
  assert (invalid g x = required_empty x) as Hinv
    by (unfold invalid; by rewrite Hdt).
  destruct (view_form_block this create e g Hok Hg) as (A & B & Hv & Hsub).
  destruct (tool_items_parameters e g (create e)
              (open_form e g (swept start A)) Hdt Hnd) as [Hw Hk].
  assert (sub (swept start (visits (steps this) create (forms this)))
              (step_id g)
          = sub (fold_left (check e g) (create e)
                           (open_form e g (swept start A))) (step_id g))
    as Hsub' by (unfold sub; by rewrite Hid, Hsub).
  split; [|split].
  - intros Hre. split; [|split].
    + apply list_elem_of_split in Hx as (l1 & l2 & Hl).
      assert (visits (steps this) create (forms this)
              = (A ++ Open e g :: List.map (Item e g) l1)
                ++ Item e g x :: (List.map (Item e g) l2 ++ B)) as ->.
      { rewrite Hv, Hl, List.map_app. simpl. by rewrite <- !app_assoc. }
      apply highlight_complete; [by rewrite Hinv | by right].
    + rewrite d_swept. simpl.
      apply (forallb_false_elem _ _ (Item e g x)); [done|].
      simpl. by rewrite Hinv, Hre.
    + rewrite Hsub', Hk.
      * unfold sub, open_form. simpl. by rewrite lookup_insert_eq.
      * intros y Hy Hre' Heq.
        assert (y = x) as -> by (by eapply (NoDup_map_inj e_key)).
        congruence.
  - intros Hre. rewrite Hsub'. by apply Hw.
  - intros m Hm.
    apply highlight_sound in Hm as [Hm|(g' & y & Hy & Hinv' & ->)];
      [by apply elem_of_nil in Hm|].
    apply visits_item in Hy as (_ & Hg' & Hy).
    rewrite Hg in Hg'. injection Hg' as <-.
    exists y. split; [done|]. split; [done|].
    unfold invalid in Hinv'. by rewrite Hdt in Hinv'.
Qed.

(** C2, amended.  On a submission that passes validation (each data
    input form reporting its field), the request that is posted has in
    [inputs] exactly one entry per data-input-typed step, under the
    step's [order_index], and in [parameters] exactly one sub-map per
    step of whatever type, under the step's [step_id]; the sub-maps of
    the data-input-typed steps are empty. *)
Theorem request_has_entry_per_step f log this :
  initialize f = (log, Ret this) ->
  forall pg create,
    d (fst (validate this create)) = true ->
    (forall e g, Obj.get (steps this) e = Some g ->
                 data_input_type (step_type g) = true -> create e <> []) ->
    let rq := c (fst (validate this create)) in
    (is_Some (history_form this) ->
       snd (_execute pg this create) = Ret tt
       /\ forall y, y ∈ fst (_execute pg this create) ->
                    is_Post y = true -> y = Post (url pg this) rq)
    /\ (is_Some (history_form this) ->
          Post (url pg this) rq ∈ fst (_execute pg this create))
    /\ (forall j, is_Some (rq_inputs rq !! j)
                  <-> exists e g, Obj.get (steps this) e = Some g
                                  /\ data_input_type (step_type g) = true
                                  /\ order_index g = j)
    /\ (forall h, is_Some (rq_parameters rq !! h)
                  <-> exists g, Obj.get (steps this) h = Some g
                                /\ step_id g = h)
    /\ (forall e g, Obj.get (steps this) e = Some g ->
                    data_input_type (step_type g) = true ->
                    rq_parameters rq !! e = Some ∅).
Proof.
  intros Hi pg create Hd Hfield.
  pose proof (initialize_view _ _ _ Hi) as Hok.
  rewrite (validate_swept _ _ Hok) in *. simpl in *.
  set (vs := visits (steps this) create (forms this)) in *.
  rewrite d_swept in Hd. simpl in Hd. rewrite forallb_forall in Hd.
  split; [|split; [|split; [|split]]].
  - intros [hf Hh]. rewrite (_execute_some pg _ create _ Hok Hh). simpl.
    fold vs. split; [done|].
    intros y [Hy|Hy]%elem_of_app.
    + apply calls_kinds in Hy as [Hy|[[e ->]|(e & m & ->)]];
        [by apply elem_of_nil in Hy | done | done].
    + apply elem_of_cons in Hy as [->|Hy]; [by destruct (d (swept start vs))|].
      apply elem_of_cons in Hy as [->|Hy]; [by destruct (d (swept start vs))|].
      apply elem_of_app in Hy as [Hy|Hy].
      * apply list_elem_of_In, in_map_iff in Hy as (e & <- & _).
        by destruct (d (swept start vs)).
      * destruct (d (swept start vs)); [|by apply elem_of_nil in Hy].
        by apply list_elem_of_singleton in Hy as ->.
  - intros [hf Hh]. rewrite (_execute_some pg _ create _ Hok Hh). simpl.
    fold vs. rewrite d_swept. simpl.
    assert (forallb (fun v => negb (flagged v)) vs = true) as ->
      by (by apply forallb_forall).
    apply elem_of_app. right. do 2 right. apply elem_of_app. right. left.
  - intros j. rewrite inputs_swept. simpl. rewrite lookup_empty. split.
    + intros [[? ?]|(e & g & x & Hin & Hdt & _ & Hj)]; [done|].
      apply visits_item in Hin as (_ & Hg & _). by exists e, g.
    + intros (e & g & Hg & Hdt & Hj). right.
      destruct (create e) as [|x items] eqn:Hc; [by destruct (Hfield e g)|].
      destruct (view_step_form _ _ _ Hok Hg) as [_ He].
      assert (Item e g x ∈ vs) as Hin.
      { apply visits_item. split; [done|]. split; [done|]. rewrite Hc. left. }
      exists e, g, x. split; [done|]. split; [done|]. split; [|done].
      apply list_elem_of_In, Hd in Hin. simpl in Hin.
      unfold invalid in Hin. rewrite Hdt in Hin.
      by destruct (selected (e_value x)).
  - intros h. split.
    + intros [Hs|(v & Hv & Hid)]%parameters_swept_dom.
      * simpl in Hs. rewrite lookup_empty in Hs. by destruct Hs.
      * pose proof (view_visit_id this create v Hok Hv) as Hk.
        apply visits_steps in Hv as [_ Hg].
        exists (step_of v). split; [|done]. by rewrite <- Hid, Hk.
    + intros (g & Hg & Hid).
      destruct (view_form_block this create h g Hok Hg) as (A & B & _ & Hb).
      unfold vs. rewrite Hb.
      pose proof (parameters_swept_keep (open_form h g (swept start A))
                    (List.map (Item h g) (create h)) h) as Hkeep.
      rewrite swept_items in Hkeep.
      apply Hkeep. simpl. rewrite Hid, lookup_insert_eq. by eexists.
  - intros e g Hg Hdt.
    destruct (view_form_block this create e g Hok Hg) as (A & B & _ & Hb).
    unfold vs. rewrite Hb.
    rewrite data_items_parameters by done. simpl.
    destruct (view_step_form _ _ _ Hok Hg) as [-> _].
    by rewrite lookup_insert_eq.
Qed.

(** C4, amended.  If the form of a data-input-typed step reports an item
    without a selected value, the submission is rejected: [d] is cleared
    and nothing is posted.  The item is highlighted when the execute
    handler returns, provided no item (of a data input or of a tool)
    failed validation before it in the loop. *)
Theorem unselected_data_input_rejects f log this :
  initialize f = (log, Ret this) ->
  forall pg create pre post e g x,
    visits (steps this) create (forms this) = pre ++ Item e g x :: post ->
    data_input_type (step_type g) = true ->
    selected (e_value x) = false ->
    d (fst (validate this create)) = false
    /\ (forall y, y ∈ fst (_execute pg this create) -> is_Post y = false)
    /\ (forallb (fun v => negb (flagged v)) pre = true ->
        forall u, (e, in_id (e_input x))
                  ∈ highlighted (run u (fst (_execute pg this create)))).
Proof.
  intros Hi pg create pre post e g x Hv Hdt Hsel.
  pose proof (initialize_view _ _ _ Hi) as Hok.
  rewrite (validate_swept _ _ Hok). simpl.
  set (vs := visits (steps this) create (forms this)) in *.
  assert (invalid g x = true) as Hinv
    by (unfold invalid; by rewrite Hdt, Hsel).
  assert (d (swept start vs) = false) as Hd.
  { rewrite d_swept. simpl.
    apply (forallb_false_elem _ _ (Item e g x)).
    - rewrite Hv. apply elem_of_app. right. left.
    - simpl. by rewrite Hinv. }
  assert (forall y, y ∈ calls (swept start vs) -> is_Post y = false) as Hcalls.
  { intros y Hy.
    apply calls_kinds in Hy as [Hy|[[e' ->]|(e' & m & ->)]];
      [by apply elem_of_nil in Hy | done | done]. }
  split; [done|]. split.
  - destruct (history_form this) as [hf|] eqn:Hh.
    + rewrite (_execute_some pg _ create _ Hok Hh). simpl. fold vs.
      rewrite Hd. simpl.
      intros y [Hy|Hy]%elem_of_app; [by apply Hcalls|].
      apply elem_of_cons in Hy as [->|Hy]; [done|].
      apply elem_of_cons in Hy as [->|Hy]; [done|].
      rewrite app_nil_r in Hy.
      by apply list_elem_of_In, in_map_iff in Hy as (e' & <- & _).
    + rewrite (_execute_none pg _ create Hok Hh). simpl. fold vs.
      rewrite Hd.
      intros y [Hy| ->%list_elem_of_singleton]%elem_of_app;
        [by apply Hcalls | done].
  - intros Hpre u.
    assert (highlighted (run u (fst (_execute pg this create)))
            = highlighted (run u (calls (swept start vs)))) as ->.
    { destruct (history_form this) as [hf|] eqn:Hh.
      - rewrite (_execute_some pg _ create _ Hok Hh). simpl. fold vs.
        rewrite Hd, run_app. apply run_keeps_highlighted.
        intros y Hy. simpl in Hy.
        apply elem_of_cons in Hy as [->|Hy]; [done|].
        apply elem_of_cons in Hy as [->|Hy]; [done|].
        rewrite app_nil_r in Hy.
        by apply list_elem_of_In, in_map_iff in Hy as (e' & <- & _).
      - rewrite (_execute_none pg _ create Hok Hh). simpl. fold vs.
        rewrite Hd, run_app. apply run_keeps_highlighted.
        by intros y ->%list_elem_of_singleton. }
    apply (highlights_persist u vs) with (Q := []).
    + apply tidy_visits; [by apply view_keys_NoDup|].
      by intros e' _ ?%elem_of_nil.
    + by rewrite app_nil_r.
    + rewrite Hv.
      apply highlight_complete; [done|]. left.
      rewrite d_swept. simpl. exact Hpre.
Qed.

End Validator.

Lemma paint_view_built :
  initialize (U:=text_utils) (paint_workflow "${color}" JS.VUndefined)
  = (fst (initialize (U:=text_utils)
            (paint_workflow "${color}" JS.VUndefined)), Ret paint_view).
Proof. vm_compute. reflexivity. Qed.

Lemma late_input_view_built :
  initialize (U:=text_utils) late_input_workflow
  = (fst (initialize (U:=text_utils) late_input_workflow),
     Ret late_input_view).
Proof. vm_compute. reflexivity. Qed.

Lemma tool_values_are_classified_witness :
  sub (fst (validate paint_view (paint_data a_dataset (JS.VStr "red")))) 1
  !! "tint"
  = Some (JS.VStr "red").
Proof.
  destruct (tool_values_are_classified (U:=text_utils) _ _ _ paint_view_built
              (paint_data a_dataset (JS.VStr "red")) 1%N
              (fst (prepare_step 1 (paint_step "${color}")))
              (Entry "tint" (plain_input "tint" "text" (JS.VStr "${color}"))
                     (JS.VStr "red")))
    as (_ & Hw & _).
  - vm_compute. reflexivity.
  - reflexivity.
  - left.
  - vm_compute. repeat constructor; rewrite ?elem_of_cons, ?elem_of_nil;
      intuition discriminate.
  - apply Hw. reflexivity.
Defined.

Example required_empty_is_flagged :
  let s := fst (validate paint_view (paint_data a_dataset JS.VNull)) in
  calls s = [FormReset 0; FormReset 1; FormHighlight 1 "tint"]
  /\ d s = false
  /\ map_to_list (sub s 1) = [("title", JS.VStr "sunset")].
Proof. vm_compute. repeat split; reflexivity. Qed.

Example empty_text_is_written :
  sub (fst (validate paint_view (paint_data a_dataset (JS.VStr "")))) 1
  !! "tint"
  = Some (JS.VStr "").
Proof. vm_compute. reflexivity. Qed.

Lemma sectioned_view_built :
  initialize (U:=text_utils) sectioned_workflow
  = (fst (initialize (U:=text_utils) sectioned_workflow),
     Ret (built (U:=text_utils) sectioned_workflow)).
Proof. vm_compute. reflexivity. Qed.

(** C5 as stated does not hold: a required field that holds the empty
    text passes and its value is posted, and a value is written under the
    key of the form data, which for an input of a section is not the id
    of the input. *)
Lemma values_classified_by_input_id_fails :
  ~ values_classified_by_input_id (U:=text_utils)
      (paint_workflow "${color}" JS.VUndefined)
      (paint_data a_dataset (JS.VStr ""))
  /\ ~ values_classified_by_input_id (U:=text_utils) sectioned_workflow
         (sectioned_data (JS.VStr "red")).
Proof.
  split; intros Hc.
  - specialize (Hc _ _ paint_view_built 1%N
                   (fst (prepare_step 1 (paint_step "${color}")))
                   (Entry "tint"
                      (plain_input "tint" "text" (JS.VStr "${color}"))
                      (JS.VStr ""))
                   ltac:(vm_compute; reflexivity) eq_refl
                   ltac:(left)
                   ltac:(apply (bool_decide_unpack _); vm_compute; exact I)).
    destruct Hc as [Hc _]. destruct (Hc eq_refl) as [_ Hd].
    vm_compute in Hd. discriminate.
  - specialize (Hc _ _ sectioned_view_built 1%N
                   (fst (prepare_step 0 sectioned_step))
                   (Entry "options|tint"
                      (set_collapsible
                         (plain_input "tint" "text" (JS.VStr "crimson")))
                      (JS.VStr "red"))
                   ltac:(vm_compute; reflexivity) eq_refl
                   ltac:(left)
                   ltac:(apply (bool_decide_unpack _); vm_compute; exact I)).
    destruct Hc as [_ Hc]. specialize (Hc eq_refl).
    vm_compute in Hc. discriminate.
Qed.

Example blank_text_is_posted :
  let create := paint_data a_dataset (JS.VStr "") in
  let s := fst (validate paint_view create) in
  calls s = [FormReset 0; FormReset 1]
  /\ d s = true
  /\ Post (url a_page paint_view) (c s)
     ∈ fst (_execute a_page paint_view create).
Proof.
  split; [by vm_compute|]. split; [by vm_compute|].
  apply list_elem_of_In. vm_compute. tauto.
Qed.

Example sectioned_data_follow_the_form :
  List.map e_input (sectioned_data (JS.VStr "red") 1)
  = List.filter (fun a => String.eqb (in_id a) "tint")
      (List.flat_map (fun cg => all_inputs (inputs (snd cg)))
                     (steps (built (U:=text_utils) sectioned_workflow))).
Proof. vm_compute. reflexivity. Qed.

Example value_is_written_under_its_key :
  let s := fst (validate (built (U:=text_utils) sectioned_workflow)
                         (sectioned_data (JS.VStr "red"))) in
  sub s 1 !! "options|tint" = Some (JS.VStr "red")
  /\ sub s 1 !! "tint" = None.
Proof. vm_compute. split; reflexivity. Qed.

Lemma request_has_entry_per_step_witness :
  Post (url a_page paint_view)
       (c (fst (validate paint_view (paint_data a_dataset (JS.VStr "red")))))
  ∈ fst (_execute a_page paint_view (paint_data a_dataset (JS.VStr "red"))).
Proof.
  destruct (request_has_entry_per_step (U:=text_utils) _ _ _ paint_view_built
              a_page (paint_data a_dataset (JS.VStr "red")))
    as (_ & Hpost & _).
  - vm_compute. reflexivity.
  - intros e g Hg _.
    assert (e ∈ [0%N; 1%N]) as He.
    { change [0%N; 1%N] with (Obj.keys (steps paint_view)).
      apply Obj_get_keys. by eexists. }
    apply elem_of_cons in He as [->|He]; [done|].
    apply list_elem_of_singleton in He as ->. done.
  - apply Hpost. by eexists.
Defined.

Example posted_request :
  let rq := c (fst (validate paint_view
                      (paint_data a_dataset (JS.VStr "red")))) in
  map_to_list (rq_inputs rq)
  = [(0%N, JS.VObj [("id", JS.VStr "bbd44e69cb8906b5");
                    ("src", JS.VStr "hda")])]
  /\ rq_parameters rq !! 0%N = Some ∅
  /\ (map_to_list <$> rq_parameters rq !! 1%N)
     = Some [("tint", JS.VStr "red"); ("title", JS.VStr "sunset")].
Proof. vm_compute. repeat split; reflexivity. Qed.

(** C2 as stated does not hold: [c.parameters[h] = {}] is done for the
    form of every step, so the data input gets a sub-map too. *)
Lemma sub_maps_for_tools_only_fails :
  ~ sub_maps_for_tools_only (U:=text_utils)
      (paint_workflow "${color}" JS.VUndefined)
      (paint_data a_dataset (JS.VStr "red")).
Proof.
  intros Hc.
  specialize (Hc _ _ paint_view_built ltac:(vm_compute; reflexivity) 0%N).
  destruct Hc as [Hc _].
  destruct Hc as (g & Hg & Ht).
  - vm_compute. by eexists.
  - vm_compute in Hg. injection Hg as <-. discriminate Ht.
Qed.

Lemma unselected_data_input_rejects_witness :
  (0%N, "input")
  ∈ highlighted
      (run fresh
           (fst (_execute a_page paint_view
                          (paint_data JS.VNull (JS.VStr "red"))))).
Proof.
  destruct (unselected_data_input_rejects (U:=text_utils) _ _ _
              paint_view_built a_page (paint_data JS.VNull (JS.VStr "red"))
              [Open 0 (fst (prepare_step 0 dataset_step))]
              (skipn 2 (visits (steps paint_view)
                               (paint_data JS.VNull (JS.VStr "red"))
                               (forms paint_view)))
              0%N (fst (prepare_step 0 dataset_step))
              (Entry "input" (plain_input "input" "data" JS.VNull) JS.VNull))
    as (_ & _ & Hh).
  - vm_compute. reflexivity.
  - reflexivity.
  - reflexivity.
  - apply Hh. reflexivity.
Defined.

(** C4 as stated does not hold: a data input is highlighted only while
    [d] is still set, and a required field of a tool visited earlier has
    cleared it. *)
Lemma first_unselected_highlighted_fails :
  ~ first_unselected_highlighted (U:=text_utils) late_input_workflow a_page
      late_input_data.
Proof.
  intros Hc.
  specialize (Hc _ _ late_input_view_built
                 (firstn 3 (visits (steps late_input_view) late_input_data
                                   (forms late_input_view)))
                 [] 2%N
                 (fst (prepare_step 1
                         (Step 2 "data_input" 0 "Mask" JS.VUndefined
                               JS.VUndefined false
                               [plain_input "input" "data" JS.VNull] ∅ [])))
                 (Entry "input" (plain_input "input" "data" JS.VNull)
                        JS.VNull)
                 ltac:(vm_compute; reflexivity) eq_refl
                 ltac:(vm_compute; reflexivity) fresh).
  apply list_elem_of_In in Hc. vm_compute in Hc.
  destruct Hc as [[=]|[]].
Qed.

Example sample_data_follow_the_forms :
  List.map e_input (late_input_data 1 ++ late_input_data 2)
  = List.flat_map (fun cg => inputs (snd cg)) (steps late_input_view)
  /\ List.map e_input (paint_data a_dataset (JS.VStr "red") 0
                       ++ paint_data a_dataset (JS.VStr "red") 1)
     = List.flat_map (fun cg => inputs (snd cg)) (steps paint_view).
Proof. vm_compute. split; reflexivity. Qed.

Example late_input_highlights :
  highlighted (run fresh (fst (_execute a_page late_input_view
                                        late_input_data)))
  = [(1%N, "level")].
Proof. vm_compute. reflexivity. Qed.

(** ** The state of the toolkit *)

Lemma run_inert u l :
  (forall y, y ∈ l -> inert y = true) ->
  disabled (run u l) = disabled u /\ in_flight (run u l) = in_flight u.
Proof.
  revert u. induction l as [|y l IH]; simpl; intros u Hl; [done|].
  destruct (IH (apply u y)) as [-> ->].
  { intros y' Hy'. apply Hl. by right. }
  specialize (Hl y (list_elem_of_here _ _)). by destruct y.
Qed.

Lemma run_cons u y l : run u (y :: l) = run (apply u y) l.
Proof. reflexivity. Qed.

Lemma run_portlets keys : forall u,
  waiting (run u (List.map PortletEnable keys)) = waiting u
  /\ history_disabled (run u (List.map PortletEnable keys))
     = history_disabled u
  /\ forall e, e ∈ disabled (run u (List.map PortletEnable keys))
               <-> e ∈ disabled u /\ e ∉ keys.
Proof.
  induction keys as [|k keys IH]; intros u.
  - split; [done|]. split; [done|]. intros e. simpl.
    rewrite elem_of_nil. tauto.
  - change (List.map PortletEnable (k :: keys))
      with (PortletEnable k :: List.map PortletEnable keys).
    rewrite run_cons.
    destruct (IH (apply u (PortletEnable k))) as (-> & -> & Hk).
    split; [done|]. split; [done|].
    intros e. rewrite Hk. simpl.
    rewrite elem_of_difference, elem_of_singleton, not_elem_of_cons. tauto.
Qed.

(** Once [_enabled(true)] has run to its end, everything is enabled. *)
Lemma run_enabling u keys :
  waiting (run u (enabling true keys)) = false
  /\ history_disabled (run u (enabling true keys)) = false
  /\ forall e, e ∈ keys -> e ∉ disabled (run u (enabling true keys)).
Proof.
  unfold enabling.
  change ([ButtonUnwait; HistoryEnable]
          ++ List.map (fun e => PortletEnable e) keys)
    with (ButtonUnwait :: HistoryEnable :: List.map PortletEnable keys).
  rewrite !run_cons.
  destruct (run_portlets keys (apply (apply u ButtonUnwait) HistoryEnable))
    as (-> & -> & Hk).
  split; [done|]. split; [done|].
  intros e He [_ Hne]%Hk. done.
Qed.

Section Executor.

Context {U : Utils}.

Lemma calls_inert s vs y :
  (forall y, y ∈ calls s -> inert y = true) ->
  y ∈ calls (swept s vs) -> inert y = true.
Proof.
  intros Hs [Hy|[[e ->]|(e & m & ->)]]%calls_kinds; [by apply Hs | done | done].
Qed.

Lemma onchange_inert this data y : y ∈ onchange this data -> inert y = true.
Proof.
  unfold onchange. rewrite list_elem_of_In, in_flat_map.
  intros ([l v] & _ & Hy). by apply in_map_iff in Hy as (fld & <- & _).
Qed.

(** Without the history form nothing is ever posted and no portlet is
    ever disabled. *)
Lemma reachable_without_history pg this u :
  view_ok this -> history_form this = None ->
  reachable pg this u -> disabled u = ∅ /\ in_flight u = 0%nat.
Proof.
  intros Hok Hh. induction 1 as [|u create _ [Hd Hf]|u data _ [Hd Hf]
                                 |u a _ [Hd Hf] Hpos|u a _ [Hd Hf] Hpos].
  - done.
  - rewrite (_execute_none pg _ create Hok Hh). simpl.
    destruct (run_inert u
                (calls (swept start (visits (steps this) create (forms this)))
                 ++ [if d (swept start (visits (steps this) create
                                          (forms this)))
                     then ButtonWait else ButtonUnwait])) as [-> ->]; [|done].
    intros y [Hy| ->%list_elem_of_singleton]%elem_of_app.
    + eapply calls_inert; [|exact Hy]. by intros ? ?%elem_of_nil.
    + by destruct (d _).
  - destruct (run_inert u (onchange this data)) as [-> ->]; [|done].
    intros y. apply onchange_inert.
  - lia.
  - lia.
Qed.

Lemma on_failure_Ret pg this a :
  snd (error pg a) = Ret tt ->
  on_failure pg this a = fst (error pg a) ++ fst (complete this).
Proof.
  intros Hr. unfold on_failure.
  by rewrite (bind_Ret (error pg a) _ (fst (error pg a)) tt)
    by (rewrite <- Hr; by destruct (error pg a)).
Qed.

Lemma on_failure_Throw pg this a x :
  snd (error pg a) = Throw x -> on_failure pg this a = fst (error pg a).
Proof.
  intros Hr. unfold on_failure.
  by rewrite (bind_Throw (error pg a) _ (fst (error pg a)) x)
    by (rewrite <- Hr; by destruct (error pg a)).
Qed.

Lemma on_failure_elem pg this a y :
  y ∈ on_failure pg this a ->
  y ∈ fst (error pg a) \/ y ∈ fst (complete this).
Proof.
  destruct (error pg a) as [w [[]|x]] eqn:He.
  - rewrite on_failure_Ret by (by rewrite He). rewrite He.
    by intros ?%elem_of_app.
  - rewrite (on_failure_Throw _ _ _ x) by (by rewrite He). rewrite He.
    by left.
Qed.

(** [error] throws before it has done anything, and only for want of a
    binding of [form] or of [ToolTemplate]. *)
Lemma error_Throw pg a x :
  snd (error pg a) = Throw x -> error pg a = ([], Throw ReferenceError).
Proof.
  unfold error.
  repeat match goal with
         | |- context [if ?b then _ else _] => destruct b
         | |- context [match ?o with _ => _ end] => destruct o
         end; simpl; done.
Qed.

Lemma run_portlets_disable keys : forall u,
  waiting (run u (List.map PortletDisable keys)) = waiting u
  /\ history_disabled (run u (List.map PortletDisable keys))
     = history_disabled u
  /\ forall e, e ∈ disabled (run u (List.map PortletDisable keys))
               <-> e ∈ disabled u \/ e ∈ keys.
Proof.
  induction keys as [|k keys IH]; intros u.
  - split; [done|]. split; [done|]. intros e. simpl.
    rewrite elem_of_nil. tauto.
  - change (List.map PortletDisable (k :: keys))
      with (PortletDisable k :: List.map PortletDisable keys).
    rewrite run_cons.
    destruct (IH (apply u (PortletDisable k))) as (-> & -> & Hk).
    split; [done|]. split; [done|].
    intros e. rewrite Hk. simpl.
    rewrite elem_of_union, elem_of_singleton, elem_of_cons. tauto.
Qed.

(** Once [_enabled(false)] has run to its end, everything is disabled. *)
Lemma run_disabling u keys :
  waiting (run u (enabling false keys)) = true
  /\ history_disabled (run u (enabling false keys)) = true
  /\ forall e, e ∈ keys -> e ∈ disabled (run u (enabling false keys)).
Proof.
  unfold enabling.
  change ([ButtonWait; HistoryDisable]
          ++ List.map (fun e => PortletDisable e) keys)
    with (ButtonWait :: HistoryDisable :: List.map PortletDisable keys).
  rewrite !run_cons.
  destruct (run_portlets_disable keys (apply (apply u ButtonWait) HistoryDisable))
    as (-> & -> & Hk).
  split; [done|]. split; [done|].
  intros e He. apply Hk. by right.
Qed.

(** C9. A submission attempt that local validation rejects leaves the
    execute control released, the history form (when there is one) and
    the form of every step enabled, from every state the form can be in;
    so does a request that comes back with a backend or transport error
    when the [error] callback returns.  When the callback throws -- it
    reads [form], or [ToolTemplate] and [options], none of which the
    module binds -- [complete] is not reached: the response changes
    nothing, and after the accepted attempt that posted the request the
    execute control keeps waiting, the history form and the form of every
    step stay disabled. *)
Theorem throwing_error_callback_leaves_ui_disabled f log this :
  initialize f = (log, Ret this) ->
  forall pg u, reachable pg this u ->
    (forall create,
        d (fst (validate this create)) = false ->
        re_enabled this (run u (fst (_execute pg this create))))
    /\ (forall a,
          (0 < in_flight u)%nat -> snd (error pg a) = Ret tt ->
          re_enabled this (run (land u) (on_failure pg this a)))
    /\ (forall a create,
          snd (error pg a) = Throw ReferenceError ->
          d (fst (validate this create)) = true ->
          is_Some (history_form this) ->
          let u' := run (land (run u (fst (_execute pg this create))))
                        (on_failure pg this a) in
          on_failure pg this a = []
          /\ waiting u' = true
          /\ history_disabled u' = true
          /\ (forall e, e ∈ Obj.keys (forms this) -> e ∈ disabled u')
          /\ ~ re_enabled this u').
Proof.
  intros Hi pg u Hu.
  pose proof (initialize_view _ _ _ Hi) as Hok.
  pose proof Hok as (_ & Hnn & _).
  destruct (history_form this) as [hf|] eqn:Hh.
  - split; [|split].
    + intros create Hd. rewrite (validate_swept _ _ Hok) in Hd. simpl in Hd.
      rewrite (_execute_some pg _ create _ Hok Hh). simpl.
      rewrite Hd. simpl. rewrite app_nil_r, run_app.
      destruct (run_enabling
                  (run u (calls (swept start (visits (steps this) create
                                                (forms this)))))
                  (Obj.keys (forms this))) as (Hw & Hhd & Hk).
      unfold re_enabled. rewrite Hh. by repeat split.
    + intros a _ Hr. rewrite (on_failure_Ret _ _ _ Hr). unfold complete.
      rewrite (_enabled_some _ true _ Hh Hnn). simpl. rewrite run_app.
      destruct (run_enabling (run (land u) (fst (error pg a)))
                  (Obj.keys (forms this))) as (Hw & Hhd & Hk).
      unfold re_enabled. rewrite Hh. by repeat split.
    + intros a create Hx Hd _ u'.
      assert (on_failure pg this a = []) as Hnil.
      { rewrite (on_failure_Throw _ _ _ _ Hx).
        by rewrite (error_Throw _ _ _ Hx). }
      subst u'. rewrite Hnil. cbn [run fold_left].
      rewrite (validate_swept _ _ Hok) in Hd. simpl in Hd.
      rewrite (_execute_some pg _ create _ Hok Hh). cbn [fst].
      rewrite Hd. cbn [negb]. rewrite app_assoc, run_snoc, run_app.
      destruct (run_disabling
                  (run u (calls (swept start (visits (steps this) create
                                                (forms this)))))
                  (Obj.keys (forms this))) as (Hw & Hhd & Hk).
      unfold re_enabled.
      cbn [land apply waiting history_disabled disabled].
      rewrite Hw, Hhd.
      split; [done|]. split; [done|]. split; [done|]. split; [done|].
      by intros (? & _).
  - destruct (reachable_without_history pg this u Hok Hh Hu) as [Hdis Hfl].
    split; [|split; [intros a; lia | by intros a create _ _ [? ?]]].
    intros create Hd. rewrite (validate_swept _ _ Hok) in Hd. simpl in Hd.
    rewrite (_execute_none pg _ create Hok Hh). simpl. rewrite Hd.
    destruct (run_inert u
                (calls (swept start (visits (steps this) create (forms this)))
                 ++ [ButtonUnwait])) as [Hd' _].
    { intros y [Hy| ->%list_elem_of_singleton]%elem_of_app; [|done].
      eapply calls_inert; [|exact Hy]. by intros ? ?%elem_of_nil. }
    unfold re_enabled. rewrite Hh, Hd', Hdis, run_snoc.
    split; [done|]. split; [by intros [? ?]|]. set_solver.
Qed.

(** C10. For a workflow descriptor with a pre-selected [history_id] the
    history form stays [null]; [_enabled] reads the portlet of the
    history form whichever way it is called, so it raises a TypeError,
    and so does every execute attempt: nothing is posted and no portlet
    is disabled or enabled. *)
Theorem preselected_history_breaks_execute f log this :
  initialize f = (log, Ret this) ->
  JS.truthy (wf_history_id f) = true ->
  history_form this = None
  /\ (forall a, snd (_enabled this a) = Throw TypeError)
  /\ forall pg create,
       snd (_execute pg this create) = Throw TypeError
       /\ forall y, y ∈ fst (_execute pg this create) ->
                    is_Post y = false /\ is_portlet y = false.
Proof.
  intros Hi Hid.
  pose proof (initialize_view _ _ _ Hi) as Hok.
  destruct (initialize_inv _ _ _ Hi) as (_ & _ & _ & Hh & _).
  rewrite Hid in Hh.
  split; [done|]. split.
  - intros a. by rewrite (_enabled_none _ a Hh).
  - intros pg create. rewrite (_execute_none pg _ create Hok Hh). simpl.
    split; [done|].
    intros y [Hy| ->%list_elem_of_singleton]%elem_of_app.
    + apply calls_kinds in Hy as [Hy|[[e ->]|(e & m & ->)]];
        [by apply elem_of_nil in Hy | done | done].
    + by destruct (d _).
Qed.

End Executor.

Lemma throwing_error_callback_leaves_ui_disabled_witness :
  re_enabled paint_view
    (run fresh (fst (_execute a_page paint_view
                              (paint_data JS.VNull (JS.VStr "red")))))
  /\ (let u' :=
        run (land (run fresh
                       (fst (_execute a_page paint_view
                                      (paint_data a_dataset (JS.VStr "red"))))))
            (on_failure a_page paint_view field_error) in
      on_failure a_page paint_view field_error = []
      /\ waiting u' = true
      /\ history_disabled u' = true
      /\ (forall e, e ∈ Obj.keys (forms paint_view) -> e ∈ disabled u')
      /\ ~ re_enabled paint_view u').
Proof.
  split.
  - refine (proj1 (throwing_error_callback_leaves_ui_disabled
                     (U:=text_utils) _ _ _ paint_view_built a_page fresh _)
              _ _).
    + apply reach_fresh.
    + vm_compute. reflexivity.
  - refine (proj2 (proj2 (throwing_error_callback_leaves_ui_disabled
                            (U:=text_utils) _ _ _ paint_view_built a_page
                            fresh _))
              field_error (paint_data a_dataset (JS.VStr "red")) _ _ _).
    + apply reach_fresh.
    + reflexivity.
    + vm_compute. reflexivity.
    + vm_compute. by eexists.
Defined.

(** The same response after the same attempt, computed: the two step
    forms of the sample stay disabled. *)
Example field_error_leaves_paint_disabled :
  let u' :=
    run (land (run fresh
                   (fst (_execute a_page paint_view
                                  (paint_data a_dataset (JS.VStr "red"))))))
        (on_failure a_page paint_view field_error) in
  (waiting u', history_disabled u', elements (disabled u'), in_flight u')
  = (true, true, [1%N; 0%N], 0%nat).
Proof. vm_compute. reflexivity. Qed.

Lemma preselected_history_view_built :
  initialize (U:=text_utils)
    (paint_workflow "${color}" (JS.VStr "1cd8e2f6b131e891"))
  = (fst (initialize (U:=text_utils)
            (paint_workflow "${color}" (JS.VStr "1cd8e2f6b131e891"))),
     Ret (built (U:=text_utils)
            (paint_workflow "${color}" (JS.VStr "1cd8e2f6b131e891")))).
Proof. vm_compute. reflexivity. Qed.

Lemma preselected_history_breaks_execute_witness :
  _execute a_page
    (built (U:=text_utils)
       (paint_workflow "${color}" (JS.VStr "1cd8e2f6b131e891")))
    (paint_data a_dataset (JS.VStr "red"))
  = ([FormReset 0; FormReset 1; ButtonWait], Throw TypeError)
  /\ snd (_execute a_page
            (built (U:=text_utils)
               (paint_workflow "${color}" (JS.VStr "1cd8e2f6b131e891")))
            (paint_data JS.VNull (JS.VStr "red")))
     = Throw TypeError.
Proof.
  destruct (preselected_history_breaks_execute (U:=text_utils) _ _ _
              preselected_history_view_built eq_refl) as (_ & _ & Hx).
  split.
  - vm_compute. reflexivity.
  - apply Hx.
Defined.

(** ** The error callback *)

(** With field detail in the response, [error] reads [form], which the
    module binds nowhere: unless the page happens to define a global of
    that name, the callback ends in a ReferenceError before any field is
    mapped or highlighted. *)
Lemma error_reads_unbound_form pg a :
  global_form pg = None ->
  JS.truthy a = true -> JS.truthy (JS.get a "err_data") = true ->
  error pg a = ([], Throw ReferenceError).
Proof. intros Hf Ha Hd. unfold error. by rewrite Ha, Hd, Hf. Qed.

(** Without field detail and without a message the body of the notice is
    [ToolTemplate.error(options.job_def)], unbound as well. *)
Lemma error_reads_unbound_template pg a :
  global_ToolTemplate_error pg = None -> Galaxy_modal pg = true ->
  JS.truthy a && JS.truthy (JS.get a "err_data") = false ->
  JS.truthy a && JS.truthy (JS.get a "err_msg") = false ->
  error pg a = ([], Throw ReferenceError).
Proof. intros Ht Hm Hd He. unfold error. by rewrite Hd, Hm, He, Ht. Qed.

(** C8 at a response that names an offending field: the callback throws,
    no field of any form is highlighted, and the response has no effect
    at all on the page. *)
Example error_with_field_detail_throws :
  error a_page field_error = ([], Throw ReferenceError)
  /\ error a_page bare_error = ([], Throw ReferenceError)
  /\ on_failure a_page paint_view field_error = [].
Proof. vm_compute. repeat split; reflexivity. Qed.

(** With a message and no field detail the notice is shown. *)
Example error_with_message_shows_notice :
  error a_page (JS.VObj [("err_msg", JS.VStr "Workflow cannot be run")])
  = ([ModalShow "Workflow cannot be run"], Ret tt).
Proof. reflexivity. Qed.

(** ** Names that every object inherits *)

Example inherited_name_stops_the_build :
  snd (initialize (U:=text_utils)
         (paint_workflow "${constructor}" JS.VUndefined))
  = Throw TypeError.
Proof. vm_compute. reflexivity. Qed.

(** * Further properties of the view *)

(** ** The registries, step by step *)

Lemma prepare_step_id f b : step_id (fst (prepare_step f b)) = step_id b.
Proof.
  unfold prepare_step. simpl.
  destruct (data_input_type (step_type b)); [done|].
  by destruct (String.eqb "tool" (step_type b)).
Qed.

Lemma prepare_step_display f b :
  step_name (fst (prepare_step f b))
  = "Step " +:+ pretty (f + 1)%nat +:+ ": " +:+ step_name b
  /\ collapsed (fst (prepare_step f b)) = (0 <? f)%nat
  /\ order_index (fst (prepare_step f b)) = order_index b
  /\ post_job_actions (fst (prepare_step f b)) = post_job_actions b.
Proof.
  unfold prepare_step. simpl.
  destruct (data_input_type (step_type b)); [done|].
  by destruct (String.eqb "tool" (step_type b)).
Qed.

Lemma last_with_elem e l : forall f n b,
  last_with e f l = Some (n, b) -> b ∈ l /\ step_id b = e.
Proof.
  induction l as [|b0 l IH]; simpl; intros f n b; [done|].
  destruct (last_with e (S f) l) as [[n' b']|] eqn:Hl.
  - intros [= -> ->]. destruct (IH _ _ _ Hl). split; [by right | done].
  - destruct (step_id b0 =? e)%N eqn:He; [|done].
    intros [= _ <-]. apply N.eqb_eq in He. split; [left | done].
Qed.

Lemma last_with_None e l : forall f,
  last_with e f l = None <-> forall b, b ∈ l -> step_id b <> e.
Proof.
  induction l as [|b0 l IH]; simpl; intros f.
  - split; [|done]. intros _ b Hb. by apply elem_of_nil in Hb.
  - destruct (last_with e (S f) l) as [[n' b']|] eqn:Hl.
    + split; [done|]. intros Hall.
      destruct (last_with_elem _ _ _ _ _ Hl) as [Hin He].
      destruct (Hall b'); [by right | done].
    + pose proof (proj1 (IH _) Hl) as Hl'. destruct (step_id b0 =? e)%N eqn:He.
      * apply N.eqb_eq in He. split; [done|]. intros Hall.
        destruct (Hall b0); [left | done].
      * apply N.eqb_neq in He. split; [|done].
        intros _ b [->|Hb]%elem_of_cons; [done | by apply Hl'].
Qed.

Lemma last_with_split l1 b l2 : forall f,
  (forall b', b' ∈ l2 -> step_id b' <> step_id b) ->
  last_with (step_id b) f (l1 ++ b :: l2) = Some ((f + length l1)%nat, b).
Proof.
  induction l1 as [|b0 l1 IH]; simpl; intros f Hl2.
  - apply (last_with_None _ _ (S f)) in Hl2. rewrite Hl2, N.eqb_refl.
    by rewrite Nat.add_0_r.
  - rewrite (IH (S f) Hl2). do 2 f_equal. lia.
Qed.

Lemma prepare_get l : forall f fs ss e,
  Obj.get (snd (prepare f l fs ss)) e
  = match last_with e f l with
    | Some (n, b) => Some (fst (prepare_step n b))
    | None => Obj.get ss e
    end.
Proof.
  induction l as [|b l IH]; simpl; intros f fs ss e; [done|].
  pose proof (prepare_step_id f b) as Hid.
  destruct (prepare_step f b) as [g a] eqn:Hp. simpl in Hid.
  rewrite IH. destruct (last_with e (S f) l) as [[n b']|]; [done|].
  rewrite Hid. destruct (step_id b =? e)%N eqn:He.
  - apply N.eqb_eq in He. subst e. by rewrite Obj_get_set_eq, Hp.
  - apply N.eqb_neq in He. by rewrite Obj_get_set_ne.
Qed.

Lemma Obj_keys_set_eq {V W} (o : Obj.t V) (o' : Obj.t W) k v w :
  Obj.keys o = Obj.keys o' ->
  Obj.keys (Obj.set o k v) = Obj.keys (Obj.set o' k w).
Proof.
  revert o'. induction o as [|[k1 v1] o IH]; intros [|[k2 v2] o']; simpl;
    try done.
  intros [= <- Hk].
  destruct (k =? k1)%N; simpl; [by rewrite Hk|].
  destruct (Obj.precedes k k1); simpl; [by rewrite Hk|].
  f_equal. by apply IH.
Qed.

(** The keys that are not array indices stay in the order in which they
    were put. *)
Lemma Obj_set_large {V} (o : Obj.t V) k v :
  List.filter large (Obj.keys (Obj.set o k v))
  = if Obj.is_index k then List.filter large (Obj.keys o)
    else if decide (k ∈ Obj.keys o) then List.filter large (Obj.keys o)
         else List.filter large (Obj.keys o) ++ [k].
Proof.
  unfold Obj.keys, large. induction o as [|[k0 v0] o IH].
  - simpl. by destruct (Obj.is_index k).
  - cbn [Obj.set]. destruct (N.eqb_spec k k0) as [->|Hne].
    + cbn [List.map List.filter fst].
      destruct (Obj.is_index k0) eqn:Hk; cbn [negb]; [done|].
      rewrite decide_True; [done | left].
    + destruct (Obj.precedes k k0) eqn:Hp.
      * unfold Obj.precedes in Hp. apply andb_true_iff in Hp as [Hk _].
        cbn [List.map List.filter fst]. by rewrite Hk.
      * cbn [List.map List.filter fst]. rewrite IH.
        destruct (Obj.is_index k) eqn:Hk; [done|].
        destruct (decide (k ∈ List.map fst o)) as [Hin|Hin].
        -- rewrite decide_True; [done | by right].
        -- rewrite decide_False; [by destruct (Obj.is_index k0)|].
           intros [?|?]%elem_of_cons; done.
Qed.

Lemma prepare_large l : forall f fs ss,
  List.filter large (Obj.keys (snd (prepare f l fs ss)))
  = fold_left (fun acc x => if decide (x ∈ acc) then acc else acc ++ [x])
              (List.filter large (List.map step_id l))
              (List.filter large (Obj.keys ss)).
Proof.
  induction l as [|b l IH]; intros f fs ss; [done|].
  cbn [prepare List.map List.filter].
  pose proof (prepare_step_id f b) as Hid.
  destruct (prepare_step f b) as [g a]. simpl in Hid.
  rewrite IH, Obj_set_large, Hid.
  assert (large (step_id b) = negb (Obj.is_index (step_id b))) as -> by done.
  destruct (Obj.is_index (step_id b)) eqn:Hk; cbn [negb fold_left]; [done|].
  assert (step_id b ∈ Obj.keys ss
          <-> step_id b ∈ List.filter large (Obj.keys ss)) as Hiff.
  { rewrite !list_elem_of_In, filter_In. unfold large. rewrite Hk. simpl.
    tauto. }
  destruct (decide (step_id b ∈ Obj.keys ss)) as [Hin|Hin].
  - rewrite decide_True; [done | by apply Hiff].
  - rewrite decide_False; [done | by rewrite <- Hiff].
Qed.

Lemma prepare_keys l : forall f fs ss,
  Obj.keys fs = Obj.keys ss ->
  Obj.keys (fst (prepare f l fs ss)) = Obj.keys (snd (prepare f l fs ss)).
Proof.
  induction l as [|b l IH]; simpl; intros f fs ss Hk; [done|].
  destruct (prepare_step f b) as [g a]. apply IH.
  by apply Obj_keys_set_eq.
Qed.

Section Registry.

Context {U : Utils}.

(** X1.  When two steps of the descriptor carry the same step id, the
    registries keep the later one: a step of the descriptor that no later
    step shares its id with is registered under its id, prepared, next to
    the form built from it.  Its title counts its position in the
    descriptor from one, and it starts collapsed unless it is the first
    step of the descriptor. *)
Theorem registry_keeps_last_step f log this :
  initialize f = (log, Ret this) ->
  forall l1 b l2,
    wf_steps f = l1 ++ b :: l2 ->
    (forall b', b' ∈ l2 -> step_id b' <> step_id b) ->
    let g := fst (prepare_step (length l1) b) in
    Obj.get (steps this) (step_id b) = Some g
    /\ Obj.get (forms this) (step_id b) = Some (form_of g)
    /\ is_Some (form_of g)
    /\ step_name g
       = "Step " +:+ pretty (length l1 + 1)%nat +:+ ": " +:+ step_name b
    /\ collapsed g = (0 <? length l1)%nat.
Proof.
  intros Hi l1 b l2 Hl Hl2 g.
  destruct (initialize_inv _ _ _ Hi) as (Hf & Hs & _ & _ & Hnn & _).
  destruct (initialize_view _ _ _ Hi) as ((_ & _ & Hget & _) & _).
  assert (Obj.get (steps this) (step_id b) = Some g) as Hg.
  { rewrite Hs, prepare_get, Hl, last_with_split by done. done. }
  destruct (Hget _ _ Hg) as [_ Hform].
  destruct (Hnn (step_id b) g) as [a Ha].
  { rewrite <- Hs. by apply Obj_get_elem. }
  rewrite <- Hf, Hform in Ha.
  destruct (prepare_step_display (length l1) b) as (Hn & Hc & _).
  repeat split; try done. injection Ha as ->. by eexists.
Qed.

Lemma registry_key_origin f log this e :
  initialize f = (log, Ret this) ->
  e ∈ Obj.keys (steps this) <-> exists b, b ∈ wf_steps f /\ step_id b = e.
Proof.
  intros Hi. destruct (initialize_inv _ _ _ Hi) as (_ & Hs & _).
  rewrite <- Obj_get_keys, Hs, prepare_get.
  destruct (last_with e 0 (wf_steps f)) as [[n b]|] eqn:Hl.
  - destruct (last_with_elem _ _ _ _ _ Hl). split; [|by eexists].
    intros _. by exists b.
  - simpl. split; [by intros [? ?]|]. intros (b & Hb & He).
    by destruct (proj1 (last_with_None _ _ _) Hl b Hb).
Qed.

(** With step ids that are all array indices, the registry enumerates
    them in ascending order. *)
Lemma registry_ascending f log this :
  initialize f = (log, Ret this) ->
  (forall b, b ∈ wf_steps f -> (step_id b < 4294967295)%N) ->
  StronglySorted N.lt (Obj.keys (steps this)).
Proof.
  intros Hi Hbound.
  destruct (initialize_view _ _ _ Hi) as ((_ & Hord & _) & _).
  apply Obj_ordered_ascending; [|done].
  apply Forall_forall. intros e (b & Hb & <-)%(registry_key_origin _ _ _ _ Hi).
  unfold Obj.is_index. apply N.ltb_lt. by apply Hbound.
Qed.

(** X2.  The two registries have the same keys: the step ids of the
    descriptor, each once.  They enumerate them as a JavaScript object
    does: the ids below 2^32 - 1 first, in ascending order whatever the
    order of the steps in the descriptor, then the other ids in the order
    in which the descriptor first has them.  So when every step id is
    below 2^32 - 1 the keys are in ascending order. *)
Theorem registry_keys_are_the_step_ids f log this :
  initialize f = (log, Ret this) ->
  Obj.keys (forms this) = Obj.keys (steps this)
  /\ (forall e, e ∈ Obj.keys (steps this)
                <-> exists b, b ∈ wf_steps f /\ step_id b = e)
  /\ StronglySorted (fun k k' => k <> k' /\ Obj.precedes k' k = false)
                    (Obj.keys (steps this))
  /\ List.filter large (Obj.keys (steps this))
     = first_met (List.filter large (List.map step_id (wf_steps f)))
  /\ ((forall b, b ∈ wf_steps f -> (step_id b < 4294967295)%N) ->
      StronglySorted N.lt (Obj.keys (steps this))).
Proof.
  intros Hi.
  destruct (initialize_inv _ _ _ Hi) as (Hf & Hs & _).
  destruct (initialize_view _ _ _ Hi) as ((_ & Hord & _) & _).
  split; [|split; [|split; [done|split]]].
  - rewrite Hf, Hs. by apply prepare_keys.
  - intros e. exact (registry_key_origin _ _ _ e Hi).
  - rewrite Hs. apply prepare_large.
  - exact (registry_ascending _ _ _ Hi).
Qed.

End Registry.

(** ** When [initialize] returns *)

Lemma each_Throw_inv {A S} (f : S -> A -> act S) l s w x :
  each f l s = (w, Throw x) ->
  exists s1 a w1, a ∈ l /\ f s1 a = (w1, Throw x).
Proof.
  revert s w. induction l as [|y l IH]; simpl; intros s w He; [done|].
  destruct (f s y) as [w1 [s1|x1]] eqn:Hy; unfold mbind, act_bind in He.
  - fold (@each A S) in He.
    destruct (each f l s1) as [w2 [s2|x2]] eqn:Hl; [done|].
    injection He as _ ->.
    destruct (IH _ _ Hl) as (s3 & a & w3 & Ha & Hf).
    exists s3, a, w3. split; [by right | done].
  - injection He as _ ->.
    exists s, y, w1. split; [left | done].
Qed.

Lemma form_of_Some g a :
  form_of g = Some a ->
  data_input_type (step_type g) = true \/ step_type g = "tool".
Proof.
  unfold form_of. destruct (data_input_type (step_type g)); [by left|].
  destruct (String.eqb "tool" (step_type g)) eqn:Ht; [|done].
  apply String.eqb_eq in Ht. by right.
Qed.

Section ReturnsOrThrows.

Context {U : Utils}.

Lemma bind_input_Throw forms c s b w x :
  bind_input forms c s b = (w, Throw x) -> x = TypeError.
Proof.
  unfold bind_input. destruct (dollar (in_value b)); [|done].
  destruct (Obj.get forms c) as [[a|]|]; [|by intros [= _ <-]..].
  destruct (inherited (label b)); [by intros [= _ <-]|].
  by destruct (parameters s !! label b).
Qed.

Lemma bind_steps_Throw forms steps w x :
  bind_steps forms steps = (w, Throw x) -> x = TypeError.
Proof.
  unfold bind_steps. intros He.
  apply each_Throw_inv in He as (s1 & [c g] & w1 & _ & He).
  apply each_Throw_inv in He as (s2 & b & w2 & _ & He).
  by eapply bind_input_Throw.
Qed.

(** X3.  [initialize] returns exactly when every step the registry keeps
    is a data input, a data collection input or a tool, and no placeholder
    among their inputs is named like a member every object inherits; in
    every other case it ends in a TypeError. *)
Theorem initialize_returns_or_throws f :
  let ss := snd (prepare 0 (wf_steps f) [] []) in
  ((exists log this, initialize f = (log, Ret this))
   <-> (forall c g, Obj.get ss c = Some g ->
          data_input_type (step_type g) = true \/ step_type g = "tool")
       /\ (forall c g b, Obj.get ss c = Some g -> b ∈ inputs g ->
             dollar (in_value b) = true -> inherited (label b) = false))
  /\ forall log x, initialize f = (log, Throw x) -> x = TypeError.
Proof.
  intros ss.
  pose proof (prepare_ok (wf_steps f) 0 [] [] registry_ok_empty)
    as (Hfs & Hss & Hget & _).
  fold ss in Hss, Hget.
  split; [split|].
  - intros (log & this & Hi).
    destruct (initialize_inv _ _ _ Hi) as (_ & _ & _ & _ & Hnn & Hown & _).
    fold ss in Hnn, Hown. split.
    + intros c g Hg. destruct (Hnn c g) as [a Ha]; [by apply Obj_get_elem|].
      destruct (Hget c g Hg) as [_ Hf]. rewrite Hf in Ha.
      injection Ha as Ha. by eapply form_of_Some.
    + intros c g b Hg. apply (Hown c g). by apply Obj_get_elem.
  - intros [Htypes Hown]. unfold initialize. subst ss.
    destruct (prepare 0 (wf_steps f) [] []) as [fs ss] eqn:Hp.
    cbn [fst snd] in *.
    assert (forall c g, (c, g) ∈ ss ->
                        exists a, Obj.get fs c = Some (Some a)) as Hnn.
    { intros c g Hin.
      apply Obj_elem_get in Hin; [|by apply Obj_ordered_NoDup].
      destruct (Hget c g Hin) as [_ Hf]. rewrite Hf.
      destruct (form_of_known g) as [a ->]; [by eapply Htypes | by exists a]. }
    destruct (bind_steps_record fs ss Hnn) as [w1 Hb].
    { intros c g b Hin. apply (Hown c g).
      apply Obj_elem_get; [by apply Obj_ordered_NoDup | done]. }
    destruct (each_fold
                (fun (_ : unit) '((b, _) : N * step) =>
                   match Obj.get fs b with
                   | Some (Some _) => mret tt
                   | _ => throw TypeError
                   end)
                (fun _ _ => tt) ss tt) as [w2 Hl].
    { intros [] [c g] Hin. destruct (Hnn c g Hin) as [a ->]. by exists []. }
    rewrite fold_left_tt in Hl.
    rewrite (bind_Ret _ _ _ _ Hb), tell_bind. simpl.
    rewrite (bind_Ret _ _ _ _ Hl). simpl. by do 2 eexists.
  - intros log x. unfold initialize. subst ss.
    destruct (prepare 0 (wf_steps f) [] []) as [fs ss].
    destruct (bind_steps fs ss) as [w1 [s|x1]] eqn:Hb.
    + rewrite (bind_Ret (w1, Ret s) _ w1 s eq_refl), tell_bind. cbn [fst snd].
      match goal with
      | |- context [each ?F ss tt] =>
          destruct (each F ss tt) as [w2 [[]|x2]] eqn:Hl
      end.
      * rewrite (bind_Ret (w2, Ret tt) _ w2 tt eq_refl). done.
      * rewrite (bind_Throw (w2, Throw x2) _ w2 x2 eq_refl). simpl.
        intros [= _ <-].
        apply each_Throw_inv in Hl as ([] & [c g] & w3 & _ & Hl).
        simpl in Hl.
        destruct (Obj.get fs c) as [[a|]|]; [done|by injection Hl..].
    + rewrite (bind_Throw (w1, Throw x1) _ w1 x1 eq_refl). intros [= _ <-].
      by eapply bind_steps_Throw.
Qed.

End ReturnsOrThrows.

(** ** The binding loop, call by call *)

Section Trail.

Context {U : Utils}.

Lemma record_parameters_keep s cb l p :
  parameters s !! l = Some p -> parameters (record s cb) !! l = Some p.
Proof.
  destruct cb as [c b]. unfold record. intros Hl.
  destruct (dollar (in_value b)); [|done]. simpl.
  destruct (decide (label b = l)) as [->|Hne].
  - by rewrite lookup_insert_eq, Hl.
  - by rewrite lookup_insert_ne.
Qed.

Lemma fold_record_parameters_keep post s l p :
  parameters s !! l = Some p ->
  parameters (fold_left record post s) !! l = Some p.
Proof.
  revert s. induction post as [|cb post IH]; simpl; intros s Hl; [done|].
  apply IH. by apply record_parameters_keep.
Qed.

Lemma bound_app l1 l2 : bound (l1 ++ l2) = fold_left record l2 (bound l1).
Proof. unfold bound. by rewrite fold_left_app. Qed.

(** The parameter the loop has for the name of a placeholder right after
    it went through it. *)
Lemma record_parameter s c b :
  dollar (in_value b) = true ->
  parameters (record s (c, b)) !! label b
  = Some (match parameters s !! label b with
          | Some p => p
          | None => WorkflowParameter (in_type b) (in_options b)
                                      (label b) (label b) (color (count s + 1))
          end).
Proof. intros Hd. unfold record. rewrite Hd. simpl. apply lookup_insert_eq. Qed.

Lemma trail_app l1 l2 s :
  trail (l1 ++ l2) s = trail l1 s ++ trail l2 (fold_left record l1 s).
Proof.
  revert s. induction l1 as [|cb l1 IH]; simpl; intros s; [done|].
  by rewrite IH, app_assoc.
Qed.

Lemma bind_input_marks forms c s b a :
  Obj.get forms c = Some (Some a) ->
  (dollar (in_value b) = true -> inherited (label b) = false) ->
  bind_input forms c s b = (marks s (c, b), Ret (record s (c, b))).
Proof.
  intros Hc Hl. unfold bind_input, record, marks. simpl.
  destruct (dollar (in_value b)); [|done].
  rewrite Hc, Hl by done. by destruct (parameters s !! label b).
Qed.

Lemma each_trail forms c a l : forall s,
  Obj.get forms c = Some (Some a) ->
  (forall b, b ∈ l -> dollar (in_value b) = true ->
             inherited (label b) = false) ->
  each (bind_input forms c) l s
  = (trail (List.map (pair c) l) s,
     Ret (fold_left record (List.map (pair c) l) s)).
Proof.
  induction l as [|b l IH]; simpl; intros s Hc Hown; [done|].
  rewrite (bind_Ret _ _ _ _ (bind_input_marks forms c s b a Hc
                               (Hown b (list_elem_of_here _ _)))).
  rewrite IH; [done | done |].
  intros b' Hb'. apply Hown. by right.
Qed.

Lemma bind_steps_trail forms steps :
  (forall c g, (c, g) ∈ steps -> exists a, Obj.get forms c = Some (Some a)) ->
  (forall c g b, (c, g) ∈ steps -> b ∈ inputs g ->
                 dollar (in_value b) = true -> inherited (label b) = false) ->
  bind_steps forms steps
  = (trail (scan_list steps) (Binder ∅ ∅ 0), Ret (bound (scan_list steps))).
Proof.
  intros Hforms Hown. unfold bind_steps, scan_list, bound.
  generalize (Binder ∅ ∅ 0) as s.
  induction steps as [|[c g] steps IH]; simpl; intros s; [done|].
  destruct (Hforms c g) as [a Ha]; [left|].
  rewrite (bind_Ret _ _ _ _
             (each_trail forms c a (inputs g) s Ha
                (fun b Hb => Hown c g b (list_elem_of_here _ _) Hb))).
  rewrite IH.
  - simpl. by rewrite trail_app, fold_left_app.
  - intros c' g' Hin. apply (Hforms c' g'). by right.
  - intros c' g' b' Hin. apply (Hown c' g'). by right.
Qed.

Lemma each_silent {A} (f : unit -> A -> act unit) l w r :
  (forall x w' r', f tt x = (w', r') -> w' = []) ->
  each f l tt = (w, r) -> w = [].
Proof.
  intros Hf. revert w r. induction l as [|x l IH]; simpl; intros w r.
  - by intros [= <- _].
  - destruct (f tt x) as [w1 [[]|x1]] eqn:Hx; unfold mbind, act_bind.
    + fold (@each A unit). destruct (each f l tt) as [w2 r2] eqn:Hl.
      intros [= <- _]. by rewrite (Hf _ _ _ Hx), (IH _ _ eq_refl).
    + intros [= <- _]. by eapply Hf.
Qed.

(** The calls of [initialize] on the toolkit: those of the binding loop,
    then the colouring of the fields of the parameter form. *)
Lemma initialize_log f log this :
  initialize f = (log, Ret this) ->
  log = trail (scan_list (steps this)) (Binder ∅ ∅ 0)
        ++ style_sources (wp_inputs this).
Proof.
  intros Hi.
  destruct (initialize_inv _ _ _ Hi) as (Hf & Hs & _ & _ & Hnn & Hown & _).
  pose proof (initialize_view _ _ _ Hi) as (_ & _ & _ & Hp).
  revert Hi. unfold initialize.
  destruct (prepare 0 (wf_steps f) [] []) as [fs ss]. cbn [fst snd] in *.
  rewrite (bind_Ret _ _ _ _ (bind_steps_trail fs ss Hnn Hown)), tell_bind.
  cbn [fst snd].
  match goal with
  | |- context [each ?F ss tt] =>
      destruct (each F ss tt) as [w2 [[]|x2]] eqn:Hl
  end.
  - apply each_silent in Hl.
    + subst w2. rewrite (bind_Ret (_, Ret tt) _ _ tt eq_refl). simpl.
      intros [= <- _]. rewrite Hs, Hp, Hs. by rewrite !app_nil_r.
    + intros [c g] w' r'. destruct (Obj.get fs c) as [[a|]|]; by intros [= <-].
  - by rewrite (bind_Throw (_, Throw x2) _ _ x2 eq_refl).
Qed.

Lemma elem_of_trail l : forall s y,
  y ∈ trail l s
  <-> exists pre cb post,
        l = pre ++ cb :: post /\ y ∈ marks (fold_left record pre s) cb.
Proof.
  induction l as [|cb l IH]; simpl; intros s y.
  - split; [by intros ?%elem_of_nil|].
    intros (pre & cb & post & Hl & _). by destruct pre.
  - rewrite elem_of_app, IH. split.
    + intros [Hy|(pre & cb' & post & -> & Hy)].
      * by exists [], cb, l.
      * by exists (cb :: pre), cb', post.
    + intros ([|cb0 pre] & cb' & post & Hl & Hy); injection Hl as -> ->.
      * by left.
      * right. by exists pre, cb', post.
Qed.

End Trail.

(** ** What the fields show *)

Lemma shown_snoc st l y : shown st (l ++ [y]) = write (shown st l) y.
Proof. unfold shown. by rewrite fold_left_app. Qed.

Lemma shown_untouched st l fld :
  (forall v, FieldValue fld v ∉ l) -> shown st l fld = st fld.
Proof.
  induction l as [|y l IH] using rev_ind; intros Hno; [done|].
  rewrite shown_snoc.
  assert (shown st l fld = st fld) as <-.
  { apply IH. intros v Hv. apply (Hno v). apply elem_of_app. by left. }
  destruct y; simpl; try done.
  rewrite decide_False; [done|]. intros ->.
  apply (Hno v). apply elem_of_app. right. by left.
Qed.

Lemma shown_agree st l fld v :
  FieldValue fld v ∈ l ->
  (forall v', FieldValue fld v' ∈ l -> v' = v) ->
  shown st l fld = Some v.
Proof.
  induction l as [|y l IH] using rev_ind; intros Hin Hall.
  - by apply elem_of_nil in Hin.
  - rewrite shown_snoc.
    assert (forall v', FieldValue fld v' ∈ l -> v' = v) as Hall'.
    { intros v' Hv'. apply Hall. apply elem_of_app. by left. }
    apply elem_of_app in Hin as [Hin|Hin%list_elem_of_singleton].
    + destruct y; simpl; try by apply IH.
      destruct (decide (fld = fld0)) as [<-|Hf]; [|by apply IH].
      f_equal. apply Hall. apply elem_of_app. right. by left.
    + subst y. simpl. by rewrite decide_True.
Qed.

(** ** Parameters and their targets *)

Section Targets.

Context {U : Utils}.

Lemma target_field this l fld :
  view_ok this ->
  fld ∈ default [] (wp_targets this !! l) ->
  exists c g b, Obj.get (steps this) c = Some g /\ b ∈ inputs g
                /\ dollar (in_value b) = true /\ label b = l
                /\ fld = StepField c (in_id b).
Proof.
  intros Hok. rewrite (view_targets _ _ Hok), elem_of_fields_named.
  intros (c & b & Hin & Hd & Hl & ->).
  apply (view_scan_elem _ _ _ Hok) in Hin as (g & Hg & Hb).
  by exists c, g, b.
Qed.

Lemma targets_disjoint this :
  view_ok this ->
  (forall c g, Obj.get (steps this) c = Some g ->
               NoDup (List.map in_id (inputs g))) ->
  forall fld l l',
    fld ∈ default [] (wp_targets this !! l) ->
    fld ∈ default [] (wp_targets this !! l') -> l = l'.
Proof.
  intros Hok Hids fld l l' Hl Hl'.
  apply (target_field _ _ _ Hok) in Hl as (c & g & b & Hg & Hb & _ & <- & ->).
  apply (target_field _ _ _ Hok) in Hl'
    as (c' & g' & b' & Hg' & Hb' & _ & <- & [= <- Hid]).
  rewrite Hg in Hg'. injection Hg' as <-.
  by rewrite (NoDup_map_inj in_id (inputs g) b b' (Hids c g Hg) Hb Hb').
Qed.

(** X4.  A parameter is made from the first placeholder that names it, in
    the order the steps and their inputs are gone through: it takes the
    type and the options of that input, and the colour of the count of
    distinct names met up to it.  Later placeholders of the same name
    change nothing of it. *)
Theorem parameter_comes_from_first_placeholder f log this :
  initialize f = (log, Ret this) ->
  forall pre c b post,
    scan_list (steps this) = pre ++ (c, b) :: post ->
    dollar (in_value b) = true ->
    (forall c' b', (c', b') ∈ pre -> dollar (in_value b') = true ->
                   label b' <> label b) ->
    wp_inputs this !! label b
    = Some (WorkflowParameter
              (in_type b) (in_options b) (label b) (label b)
              (color (N.of_nat (length (first_seen (names pre))) + 1))).
Proof.
  intros Hi pre c b post Hscan Hd Hfirst.
  destruct (initialize_view _ _ _ Hi) as (_ & _ & _ & ->).
  rewrite Hscan. change (pre ++ (c, b) :: post) with (pre ++ [(c, b)] ++ post).
  rewrite app_assoc, bound_app, bound_snoc.
  apply fold_record_parameters_keep.
  rewrite record_parameter by done.
  destruct (bound_parameters pre) as (Hj & Hdom & _).
  destruct (parameters (bound pre) !! label b) as [p|] eqn:Hp.
  - assert (label b ∈ first_seen (names pre)) as Hin
      by (apply Hdom; by eexists).
    apply elem_of_first_seen, elem_of_names in Hin
      as (c' & b' & Hin & Hd' & Hl).
    by destruct (Hfirst c' b' Hin Hd').
  - by rewrite Hj.
Qed.

(** X5.  A field is the target of one parameter only: when the inputs of
    each step have distinct ids, a field recorded under one name is
    recorded under no other. *)
Theorem target_has_one_parameter f log this :
  initialize f = (log, Ret this) ->
  (forall c g, Obj.get (steps this) c = Some g ->
               NoDup (List.map in_id (inputs g))) ->
  forall fld l l',
    fld ∈ default [] (wp_targets this !! l) ->
    l <> l' ->
    fld ∉ default [] (wp_targets this !! l').
Proof.
  intros Hi Hids fld l l' Hl Hne Hl'. apply Hne.
  by apply (targets_disjoint this (initialize_view _ _ _ Hi) Hids fld).
Qed.

Lemma elem_of_style_sources (i : gmap string parameter) y :
  y ∈ style_sources i
  <-> exists l p, i !! l = Some p
                  /\ y = Style (ParameterField l) (p_color p)
                               "ui-form-wp-source".
Proof.
  unfold style_sources. rewrite list_elem_of_In, in_map_iff. split.
  - intros ([l p] & <- & Hin). exists l, p. split; [|done].
    apply elem_of_map_to_list. by apply list_elem_of_In.
  - intros (l & p & Hl & ->). exists (l, p). split; [done|].
    apply list_elem_of_In. by apply elem_of_map_to_list.
Qed.

(** The calls of the loop body for a placeholder, with the colour the
    parameter has in the end. *)
Lemma marks_placeholder pre c b post :
  dollar (in_value b) = true ->
  exists p,
    parameters (bound (pre ++ (c, b) :: post)) !! label b = Some p
    /\ marks (bound pre) (c, b)
       = [FieldValue (StepField c (in_id b)) (label b);
          ElementDisable (StepField c (in_id b));
          Style (StepField c (in_id b)) (p_color p) "ui-form-wp-target"].
Proof.
  intros Hd. eexists. split.
  - change (pre ++ (c, b) :: post) with (pre ++ [(c, b)] ++ post).
    rewrite app_assoc, bound_app, bound_snoc.
    apply fold_record_parameters_keep. by apply record_parameter.
  - unfold marks. simpl. by rewrite Hd.
Qed.

Lemma build_log_placeholder f log this c g b :
  initialize f = (log, Ret this) ->
  Obj.get (steps this) c = Some g -> b ∈ inputs g ->
  dollar (in_value b) = true ->
  exists p, wp_inputs this !! label b = Some p
            /\ FieldValue (StepField c (in_id b)) (label b) ∈ log
            /\ ElementDisable (StepField c (in_id b)) ∈ log
            /\ Style (StepField c (in_id b)) (p_color p)
                     "ui-form-wp-target" ∈ log
            /\ Style (ParameterField (label b)) (p_color p)
                     "ui-form-wp-source" ∈ log.
Proof.
  intros Hi Hg Hb Hd. pose proof (initialize_view _ _ _ Hi) as Hok.
  pose proof Hok as (_ & _ & _ & Hp).
  rewrite (initialize_log _ _ _ Hi).
  assert ((c, b) ∈ scan_list (steps this)) as Hin
    by (apply (view_scan_elem _ _ _ Hok); by exists g).
  apply list_elem_of_split in Hin as (pre & post & Hscan).
  destruct (marks_placeholder pre c b post Hd) as (p & Hl & Hm).
  rewrite <- Hscan, <- Hp in Hl. exists p. split; [done|].
  assert (forall y, y ∈ marks (bound pre) (c, b) ->
                    y ∈ trail (scan_list (steps this)) (Binder ∅ ∅ 0)
                        ++ style_sources (wp_inputs this)) as Hsub.
  { intros y Hy. apply elem_of_app. left. apply elem_of_trail.
    by exists pre, (c, b), post. }
  rewrite Hm in Hsub.
  repeat split; try (apply Hsub; rewrite !elem_of_cons; tauto).
  apply elem_of_app. right. apply elem_of_style_sources. by exists (label b), p.
Qed.

Lemma build_log_only f log this y :
  initialize f = (log, Ret this) -> y ∈ log ->
  (exists c g b p,
      Obj.get (steps this) c = Some g /\ b ∈ inputs g
      /\ dollar (in_value b) = true
      /\ wp_inputs this !! label b = Some p
      /\ (y = FieldValue (StepField c (in_id b)) (label b)
          \/ y = ElementDisable (StepField c (in_id b))
          \/ y = Style (StepField c (in_id b)) (p_color p)
                       "ui-form-wp-target"))
  \/ exists l p, wp_inputs this !! l = Some p
                 /\ y = Style (ParameterField l) (p_color p)
                              "ui-form-wp-source".
Proof.
  intros Hi. pose proof (initialize_view _ _ _ Hi) as Hok.
  pose proof Hok as (_ & _ & _ & Hp).
  rewrite (initialize_log _ _ _ Hi).
  intros [Hy|Hy]%elem_of_app.
  - left. apply elem_of_trail in Hy as (pre & [c b] & post & Hscan & Hy).
    fold (bound pre) in Hy.
    destruct (dollar (in_value b)) eqn:Hd;
      [|unfold marks in Hy; simpl in Hy; rewrite Hd in Hy;
        by apply elem_of_nil in Hy].
    destruct (marks_placeholder pre c b post Hd) as (p & Hl & Hm).
    rewrite <- Hscan, <- Hp in Hl. rewrite Hm in Hy.
    assert ((c, b) ∈ scan_list (steps this)) as Hin.
    { rewrite Hscan. apply elem_of_app. right. left. }
    apply (view_scan_elem _ _ _ Hok) in Hin as (g & Hg & Hb).
    exists c, g, b, p. repeat split; try done.
    rewrite !elem_of_cons in Hy.
    destruct Hy as [?|[?|[?|Hy]]]; [tauto..|by apply elem_of_nil in Hy].
  - right. by apply elem_of_style_sources.
Qed.

Lemma onchange_shown this data st c b fld :
  view_ok this ->
  (forall c g, Obj.get (steps this) c = Some g ->
               NoDup (List.map in_id (inputs g))) ->
  NoDup (List.map fst data) ->
  (c, b) ∈ data -> fld ∈ default [] (wp_targets this !! c) ->
  shown st (onchange this data) fld = Some (pushed b c).
Proof.
  intros Hok Hids Hkeys Hin Hf. apply shown_agree.
  - apply onchange_elem. by exists c, b.
  - intros v' (c' & b' & Hin' & Hf' & ->)%onchange_elem.
    pose proof (targets_disjoint _ Hok Hids _ _ _ Hf Hf') as <-.
    assert ((c, b) = (c, b')) as [= <-]; [|done].
    by apply (NoDup_map_inj fst data).
Qed.

(** X6.  While the form is built, every field whose input is a
    placeholder is sent the name of its parameter, its element is disabled
    and it is given the colour of its parameter, the same colour the field
    of that parameter in the parameter form is given; and these are all
    the calls the build makes on the toolkit. *)
Theorem build_marks_the_targets f log this :
  initialize f = (log, Ret this) ->
  (forall c g b,
      Obj.get (steps this) c = Some g -> b ∈ inputs g ->
      dollar (in_value b) = true ->
      exists p, wp_inputs this !! label b = Some p
                /\ FieldValue (StepField c (in_id b)) (label b) ∈ log
                /\ ElementDisable (StepField c (in_id b)) ∈ log
                /\ Style (StepField c (in_id b)) (p_color p)
                         "ui-form-wp-target" ∈ log
                /\ Style (ParameterField (label b)) (p_color p)
                         "ui-form-wp-source" ∈ log)
  /\ (forall y, y ∈ log ->
        (exists c g b p,
            Obj.get (steps this) c = Some g /\ b ∈ inputs g
            /\ dollar (in_value b) = true
            /\ wp_inputs this !! label b = Some p
            /\ (y = FieldValue (StepField c (in_id b)) (label b)
                \/ y = ElementDisable (StepField c (in_id b))
                \/ y = Style (StepField c (in_id b)) (p_color p)
                             "ui-form-wp-target"))
        \/ exists l p, wp_inputs this !! l = Some p
                       /\ y = Style (ParameterField l) (p_color p)
                                    "ui-form-wp-source").
Proof.
  intros Hi. split.
  - intros c g b. exact (build_log_placeholder f log this c g b Hi).
  - intros y. exact (build_log_only f log this y Hi).
Qed.

Lemma run_onchange this data u : run u (onchange this data) = u.
Proof.
  unfold onchange. revert u.
  induction data as [|[c b] data IH]; intros u; [done|].
  simpl. rewrite run_app, IH.
  induction (default [] (wp_targets this !! c)) as [|fld l IHl]; [done|].
  exact IHl.
Qed.

(** X7.  After a change event of the parameter form whose data names each
    parameter once, every target of a parameter of the data shows the
    value pushed for that parameter -- the sanitized value, or the name of
    the parameter when that is empty -- and every other field shows what
    it showed before (ids being distinct within a step).  The event
    touches nothing else: the execute button, the portlets and the
    highlights stay as they are. *)
Theorem change_sets_what_targets_show f log this :
  initialize f = (log, Ret this) ->
  (forall c g, Obj.get (steps this) c = Some g ->
               NoDup (List.map in_id (inputs g))) ->
  forall data st,
    NoDup (List.map fst data) ->
    (forall c b fld,
        (c, b) ∈ data -> fld ∈ default [] (wp_targets this !! c) ->
        shown st (onchange this data) fld = Some (pushed b c))
    /\ (forall fld,
          (forall c b, (c, b) ∈ data ->
                       fld ∉ default [] (wp_targets this !! c)) ->
          shown st (onchange this data) fld = st fld)
    /\ forall u, run u (onchange this data) = u.
Proof.
  intros Hi Hids data st Hkeys.
  pose proof (initialize_view _ _ _ Hi) as Hok. split; [|split].
  - intros c b fld. by apply onchange_shown.
  - intros fld Hno. apply shown_untouched.
    intros v (c & b & Hin & Hf & _)%onchange_elem. by apply (Hno c b).
  - intros u. apply run_onchange.
Qed.

(** X8.  Once the form is built every target shows the name of its
    parameter, and a change event that carries an empty value for the
    parameter puts that name back (ids being distinct within a step). *)
Theorem emptied_parameter_shows_its_name f log this :
  initialize f = (log, Ret this) ->
  (forall c g, Obj.get (steps this) c = Some g ->
               NoDup (List.map in_id (inputs g))) ->
  forall l fld,
    fld ∈ default [] (wp_targets this !! l) ->
    (forall st, shown st log fld = Some l)
    /\ forall data b st,
         NoDup (List.map fst data) -> (l, b) ∈ data -> sanitize b = "" ->
         shown st (onchange this data) fld = Some l.
Proof.
  intros Hi Hids l fld Hf.
  pose proof (initialize_view _ _ _ Hi) as Hok.
  split.
  - intros st.
    pose proof Hf as (c & g & b & Hg & Hb & Hd & <- & ->)%(target_field _ _ _ Hok).
    destruct (build_log_placeholder _ _ _ _ _ _ Hi Hg Hb Hd) as (p & _ & Hv & _).
    apply shown_agree; [done|].
    intros v' Hv'.
    destruct (build_log_only _ _ _ _ Hi Hv') as [Hy|(l' & p' & _ & Hy)]; [|done].
    destruct Hy as (c' & g' & b' & p' & Hg' & Hb' & Hd' & _ & [Hy|[Hy|Hy]]);
      [|done..].
    injection Hy as Hc Hid ->. subst c'.
    rewrite Hg in Hg'. injection Hg' as <-.
    by rewrite (NoDup_map_inj in_id (inputs g) b b' (Hids c g Hg) Hb Hb').
  - intros data b st Hkeys Hin Hs.
    rewrite (onchange_shown _ _ _ _ _ _ Hok Hids Hkeys Hin Hf).
    unfold pushed. by rewrite Hs.
Qed.

End Targets.

(** ** The validation pass, attempt by attempt *)

Lemma forallb_false_split {A} (p : A -> bool) l :
  forallb p l = false ->
  exists pre x post, l = pre ++ x :: post /\ forallb p pre = true
                     /\ p x = false.
Proof.
  induction l as [|y l IH]; simpl; [done|].
  destruct (p y) eqn:Hy; simpl.
  - intros (pre & x & post & -> & Hpre & Hx)%IH.
    exists (y :: pre), x, post. simpl. by rewrite Hy, Hpre.
  - intros _. by exists [], y, l.
Qed.

Lemma highlights_snoc l y :
  highlights (l ++ [y])
  = highlights l ++ match y with
                    | FormHighlight e m => [(e, m)]
                    | _ => []
                    end.
Proof.
  unfold highlights. rewrite omap_app. simpl. by destruct y.
Qed.

Lemma elem_of_highlights l e m :
  (e, m) ∈ highlights l <-> FormHighlight e m ∈ l.
Proof.
  unfold highlights. rewrite list_elem_of_omap. split.
  - intros (y & Hy & Heq). destruct y; try done. by injection Heq as -> ->.
  - intros Hy. by exists (FormHighlight e m).
Qed.

(** A form is reset when the loop opens it. *)
Lemma open_resets s vs e g : Open e g ∈ vs -> FormReset e ∈ calls (swept s vs).
Proof.
  intros (pre & post & ->)%list_elem_of_split.
  rewrite swept_app. simpl.
  destruct (calls_swept (open_form e g (swept s pre)) post) as [w ->].
  apply elem_of_app. left. simpl. apply elem_of_app. right. left.
Qed.

(** Where a highlighted field comes from: it was highlighted before and
    its form was not reset, or one of the calls highlights it. *)
Lemma highlighted_origin u l e m :
  (e, m) ∈ highlighted (run u l) ->
  ((e, m) ∈ highlighted u /\ FormReset e ∉ l) \/ FormHighlight e m ∈ l.
Proof.
  induction l as [|y l IH] using rev_ind.
  - intros Hin. left. split; [done|]. by intros ?%elem_of_nil.
  - rewrite run_snoc.
    assert ((e, m) ∈ highlighted (run u l) ->
            (forall e', y <> FormReset e') ->
            ((e, m) ∈ highlighted u /\ FormReset e ∉ l ++ [y])
            \/ FormHighlight e m ∈ l ++ [y]) as Hkeep.
    { intros [[Hu Hno]|Hh]%IH Hy.
      - left. split; [done|].
        intros [?|Heq%list_elem_of_singleton]%elem_of_app; [done|].
        by apply (Hy e).
      - right. apply elem_of_app. by left. }
    destruct y; simpl; try (intros Hin; by apply Hkeep).
    + intros [Hin Hne]%list_elem_of_In%filter_In.
      apply list_elem_of_In, IH in Hin as [[Hu Hno]|Hh].
      * left. split; [done|].
        intros [?|Heq%list_elem_of_singleton]%elem_of_app; [done|].
        injection Heq as <-. simpl in Hne. by rewrite N.eqb_refl in Hne.
      * right. apply elem_of_app. by left.
    + intros [Hin|Hin%list_elem_of_singleton]%elem_of_app;
        [by apply Hkeep|].
      injection Hin as -> ->. right. apply elem_of_app. right. left.
Qed.

(** [d] is never set again once it was cleared, and while it is set no
    field has been highlighted; a field of a data input is highlighted
    first or not at all. *)
Lemma highlights_swept steps vs :
  (forall v, v ∈ vs -> Obj.get steps (key_of v) = Some (step_of v)) ->
  (d (swept start vs) = true -> highlights (calls (swept start vs)) = [])
  /\ forall i e m g,
       highlights (calls (swept start vs)) !! i = Some (e, m) ->
       Obj.get steps e = Some g -> data_input_type (step_type g) = true ->
       i = 0%nat.
Proof.
  induction vs as [|v vs IH] using rev_ind; intros Hvs.
  - split; [done|]. intros i e m g. simpl. by rewrite lookup_nil.
  - destruct IH as [IHd IHi].
    { intros v' Hv'. apply Hvs. apply elem_of_app. by left. }
    pose proof (Hvs v) as Hv. rewrite elem_of_app, list_elem_of_singleton in Hv.
    specialize (Hv (or_intror eq_refl)).
    rewrite swept_snoc. destruct v as [e0 g0|e0 g0 x0]; simpl in *.
    + rewrite highlights_snoc, app_nil_r. exact (conj IHd IHi).
    + unfold check. destruct (data_input_type (step_type g0)) eqn:Hdt.
      * destruct (selected (e_value x0)); simpl; [exact (conj IHd IHi)|].
        destruct (d (swept start vs)) eqn:Hd; simpl;
          [|split; [by rewrite Hd | exact IHi]].
        rewrite highlights_snoc, IHd by done. simpl. split; [done|].
        intros [|i] e m g Hi; [done|]. by destruct i.
      * destruct (_ || _ || _); simpl; [exact (conj IHd IHi)|].
        rewrite highlights_snoc. split; [done|].
        intros i e m g Hi He Hg.
        apply lookup_app_Some in Hi as [Hi|[_ Hi]]; [by eapply IHi|].
        apply list_lookup_singleton_Some in Hi as [_ [= <- <-]].
        rewrite Hv in He. injection He as <-. congruence.
Qed.

(** The entry of [inputs] under an order index is left alone by the
    items that are not selected items of a data input of that index. *)
Lemma inputs_untouched s vs j :
  (forall e g x, Item e g x ∈ vs -> data_input_type (step_type g) = true ->
                 selected (e_value x) = true -> order_index g <> j) ->
  rq_inputs (c (swept s vs)) !! j = rq_inputs (c s) !! j.
Proof.
  induction vs as [|v vs IH] using rev_ind; intros Hvs; [done|].
  rewrite swept_snoc, <- IH.
  - destruct v as [e g|e g x]; simpl; [done|].
    unfold check. destruct (data_input_type (step_type g)) eqn:Hdt.
    + destruct (selected (e_value x)) eqn:Hsel; simpl.
      * rewrite lookup_insert_ne; [done|].
        apply (Hvs e g x); [|done..]. apply elem_of_app. right. left.
      * by destruct (d (swept s vs)).
    + by destruct (_ || _ || _).
  - intros e g x Hin. apply (Hvs e g x). apply elem_of_app. by left.
Qed.

Section Attempts.

Context {U : Utils}.

(** What [_execute] calls once the loop over the forms is over resets
    and highlights nothing. *)
Lemma execute_tail pg this create :
  view_ok this ->
  exists tail,
    fst (_execute pg this create)
    = calls (swept start (visits (steps this) create (forms this))) ++ tail
    /\ forall y, y ∈ tail -> match y with
                             | FormReset _ | FormHighlight _ _ => False
                             | _ => True
                             end.
Proof.
  intros Hok. destruct (history_form this) as [hf|] eqn:Hh.
  - rewrite (_execute_some pg _ create _ Hok Hh). simpl.
    eexists. split; [done|].
    intros y Hy.
    apply elem_of_cons in Hy as [->|Hy]; [by destruct (d _)|].
    apply elem_of_cons in Hy as [->|Hy]; [by destruct (d _)|].
    apply elem_of_app in Hy as [Hy|Hy].
    + apply list_elem_of_In, in_map_iff in Hy as (e' & <- & _).
      by destruct (d _).
    + destruct (d _); [|by apply elem_of_nil in Hy].
      by apply list_elem_of_singleton in Hy as ->.
  - rewrite (_execute_none pg _ create Hok Hh). simpl.
    eexists. split; [done|].
    intros y ->%list_elem_of_singleton. by destruct (d _).
Qed.

Lemma execute_highlight pg this create e m :
  view_ok this ->
  FormHighlight e m ∈ fst (_execute pg this create)
  <-> FormHighlight e m
      ∈ calls (swept start (visits (steps this) create (forms this))).
Proof.
  intros Hok. destruct (execute_tail pg this create Hok) as (tail & -> & Ht).
  rewrite elem_of_app. split; [|by left].
  intros [?|Hy]; [done|]. by destruct (Ht _ Hy).
Qed.

Lemma execute_highlighted pg this create u :
  view_ok this ->
  highlighted (run u (fst (_execute pg this create)))
  = highlighted
      (run u (calls (swept start (visits (steps this) create (forms this))))).
Proof.
  intros Hok. destruct (execute_tail pg this create Hok) as (tail & -> & Ht).
  rewrite run_app. by apply run_keeps_highlighted.
Qed.

Lemma accepted_no_highlight s vs e m :
  d (swept s vs) = true ->
  FormHighlight e m ∈ calls (swept s vs) -> FormHighlight e m ∈ calls s.
Proof.
  intros Hd [?|(g & x & Hin & Hinv & _)]%highlight_sound; [done|].
  rewrite d_swept in Hd. apply andb_true_iff in Hd as [_ Hd].
  rewrite (forallb_false_elem _ _ (Item e g x)) in Hd; [done | done |].
  simpl. by rewrite Hinv.
Qed.

(** X9.  An attempt is rejected exactly when it highlights a field: the
    validation never fails silently, and an attempt that passes
    highlights nothing. *)
Theorem rejected_exactly_when_highlighting f log this :
  initialize f = (log, Ret this) ->
  forall pg create,
    d (fst (validate this create)) = false
    <-> exists e m, FormHighlight e m ∈ fst (_execute pg this create).
Proof.
  intros Hi pg create. pose proof (initialize_view _ _ _ Hi) as Hok.
  rewrite (validate_swept _ _ Hok). simpl.
  set (vs := visits (steps this) create (forms this)). split.
  - rewrite d_swept. simpl.
    intros (pre & v & post & Hvs & Hpre & Hv)%forallb_false_split.
    destruct v as [e g|e g x]; [done|]. simpl in Hv.
    apply negb_false_iff in Hv.
    exists e, (in_id (e_input x)). apply (execute_highlight _ _ _ _ _ Hok).
    fold vs. rewrite Hvs. apply highlight_complete; [done|]. left.
    by rewrite d_swept.
  - intros (e & m & Hin). apply (execute_highlight _ _ _ _ _ Hok) in Hin.
    fold vs in Hin. apply not_true_is_false. intros Hd.
    apply (accepted_no_highlight _ _ _ _ Hd) in Hin.
    by apply elem_of_nil in Hin.
Qed.

(** X10.  Of the fields an attempt highlights, only the first can be a
    field of a data input: every field highlighted after the first belongs
    to the form of a step that is not a data input. *)
Theorem later_highlights_are_tool_fields f log this :
  initialize f = (log, Ret this) ->
  forall pg create i e m,
    highlights (fst (_execute pg this create)) !! S i = Some (e, m) ->
    exists g, Obj.get (steps this) e = Some g
              /\ data_input_type (step_type g) = false.
Proof.
  intros Hi pg create i e m. pose proof (initialize_view _ _ _ Hi) as Hok.
  destruct (execute_tail pg this create Hok) as (tail & -> & Ht).
  assert (highlights tail = []) as Htail.
  { clear -Ht. induction tail as [|y tail IH] using rev_ind; [done|].
    rewrite highlights_snoc, IH
      by (intros y' Hy'; apply Ht, elem_of_app; by left).
    assert (y ∈ tail ++ [y]) as Hy by (apply elem_of_app; right; left).
    apply Ht in Hy. by destruct y. }
  unfold highlights at 1. rewrite omap_app. fold (highlights tail).
  rewrite Htail, app_nil_r. intros Hl.
  assert (exists g, Obj.get (steps this) e = Some g) as [g Hg].
  { pose proof (list_elem_of_lookup_2 _ _ _ Hl) as Hin.
    apply elem_of_highlights, highlight_sound in Hin
      as [Hin|(g & x & Hin & _)]; [by apply elem_of_nil in Hin|].
    apply visits_item in Hin as (_ & Hg & _). by exists g. }
  exists g. split; [done|]. apply not_true_is_false. intros Hdt.
  assert (S i = 0%nat) as Heq; [|done].
  eapply (highlights_swept (steps this)); [|exact Hl|exact Hg|exact Hdt].
  intros v Hv. by apply visits_steps in Hv as [_ ?].
Qed.

(** The fields that are highlighted belong to the forms of the view. *)
Lemma enabled_effects this a y :
  view_ok this ->
  y ∈ fst (_enabled this a) ->
  match y with
  | FormReset _ | FormHighlight _ _ => False
  | _ => True
  end.
Proof.
  intros (_ & Hnn & _). destruct (history_form this) as [hf|] eqn:Hh.
  - rewrite (_enabled_some _ a _ Hh Hnn). simpl. intros Hy.
    apply elem_of_cons in Hy as [->|Hy]; [by destruct a|].
    apply elem_of_cons in Hy as [->|Hy]; [by destruct a|].
    apply list_elem_of_In, in_map_iff in Hy as (e' & <- & _). by destruct a.
  - rewrite (_enabled_none _ a Hh). simpl.
    intros ->%list_elem_of_singleton. by destruct a.
Qed.

Lemma reachable_highlighted pg this u :
  view_ok this -> reachable pg this u ->
  forall e m, (e, m) ∈ highlighted u -> e ∈ Obj.keys (forms this).
Proof.
  intros Hok. induction 1 as [|u create _ IH|u data _ IH
                               |u a _ IH Hpos|u a _ IH Hpos]; intros e m.
  - by intros ?%elem_of_nil.
  - rewrite (execute_highlighted _ _ _ _ Hok).
    intros [[Hu _]|Hh]%highlighted_origin; [by eapply IH|].
    apply highlight_sound in Hh as [Hh|(g & x & Hin & _)];
      [by apply elem_of_nil in Hh|].
    by apply visits_item in Hin as [? _].
  - rewrite run_keeps_highlighted; [by apply IH|].
    intros y Hy. unfold onchange in Hy.
    apply list_elem_of_In, in_flat_map in Hy as ([l v] & _ & Hy).
    by apply in_map_iff in Hy as (fld & <- & _).
  - rewrite run_keeps_highlighted; [by apply IH|].
    intros y [Hy|Hy]%elem_of_app.
    + unfold success in Hy. simpl in Hy.
      destruct (currHistoryPanel pg); [|by apply elem_of_nil in Hy].
      by apply list_elem_of_singleton in Hy as ->.
    + by eapply enabled_effects.
  - rewrite run_keeps_highlighted; [by apply IH|].
    intros y [Hy|Hy]%on_failure_elem; [|by eapply enabled_effects].
    unfold error in Hy.
    repeat match type of Hy with
           | context [if ?b then _ else _] => destruct b
           | context [match ?o with _ => _ end] => destruct o
           end; simpl in Hy;
      try (by apply elem_of_nil in Hy);
      by apply list_elem_of_singleton in Hy as ->.
Qed.

(** X11.  Whatever was highlighted before, the fields highlighted after
    an attempt are exactly those the attempt highlights: each form is
    reset before its fields are checked, so an attempt that passes
    leaves no field highlighted. *)
Theorem attempt_replaces_highlights f log this :
  initialize f = (log, Ret this) ->
  forall pg u create,
    reachable pg this u ->
    (forall e m,
        (e, m) ∈ highlighted (run u (fst (_execute pg this create)))
        <-> FormHighlight e m ∈ fst (_execute pg this create))
    /\ (d (fst (validate this create)) = true ->
        highlighted (run u (fst (_execute pg this create))) = []).
Proof.
  intros Hi pg u create Hu. pose proof (initialize_view _ _ _ Hi) as Hok.
  assert (forall e m,
             (e, m) ∈ highlighted (run u (fst (_execute pg this create)))
             <-> FormHighlight e m ∈ fst (_execute pg this create)) as Hiff.
  { intros e m.
    rewrite (execute_highlighted _ _ _ _ Hok), (execute_highlight _ _ _ _ _ Hok).
    split.
    - intros [[Hin Hno]|Hh]%highlighted_origin; [|done].
      destruct Hno.
      pose proof (reachable_highlighted _ _ _ Hok Hu e m Hin) as He.
      destruct (proj2 (Obj_get_keys (forms this) e) He) as [a Ha].
      destruct (view_forms_steps _ _ _ Hok (Obj_get_elem _ _ _ Ha))
        as [_ (g & Hg & _)].
      apply (open_resets _ _ e g). by apply visits_open.
    - intros Hh.
      apply (highlights_persist u (visits (steps this) create (forms this)))
        with (Q := []); [|by rewrite app_nil_r|done].
      apply tidy_visits; [by apply view_keys_NoDup|].
      by intros e' _ ?%elem_of_nil. }
  split; [done|].
  rewrite (validate_swept _ _ Hok). simpl. intros Hd.
  apply elem_of_nil_inv. intros [e m] Hin.
  apply Hiff, (execute_highlight _ _ _ _ _ Hok) in Hin.
  apply (accepted_no_highlight _ _ _ _ Hd) in Hin.
  by apply elem_of_nil in Hin.
Qed.

(** X12.  The entry of [inputs] for a data input is the first of the
    selected values of its field ([values[0]]); when several selected data
    inputs share an order index, the one checked last is kept. *)
Theorem request_input_is_first_selected_value f log this :
  initialize f = (log, Ret this) ->
  forall create pre e g x post,
    visits (steps this) create (forms this) = pre ++ Item e g x :: post ->
    data_input_type (step_type g) = true ->
    selected (e_value x) = true ->
    (forall e' g' x', Item e' g' x' ∈ post ->
                      data_input_type (step_type g') = true ->
                      selected (e_value x') = true ->
                      order_index g' <> order_index g) ->
    rq_inputs (c (fst (validate this create))) !! order_index g
    = Some (JS.first (JS.get (e_value x) "values")).
Proof.
  intros Hi create pre e g x post Hvs Hdt Hsel Hpost.
  pose proof (initialize_view _ _ _ Hi) as Hok.
  rewrite (validate_swept _ _ Hok). simpl. rewrite Hvs.
  change (pre ++ Item e g x :: post) with (pre ++ [Item e g x] ++ post).
  rewrite app_assoc, swept_app, (inputs_untouched _ _ _ Hpost), swept_snoc.
  simpl. unfold check. rewrite Hdt, Hsel. simpl. apply lookup_insert_eq.
Qed.

End Attempts.

(** ** The state of the toolkit, attempt and response *)

Lemma run_in_flight u l :
  (forall y, y ∈ l -> is_Post y = false) -> in_flight (run u l) = in_flight u.
Proof.
  revert u. induction l as [|y l IH]; simpl; intros u Hl; [done|].
  rewrite IH by (intros y' Hy'; apply Hl; by right).
  specialize (Hl y (list_elem_of_here _ _)). by destruct y.
Qed.

Lemma enabling_no_Post a keys y : y ∈ enabling a keys -> is_Post y = false.
Proof.
  unfold enabling. simpl. intros Hy.
  apply elem_of_cons in Hy as [->|Hy]; [by destruct a|].
  apply elem_of_cons in Hy as [->|Hy]; [by destruct a|].
  apply list_elem_of_In, in_map_iff in Hy as (e' & <- & _). by destruct a.
Qed.

Lemma calls_no_Post vs y : y ∈ calls (swept start vs) -> is_Post y = false.
Proof.
  intros [Hy|[[e ->]|(e & m & ->)]]%calls_kinds;
    [by apply elem_of_nil in Hy | done | done].
Qed.

Lemma run_history_disabled u l :
  (forall y, y ∈ l -> is_portlet y = false) ->
  history_disabled (run u l) = history_disabled u.
Proof.
  revert u. induction l as [|y l IH]; simpl; intros u Hl; [done|].
  rewrite IH by (intros y' Hy'; apply Hl; by right).
  specialize (Hl y (list_elem_of_here _ _)). by destruct y.
Qed.

Section Responses.

Context {U : Utils}.

(** X13.  With a history form, an attempt that passes validation posts
    one request, and posts it last: by then the execute button waits and
    the history form and the form of every step are disabled. *)
Theorem accepted_attempt_disables_then_posts f log this :
  initialize f = (log, Ret this) ->
  JS.truthy (wf_history_id f) = false ->
  forall pg create u,
    d (fst (validate this create)) = true ->
    exists w,
      _execute pg this create
      = (w ++ [Post (url pg this) (c (fst (validate this create)))], Ret tt)
      /\ (forall y, y ∈ w -> is_Post y = false)
      /\ waiting (run u w) = true
      /\ history_disabled (run u w) = true
      /\ (forall e, e ∈ Obj.keys (forms this) -> e ∈ disabled (run u w))
      /\ in_flight (run u (fst (_execute pg this create)))
         = S (in_flight u).
Proof.
  intros Hi Hid pg create u.
  pose proof (initialize_view _ _ _ Hi) as Hok.
  destruct (initialize_inv _ _ _ Hi) as (_ & _ & _ & Hh & _).
  rewrite Hid in Hh.
  rewrite (validate_swept _ _ Hok), (_execute_some pg _ create _ Hok Hh).
  cbn [fst]. set (s := swept start (visits (steps this) create (forms this))).
  intros Hd. rewrite Hd. simpl negb.
  exists (calls s ++ enabling false (Obj.keys (forms this))).
  assert (forall y, y ∈ calls s ++ enabling false (Obj.keys (forms this)) ->
                    is_Post y = false) as Hno.
  { intros y [Hy|Hy]%elem_of_app;
      [by eapply calls_no_Post | by eapply enabling_no_Post]. }
  split; [by rewrite <- app_assoc|]. split; [done|].
  rewrite run_app.
  destruct (run_disabling (run u (calls s)) (Obj.keys (forms this)))
    as (Hw & Hhd & Hk).
  split; [done|]. split; [done|]. split; [done|].
  rewrite app_assoc, run_snoc.
  transitivity
    (S (in_flight
          (run u (calls s ++ enabling false (Obj.keys (forms this))))));
    [done|].
  f_equal. by apply run_in_flight.
Qed.

(** X14.  When the response to a posted request is a success, the
    history panel is refreshed if the page has one, the execute button is
    released and the history form and every step form are enabled again;
    the fields highlighted stay as they were. *)
Theorem success_response_re_enables f log this :
  initialize f = (log, Ret this) ->
  JS.truthy (wf_history_id f) = false ->
  forall pg a u,
    on_success pg this a
    = (if currHistoryPanel pg then [RefreshContents] else [])
      ++ enabling true (Obj.keys (forms this))
    /\ re_enabled this (run (land u) (on_success pg this a))
    /\ highlighted (run (land u) (on_success pg this a)) = highlighted u
    /\ in_flight (run (land u) (on_success pg this a)) = pred (in_flight u).
Proof.
  intros Hi Hid pg a u.
  pose proof (initialize_view _ _ _ Hi) as Hok.
  pose proof Hok as (_ & Hnn & _).
  destruct (initialize_inv _ _ _ Hi) as (_ & _ & _ & Hh & _).
  rewrite Hid in Hh.
  unfold on_success, complete, success.
  rewrite (_enabled_some _ true _ Hh Hnn). cbn [fst tell].
  split; [done|].
  assert (forall y, y ∈ (if currHistoryPanel pg then [RefreshContents] else [])
                    -> y = RefreshContents) as Href.
  { intros y Hy. destruct (currHistoryPanel pg);
      [by apply list_elem_of_singleton in Hy | by apply elem_of_nil in Hy]. }
  split; [|split].
  - rewrite run_app.
    destruct (run_enabling
                (run (land u)
                     (if currHistoryPanel pg then [RefreshContents] else []))
                (Obj.keys (forms this))) as (Hw & Hhd & Hk).
    unfold re_enabled. by repeat split.
  - rewrite run_keeps_highlighted; [done|].
    intros y [Hy|Hy]%elem_of_app; [by rewrite (Href y Hy)|].
    apply elem_of_cons in Hy as [->|Hy]; [done|].
    apply elem_of_cons in Hy as [->|Hy]; [done|].
    by apply list_elem_of_In, in_map_iff in Hy as (e' & <- & _).
  - rewrite run_in_flight; [done|].
    intros y [Hy|Hy]%elem_of_app; [by rewrite (Href y Hy)|].
    by eapply enabling_no_Post.
Qed.

(** X15.  With a pre-selected history nothing is ever posted and no form
    is ever disabled, in any state the form can reach; and after every
    attempt the execute button waits exactly when the validation passed,
    so that a valid submission leaves it waiting with no request under
    way. *)
Theorem preselected_history_never_posts f log this :
  initialize f = (log, Ret this) ->
  JS.truthy (wf_history_id f) = true ->
  forall pg u,
    reachable pg this u ->
    in_flight u = 0%nat /\ disabled u = ∅ /\ history_disabled u = false
    /\ forall create,
         waiting (run u (fst (_execute pg this create)))
         = d (fst (validate this create)).
Proof.
  intros Hi Hid pg u Hu.
  pose proof (initialize_view _ _ _ Hi) as Hok.
  destruct (initialize_inv _ _ _ Hi) as (_ & _ & _ & Hh & _).
  rewrite Hid in Hh.
  destruct (reachable_without_history pg this u Hok Hh Hu) as [Hdis Hfl].
  split; [done|]. split; [done|]. split.
  - clear Hdis Hfl.
    induction Hu as [|u create Hu IH|u data Hu IH|u a Hu IH Hpos
                    |u a Hu IH Hpos].
    + done.
    + rewrite (_execute_none pg _ create Hok Hh). cbn [fst].
      rewrite run_snoc.
      set (s := swept start (visits (steps this) create (forms this))).
      assert (history_disabled (run u (calls s)) = false) as Hc.
      { rewrite run_history_disabled; [done|].
        intros y [Hy|[[e ->]|(e & m & ->)]]%calls_kinds;
          [by apply elem_of_nil in Hy | done | done]. }
      by destruct (d s).
    + rewrite run_history_disabled; [done|].
      intros y Hy. unfold onchange in Hy.
      apply list_elem_of_In, in_flat_map in Hy as ([l v] & _ & Hy).
      by apply in_map_iff in Hy as (fld & <- & _).
    + destruct (reachable_without_history pg this u Hok Hh Hu). lia.
    + destruct (reachable_without_history pg this u Hok Hh Hu). lia.
  - intros create.
    rewrite (validate_swept _ _ Hok), (_execute_none pg _ create Hok Hh).
    cbn [fst]. rewrite run_snoc. by destruct (d _).
Qed.

(** X16.  A response to a posted request only ever refreshes the
    history panel, shows the notice, or releases and enables: whatever the
    payload, neither callback posts again, disables anything, writes a
    field, or resets or highlights a field of a step form (the error
    callback addresses [form], which is not a form of the view).  So the
    fields that are highlighted stay highlighted. *)
Theorem response_only_re_enables f log this :
  initialize f = (log, Ret this) ->
  forall pg a,
    (forall y, y ∈ on_failure pg this a \/ y ∈ on_success pg this a ->
               match y with
               | RefreshContents | GlobalHighlight _ _ | ModalShow _
               | ButtonUnwait | HistoryEnable | PortletEnable _ => True
               | _ => False
               end)
    /\ forall u,
         highlighted (run (land u) (on_failure pg this a)) = highlighted u
         /\ highlighted (run (land u) (on_success pg this a))
            = highlighted u.
Proof.
  intros Hi pg a. pose proof (initialize_view _ _ _ Hi) as Hok.
  assert (forall y, y ∈ fst (complete this) ->
                    match y with
                    | ButtonUnwait | HistoryEnable | PortletEnable _ => True
                    | _ => False
                    end) as Hcomplete.
  { unfold complete. pose proof Hok as (_ & Hnn & _).
    destruct (history_form this) as [hf|] eqn:Hh.
    - rewrite (_enabled_some _ true _ Hh Hnn). simpl. intros y Hy.
      apply elem_of_cons in Hy as [->|Hy]; [done|].
      apply elem_of_cons in Hy as [->|Hy]; [done|].
      by apply list_elem_of_In, in_map_iff in Hy as (e' & <- & _).
    - rewrite (_enabled_none _ true Hh). simpl.
      by intros y ->%list_elem_of_singleton. }
  assert (forall y, y ∈ on_failure pg this a \/ y ∈ on_success pg this a ->
                    match y with
                    | RefreshContents | GlobalHighlight _ _ | ModalShow _
                    | ButtonUnwait | HistoryEnable | PortletEnable _ => True
                    | _ => False
                    end) as Hkinds.
  { intros y [[Hy|Hy]%on_failure_elem|[Hy|Hy]%elem_of_app].
    - unfold error in Hy.
      repeat match type of Hy with
             | context [if ?b then _ else _] => destruct b
             | context [match ?o with _ => _ end] => destruct o
             end; simpl in Hy;
        try (by apply elem_of_nil in Hy);
        by apply list_elem_of_singleton in Hy as ->.
    - apply Hcomplete in Hy. by destruct y.
    - unfold success in Hy. simpl in Hy.
      destruct (currHistoryPanel pg); [|by apply elem_of_nil in Hy].
      by apply list_elem_of_singleton in Hy as ->.
    - apply Hcomplete in Hy. by destruct y. }
  split; [done|].
  intros u. split; (rewrite run_keeps_highlighted; [done|]); intros y Hy.
  - specialize (Hkinds y (or_introl Hy)). by destruct y.
  - specialize (Hkinds y (or_intror Hy)). by destruct y.
Qed.

End Responses.

(** ** The header buttons and the document *)

Lemma each_form_all call fs :
  (forall e a, (e, a) ∈ fs -> is_Some a) ->
  each_form call fs = (List.map call (Obj.keys fs), Ret tt).
Proof.
  induction fs as [|[e a] fs IH]; simpl; intros Hfs; [done|].
  destruct (Hfs e a) as [a' ->]; [left|].
  rewrite IH; [done|]. intros e' b Hin. apply (Hfs e'). by right.
Qed.

Lemma folded_collapse keys : forall s e,
  e ∈ folded s (List.map Collapse keys) <-> e ∈ s \/ e ∈ keys.
Proof.
  induction keys as [|k keys IH]; simpl; intros s e.
  - rewrite elem_of_nil. tauto.
  - unfold folded in *. simpl. rewrite IH.
    rewrite elem_of_union, elem_of_singleton, elem_of_cons. tauto.
Qed.

Lemma folded_expand keys : forall s e,
  e ∈ folded s (List.map Expand keys) <-> e ∈ s /\ e ∉ keys.
Proof.
  induction keys as [|k keys IH]; simpl; intros s e.
  - rewrite elem_of_nil. tauto.
  - unfold folded in *. simpl. rewrite IH.
    rewrite elem_of_difference, elem_of_singleton, not_elem_of_cons. tauto.
Qed.

Lemma filter_step_nodes (ss : Obj.t step) :
  List.filter is_step_form (List.flat_map step_nodes ss)
  = List.map StepFormNode (Obj.keys ss).
Proof.
  induction ss as [|[b a] ss IH]; [done|].
  simpl. rewrite List.filter_app, IH.
  by destruct (post_job_actions a).
Qed.

Lemma step_nodes_no_parameter_form (ss : Obj.t step) :
  ParameterFormNode ∉ List.flat_map step_nodes ss.
Proof.
  induction ss as [|[b a] ss IH]; simpl; [by intros ?%elem_of_nil|].
  rewrite !not_elem_of_cons, not_elem_of_app. repeat split; try done.
  destruct (post_job_actions a); [by intros ?%elem_of_nil|].
  rewrite !not_elem_of_cons. repeat split; try done. by intros ?%elem_of_nil.
Qed.

Section Document.

Context {U : Utils}.

(** X17.  The buttons "Collapse" and "Expand all" reach the portlet of
    the form of every step, once each and in the order in which the
    registry enumerates the step ids, and never fail on a form that was built: after "Collapse" every
    step form is folded, after "Expand all" none is, whatever was folded
    before. *)
Theorem header_buttons_reach_every_form f log this :
  initialize f = (log, Ret this) ->
  collapse_onclick this
  = (List.map Collapse (Obj.keys (forms this)), Ret tt)
  /\ expand_all_onclick this
     = (List.map Expand (Obj.keys (forms this)), Ret tt)
  /\ forall s e,
       e ∈ Obj.keys (forms this) ->
       e ∈ folded s (fst (collapse_onclick this))
       /\ (e ∉ folded s (fst (expand_all_onclick this)))
       /\ (e ∉ folded (folded s (fst (collapse_onclick this)))
                      (fst (expand_all_onclick this))).
Proof.
  intros Hi. pose proof (initialize_view _ _ _ Hi) as (_ & Hnn & _).
  unfold collapse_onclick, expand_all_onclick.
  rewrite !each_form_all by done. cbn [fst].
  split; [done|]. split; [done|].
  intros s e He. rewrite folded_collapse, !folded_expand. tauto.
Qed.

(** X18.  The document shows the form of every registered step once, in
    the order in which the registry enumerates the steps -- the ids below
    2^32 - 1 first and ascending, not the order of the descriptor and not
    the order index --, after the header and before the execute button,
    which comes last.  So when every step id is below 2^32 - 1 the forms
    come in ascending order of the step ids. *)
Theorem document_lists_forms_by_step_id f log this :
  initialize f = (log, Ret this) ->
  List.filter is_step_form (document f this)
  = List.map StepFormNode (Obj.keys (steps this))
  /\ StronglySorted (fun k k' => k <> k' /\ Obj.precedes k' k = false)
                    (Obj.keys (steps this))
  /\ ((forall b, b ∈ wf_steps f -> (step_id b < 4294967295)%N) ->
      StronglySorted N.lt (Obj.keys (steps this)))
  /\ head (document f this)
     = Some (HeaderNode ("Workflow: " +:+ wf_name f)
                        ["Collapse"; "Expand all"])
  /\ last (document f this) = Some (ExecuteButtonNode "Run workflow").
Proof.
  intros Hi.
  destruct (initialize_view _ _ _ Hi) as ((_ & Hord & _) & _).
  unfold document.
  split; [|split; [done|split; [exact (registry_ascending _ _ _ Hi)|split; [done|]]]].
  - rewrite !List.filter_app, filter_step_nodes.
    destruct (decide (wp_inputs this = ∅)), (history_form this); simpl;
      by rewrite app_nil_r.
  - rewrite !app_assoc.
    change [ParagraphNode; ExecuteButtonNode "Run workflow"]
      with ([ParagraphNode] ++ [ExecuteButtonNode "Run workflow"]).
    rewrite app_assoc. apply last_snoc.
Qed.

(** X19.  The form of the workflow parameters is in the document exactly
    when some input of a registered step is a placeholder, and then it
    comes before the form of every step. *)
Theorem parameter_form_precedes_the_steps f log this :
  initialize f = (log, Ret this) ->
  (ParameterFormNode ∈ document f this
   <-> exists c g b, Obj.get (steps this) c = Some g /\ b ∈ inputs g
                     /\ dollar (in_value b) = true)
  /\ forall i j e,
       document f this !! i = Some ParameterFormNode ->
       document f this !! j = Some (StepFormNode e) ->
       (i < j)%nat.
Proof.
  intros Hi. pose proof (initialize_view _ _ _ Hi) as Hok.
  pose proof Hok as (_ & _ & _ & Hp).
  destruct (bound_parameters (scan_list (steps this))) as (_ & Hdom & _).
  assert ((exists c g b, Obj.get (steps this) c = Some g /\ b ∈ inputs g
                         /\ dollar (in_value b) = true)
          -> wp_inputs this <> ∅) as Hsome.
  { rewrite Hp. intros (c & g & b & Hg & Hb & Hd) He.
    assert (is_Some (parameters (bound (scan_list (steps this)))
                     !! label b)) as [p Hl]; [|by rewrite He in Hl].
    apply Hdom, elem_of_first_seen, elem_of_names. exists c, b.
    split; [|done]. apply (view_scan_elem _ _ _ Hok). by exists g. }
  assert (wp_inputs this <> ∅
          -> exists c g b, Obj.get (steps this) c = Some g /\ b ∈ inputs g
                           /\ dollar (in_value b) = true) as Hnone.
  { rewrite Hp. intros (l & p & Hl)%map_choose.
    assert (is_Some (parameters (bound (scan_list (steps this))) !! l)) as Hs
      by (by eexists).
    apply Hdom, elem_of_first_seen, elem_of_names in Hs
      as (c & b & Hin & Hd & _).
    apply (view_scan_elem _ _ _ Hok) in Hin as (g & Hg & Hb).
    by exists c, g, b. }
  assert (ParameterFormNode
          ∉ List.flat_map step_nodes (steps this)
            ++ match history_form this with
               | Some _ => [ParagraphNode; HistoryFormNode]
               | None => []
               end
            ++ [ParagraphNode; ExecuteButtonNode "Run workflow"]) as Hrest.
  { rewrite !not_elem_of_app. split; [apply step_nodes_no_parameter_form|].
    split.
    - destruct (history_form this); [|by intros ?%elem_of_nil].
      rewrite !not_elem_of_cons. repeat split; try done.
      by intros ?%elem_of_nil.
    - rewrite !not_elem_of_cons. repeat split; try done.
      by intros ?%elem_of_nil. }
  unfold document. destruct (decide (wp_inputs this = ∅)) as [He|Hne].
  - split.
    + split.
      * intros [Hin|Hin]%elem_of_cons; [done | by destruct Hrest].
      * intros Hex. by apply Hsome in Hex.
    + intros [|i] j e Hi'; [done|]. simpl in Hi'.
      destruct Hrest. by eapply list_elem_of_lookup_2.
  - split.
    + split.
      * intros _. by apply Hnone.
      * intros _. right. right. left.
    + intros i j e Hi' Hj.
      destruct i as [|[|[|i]]]; [done|done| |].
      * destruct j as [|[|[|j]]]; [done|done|done|lia].
      * simpl in Hi'. destruct Hrest. by eapply list_elem_of_lookup_2.
Qed.

End Document.

(** ** The three passes over the inputs of a tool *)

(** Every input of a normalized step comes from an input of the step: the
    callback of [deepeach] then, when there are connections under its
    name, that of [matchIds] went over it, and the callback of
    [matchContext] only touched [is_workflow]. *)
Lemma normalize_node b x :
  x ∈ all_inputs (inputs (normalize b)) ->
  exists x0,
    x0 ∈ all_inputs (inputs b)
    /\ let x1 := deepeach_callback x0 in
       let x2 := match input_connections_by_name b !! in_name x1 with
                 | Some a => matchIds_callback a x1
                 | None => x1
                 end in
       in_id x = in_id x0 /\ in_name x = in_name x0
       /\ in_type x = in_type x2 /\ in_value x = in_value x2
       /\ in_collapsible x = in_collapsible x1
       /\ in_collapsible_value x = in_collapsible_value x1
       /\ in_collapsible_preview x = in_collapsible_preview x1.
Proof.
  unfold normalize, matchContext, matchIds, deepeach. simpl.
  intros Hx.
  apply all_inputs_deep in Hx as (x2 & Hx2 & ->).
  apply all_inputs_deep in Hx2 as (x1 & Hx1 & ->).
  apply all_inputs_deep in Hx1 as (x0 & Hx0 & ->).
  exists x0. split; [done|].
  assert (in_id (deepeach_callback x0) = in_id x0
          /\ in_name (deepeach_callback x0) = in_name x0) as [Hid Hname].
  { unfold deepeach_callback.
    repeat match goal with
           | |- context [if ?c then _ else _] => destruct c
           end; done. }
  simpl.
  destruct (input_connections_by_name b !! in_name (deepeach_callback x0))
    as [a|]; simpl;
    (destruct (in_data_ref _) as [r|]; simpl;
     [destruct (List.find _ _) as [b'|]|]); simpl; by repeat split.
Qed.



Lemma deepeach_callback_collapsible a :
  if literal a
  then in_collapsible (deepeach_callback a) = true
       /\ in_collapsible_value (deepeach_callback a) = in_value a
       /\ in_collapsible_preview (deepeach_callback a) = true
  else in_collapsible (deepeach_callback a) = in_collapsible a
       /\ in_collapsible_value (deepeach_callback a) = in_collapsible_value a
       /\ in_collapsible_preview (deepeach_callback a)
          = in_collapsible_preview a.
Proof.
  unfold literal, deepeach_callback, runtime, data_type, type_given.
  destruct (in_type a) as [t|] eqn:Ht; simpl; [|done].
  destruct (negb (String.eqb t "")); simpl; [|done].
  destruct (JS.truthy (in_options a)
            && JS.is_zero (JS.get (in_options a) "length")); simpl;
    (destruct (JS.truthy (in_value a)
               && JS.eq_literal "RuntimeValue"
                                (JS.get (in_value a) "__class__")); simpl;
     [done|]);
    rewrite Ht;
    destruct (String.eqb t "data" || String.eqb t "data_collection"); simpl;
    try done;
    by destruct (dollar (in_value a)).
Qed.

Section Passes.

Context {U : Utils}.


(** X21.  The normalization marks an input of a tool as collapsible, with
    its value as the collapsed value, exactly when the input has a type
    other than data or data collection and its value is neither a runtime
    value nor a placeholder; the marks of every other input stay as the
    descriptor has them.  A connection found for the input afterwards does
    not take the marks back. *)
Theorem literal_inputs_are_collapsible f log this :
  initialize f = (log, Ret this) ->
  forall c g x,
    Obj.get (steps this) c = Some g ->
    step_type g = "tool" ->
    x ∈ all_inputs (inputs g) ->
    exists b x0,
      b ∈ wf_steps f /\ x0 ∈ all_inputs (inputs b)
      /\ in_id x = in_id x0 /\ in_name x = in_name x0
      /\ if literal x0
         then in_collapsible x = true
              /\ in_collapsible_value x = in_value x0
              /\ in_collapsible_preview x = true
         else in_collapsible x = in_collapsible x0
              /\ in_collapsible_value x = in_collapsible_value x0
              /\ in_collapsible_preview x = in_collapsible_preview x0.
Proof.
  intros Hi c g x Hg Htool Hx.
  destruct (tool_step_normalized _ _ _ _ _ Hi Hg Htool) as (f' & b & Hb & ->).
  apply normalize_node in Hx as (x0 & Hx0 & Hx). simpl in Hx.
  destruct Hx as (Hid & Hname & _ & _ & -> & -> & ->).
  exists b, x0. repeat split; try done.
  apply deepeach_callback_collapsible.
Qed.

End Passes.

(** ** The name of a placeholder *)

Lemma substring_prefix s t :
  String.substring 0 (String.length s) (s +:+ t) = s.
Proof.
  induction s as [|a s IH].
  - rewrite append_nil. by destruct t.
  - rewrite append_cons. simpl. by rewrite IH.
Qed.

Lemma substring_head c r : JS.substring (String c r) 0 1 = String c "".
Proof.
  unfold JS.substring. simpl String.length. cbv zeta.
  match goal with
  | |- String.substring (Z.to_nat ?f) (Z.to_nat ?t) _ = _ =>
      replace (Z.to_nat f) with 0%nat by lia;
      replace (Z.to_nat t) with 1%nat by lia
  end.
  simpl. by destruct r.
Qed.

Lemma substring_middle c a name z :
  JS.substring (String c (String a (name +:+ String z ""))) 2
               (JS.length (String c (String a (name +:+ String z ""))) - 1)
  = name.
Proof.
  unfold JS.substring, JS.length. simpl String.length.
  rewrite append_length. simpl String.length. cbv zeta.
  match goal with
  | |- String.substring (Z.to_nat ?f) (Z.to_nat ?t) _ = _ =>
      replace (Z.to_nat f) with 2%nat by lia;
      replace (Z.to_nat t) with (String.length name) by lia
  end.
  simpl. apply substring_prefix.
Qed.

(** X22.  The name of a placeholder is what stands between its first two
    characters and its last one, whatever these three characters are: the
    view tests the first for [$] only.  So "${name}" names [name]; a
    placeholder of two characters names its second character, the bounds
    of the substring being swapped; and a lone [$] names itself. *)
Theorem placeholder_name_by_length {U : Utils} (b : input) (a z : ascii)
    (name : string) :
  let long := JS.VStr (String "$" (String a (name +:+ String z ""))) in
  let short := JS.VStr (String "$" (String a "")) in
  let lone := JS.VStr "$" in
  (dollar long = true /\ label (set_value long b) = sanitize (JS.VStr name))
  /\ (dollar short = true
      /\ label (set_value short b) = sanitize (JS.VStr (String a "")))
  /\ (dollar lone = true /\ label (set_value lone b) = sanitize lone).
Proof.
  intros long short lone.
  assert (forall r, dollar (JS.VStr (String "$" r)) = true) as Hd.
  { intros r. unfold dollar. simpl JS.String. by rewrite substring_head. }
  split; [split; [apply Hd|]|split; split; try apply Hd; reflexivity].
  unfold label, long. simpl in_value. simpl JS.String.
  by rewrite substring_middle.
Qed.

(** ** The further properties on the sample workflows *)

Lemma blend_view_built :
  initialize (U:=text_utils) blend_workflow
  = (fst (initialize (U:=text_utils) blend_workflow), Ret blend_view).
Proof. vm_compute. reflexivity. Qed.

Lemma twin_view_built :
  initialize (U:=text_utils) twin_workflow
  = (fst (initialize (U:=text_utils) twin_workflow), Ret twin_view).
Proof. vm_compute. reflexivity. Qed.


Lemma preselected_view_built :
  initialize (U:=text_utils)
    (paint_workflow "${color}" (JS.VStr "1cd8e2f6b131e891"))
  = (fst (initialize (U:=text_utils)
            (paint_workflow "${color}" (JS.VStr "1cd8e2f6b131e891"))),
     Ret preselected_view).
Proof. vm_compute. reflexivity. Qed.

(** The ids of the inputs of each step of a view are distinct when they
    are so step by step. *)
Lemma steps_ids_NoDup (this : view) :
  Forall (fun cg => NoDup (List.map in_id (inputs (snd cg)))) (steps this) ->
  forall c g, Obj.get (steps this) c = Some g ->
              NoDup (List.map in_id (inputs g)).
Proof.
  rewrite Forall_forall. intros Hall c g Hg.
  apply (Hall (c, g)). by apply Obj_get_elem.
Qed.

Lemma registry_keeps_last_step_witness :
  Obj.get (steps twin_view) 2 = Some (fst (prepare_step 2 adapters_step))
  /\ Obj.get (forms twin_view) 2
     = Some (form_of (fst (prepare_step 2 adapters_step)))
  /\ is_Some (form_of (fst (prepare_step 2 adapters_step)))
  /\ step_name (fst (prepare_step 2 adapters_step)) = "Step 3: Adapters"
  /\ collapsed (fst (prepare_step 2 adapters_step)) = true.
Proof.
  refine (registry_keeps_last_step (U:=text_utils) twin_workflow _ _
            twin_view_built [trim_step; reads_step] adapters_step []
            eq_refl _).
  by intros b' ?%elem_of_nil.
Defined.

Lemma registry_keys_are_the_step_ids_witness :
  Obj.keys (forms twin_view) = Obj.keys (steps twin_view)
  /\ (forall e, e ∈ Obj.keys (steps twin_view)
                <-> exists b, b ∈ wf_steps twin_workflow /\ step_id b = e)
  /\ StronglySorted (fun k k' => k <> k' /\ Obj.precedes k' k = false)
                    (Obj.keys (steps twin_view))
  /\ List.filter large (Obj.keys (steps twin_view))
     = first_met (List.filter large (List.map step_id
                                               (wf_steps twin_workflow)))
  /\ StronglySorted N.lt (Obj.keys (steps twin_view)).
Proof.
  destruct (registry_keys_are_the_step_ids (U:=text_utils) twin_workflow _ _
              twin_view_built) as (Hk & He & Ho & Hl & Hs).
  split; [exact Hk|]. split; [exact He|]. split; [exact Ho|].
  split; [exact Hl|].
  apply Hs. apply Forall_forall. apply (bool_decide_unpack _).
  vm_compute. exact I.
Defined.

(** Ids from 2^32 - 1 on keep the order in which they were put, after the
    array indices. *)
Example large_ids_keep_their_order :
  Obj.keys (steps (built (U:=text_utils)
                     (Workflow "w" "Wide" JS.VUndefined
                               [reads_under 5000000000; reads_under 3;
                                reads_under 4294967295; reads_under 2;
                                reads_under 5000000000])))
  = [2%N; 3%N; 5000000000%N; 4294967295%N].
Proof. vm_compute. reflexivity. Qed.

Example twin_registry :
  Obj.keys (steps twin_view) = [2%N; 7%N]
  /\ List.map (fun cg => step_name (snd cg)) (steps twin_view)
     = ["Step 3: Adapters"; "Step 2: Reads"].
Proof. vm_compute. split; reflexivity. Qed.

Lemma parameter_comes_from_first_placeholder_witness :
  wp_inputs blend_view !! "size"
  = Some (WorkflowParameter (Some "integer") JS.VUndefined "size" "size"
                            (color 2)).
Proof.
  refine (parameter_comes_from_first_placeholder (U:=text_utils)
            blend_workflow _ _ blend_view_built
            [(3%N, plain_input "left" "text" (JS.VStr "${color}"))]
            3%N (plain_input "width" "integer" (JS.VStr "${size}"))
            [(3%N, plain_input "right" "text" (JS.VStr "${color}"))] _ _ _).
  - vm_compute. reflexivity.
  - reflexivity.
  - intros c' b' Hin%list_elem_of_singleton _. injection Hin as -> ->.
    vm_compute. discriminate.
Defined.

Lemma target_has_one_parameter_witness :
  StepField 3 "left" ∈ default [] (wp_targets blend_view !! "color")
  /\ (StepField 3 "left" ∉ default [] (wp_targets blend_view !! "size")).
Proof.
  assert (StepField 3 "left" ∈ default [] (wp_targets blend_view !! "color"))
    as Hin by (vm_compute; left).
  split; [exact Hin|].
  refine (target_has_one_parameter (U:=text_utils) blend_workflow _ _
            blend_view_built _ (StepField 3 "left") "color" "size" Hin _).
  - apply steps_ids_NoDup. apply (bool_decide_unpack _). vm_compute. exact I.
  - discriminate.
Defined.

Lemma blend_ids_NoDup c g :
  Obj.get (steps blend_view) c = Some g -> NoDup (List.map in_id (inputs g)).
Proof.
  apply steps_ids_NoDup. apply (bool_decide_unpack _). vm_compute. exact I.
Qed.

Lemma build_marks_the_targets_witness :
  exists p, wp_inputs paint_view !! "color" = Some p
            /\ FieldValue (StepField 1 "tint") "color"
               ∈ fst (initialize (U:=text_utils)
                        (paint_workflow "${color}" JS.VUndefined))
            /\ ElementDisable (StepField 1 "tint")
               ∈ fst (initialize (U:=text_utils)
                        (paint_workflow "${color}" JS.VUndefined))
            /\ Style (StepField 1 "tint") (p_color p) "ui-form-wp-target"
               ∈ fst (initialize (U:=text_utils)
                        (paint_workflow "${color}" JS.VUndefined))
            /\ Style (ParameterField "color") (p_color p) "ui-form-wp-source"
               ∈ fst (initialize (U:=text_utils)
                        (paint_workflow "${color}" JS.VUndefined)).
Proof.
  refine (proj1 (build_marks_the_targets (U:=text_utils) _ _ _
                   paint_view_built)
            1%N (fst (prepare_step 1 (paint_step "${color}")))
            (plain_input "tint" "text" (JS.VStr "${color}")) _ _ _).
  - vm_compute. reflexivity.
  - vm_compute. left.
  - reflexivity.
Defined.

Example build_log_of_paint :
  fst (initialize (U:=text_utils) (paint_workflow "${color}" JS.VUndefined))
  = [FieldValue (StepField 1 "tint") "color";
     ElementDisable (StepField 1 "tint");
     Style (StepField 1 "tint") "hsl( 100, 70%, 30% )" "ui-form-wp-target";
     Style (ParameterField "color") "hsl( 100, 70%, 30% )"
           "ui-form-wp-source"].
Proof. vm_compute. reflexivity. Qed.

Lemma change_sets_what_targets_show_witness :
  shown blank
        (onchange (U:=text_utils) blend_view
                  [("size", JS.VStr ""); ("color", JS.VStr "red")])
        (StepField 3 "right")
  = Some "red"
  /\ shown blank
           (onchange (U:=text_utils) blend_view
                     [("size", JS.VStr ""); ("color", JS.VStr "red")])
           (StepField 3 "width")
     = Some "size".
Proof.
  destruct (change_sets_what_targets_show (U:=text_utils) blend_workflow _ _
              blend_view_built blend_ids_NoDup
              [("size", JS.VStr ""); ("color", JS.VStr "red")] blank)
    as (Hset & _ & _).
  - apply (bool_decide_unpack _). vm_compute. exact I.
  - split.
    + apply (Hset "color" (JS.VStr "red")); [right; left | vm_compute].
      right. left.
    + apply (Hset "size" (JS.VStr "")); [left | vm_compute]. left.
Defined.

Lemma emptied_parameter_shows_its_name_witness :
  (forall st, shown st (fst (initialize (U:=text_utils) blend_workflow))
                    (StepField 3 "left") = Some "color")
  /\ forall data b st,
       NoDup (List.map fst data) -> ("color", b) ∈ data ->
       sanitize (Utils:=text_utils) b = "" ->
       shown st (onchange (U:=text_utils) blend_view data)
             (StepField 3 "left") = Some "color".
Proof.
  refine (emptied_parameter_shows_its_name (U:=text_utils) blend_workflow _ _
            blend_view_built blend_ids_NoDup "color" (StepField 3 "left") _).
  vm_compute. left.
Defined.

Lemma rejected_exactly_when_highlighting_witness :
  d (fst (validate paint_view (paint_data JS.VNull (JS.VStr "red")))) = false
  <-> exists e m,
        FormHighlight e m
        ∈ fst (_execute a_page paint_view
                        (paint_data JS.VNull (JS.VStr "red"))).
Proof.
  exact (rejected_exactly_when_highlighting (U:=text_utils) _ _ _
           paint_view_built a_page (paint_data JS.VNull (JS.VStr "red"))).
Defined.

Example both_fields_highlighted :
  highlights (fst (_execute a_page paint_view (paint_data JS.VNull JS.VNull)))
  = [(0%N, "input"); (1%N, "tint")].
Proof. vm_compute. reflexivity. Qed.

Lemma later_highlights_are_tool_fields_witness :
  exists g, Obj.get (steps paint_view) 1 = Some g
            /\ data_input_type (step_type g) = false.
Proof.
  refine (later_highlights_are_tool_fields (U:=text_utils) _ _ _
            paint_view_built a_page (paint_data JS.VNull JS.VNull)
            0%nat 1%N "tint" _).
  vm_compute. reflexivity.
Defined.

Lemma attempt_replaces_highlights_witness :
  (forall e m,
      (e, m)
      ∈ highlighted
          (run (run fresh
                    (fst (_execute a_page paint_view
                                   (paint_data JS.VNull JS.VNull))))
               (fst (_execute a_page paint_view
                              (paint_data a_dataset (JS.VStr "red")))))
      <-> FormHighlight e m
          ∈ fst (_execute a_page paint_view
                          (paint_data a_dataset (JS.VStr "red"))))
  /\ (d (fst (validate paint_view (paint_data a_dataset (JS.VStr "red"))))
      = true ->
      highlighted
        (run (run fresh
                  (fst (_execute a_page paint_view
                                 (paint_data JS.VNull JS.VNull))))
             (fst (_execute a_page paint_view
                            (paint_data a_dataset (JS.VStr "red")))))
      = []).
Proof.
  refine (attempt_replaces_highlights (U:=text_utils) _ _ _ paint_view_built
            a_page
            (run fresh
                 (fst (_execute a_page paint_view
                                (paint_data JS.VNull JS.VNull))))
            (paint_data a_dataset (JS.VStr "red")) _).
  apply (reach_execute (U:=text_utils)). apply reach_fresh.
Defined.

Lemma request_input_is_first_selected_value_witness :
  rq_inputs (c (fst (validate late_input_view late_input_filled))) !! 0%N
  = Some (JS.VObj [("id", JS.VStr "bbd44e69cb8906b5");
                   ("src", JS.VStr "hda")]).
Proof.
  refine (request_input_is_first_selected_value (U:=text_utils) _ _ _
            late_input_view_built late_input_filled
            (firstn 3 (visits (steps late_input_view) late_input_filled
                              (forms late_input_view)))
            2%N
            (fst (prepare_step 1
                    (Step 2 "data_input" 0 "Mask" JS.VUndefined
                          JS.VUndefined false
                          [plain_input "input" "data" JS.VNull] ∅ [])))
            (Entry "input" (plain_input "input" "data" JS.VNull) a_dataset)
            [] _ _ _ _).
  - vm_compute. reflexivity.
  - reflexivity.
  - reflexivity.
  - by intros e' g' x' ?%elem_of_nil.
Defined.

Lemma accepted_attempt_disables_then_posts_witness :
  exists w,
    _execute a_page paint_view (paint_data a_dataset (JS.VStr "red"))
    = (w ++ [Post (url a_page paint_view)
                  (c (fst (validate paint_view
                             (paint_data a_dataset (JS.VStr "red")))))],
       Ret tt)
    /\ (forall y, y ∈ w -> is_Post y = false)
    /\ waiting (run fresh w) = true
    /\ history_disabled (run fresh w) = true
    /\ (forall e, e ∈ Obj.keys (forms paint_view) ->
                  e ∈ disabled (run fresh w))
    /\ in_flight (run fresh
                      (fst (_execute a_page paint_view
                                     (paint_data a_dataset (JS.VStr "red")))))
       = 1%nat.
Proof.
  refine (accepted_attempt_disables_then_posts (U:=text_utils) _ _ _
            paint_view_built _ a_page (paint_data a_dataset (JS.VStr "red"))
            fresh _).
  - reflexivity.
  - vm_compute. reflexivity.
Defined.

Example accepted_attempt_calls :
  fst (_execute a_page paint_view (paint_data a_dataset (JS.VStr "red")))
  = [FormReset 0; FormReset 1; ButtonWait; HistoryDisable;
     PortletDisable 0; PortletDisable 1;
     Post "/api/workflows/f2db41e1fa331b3e/invocations"
          (c (fst (validate paint_view
                     (paint_data a_dataset (JS.VStr "red")))))].
Proof. vm_compute. reflexivity. Qed.

Lemma success_response_re_enables_witness :
  on_success a_page paint_view JS.VNull
  = (if currHistoryPanel a_page then [RefreshContents] else [])
    ++ enabling true (Obj.keys (forms paint_view))
  /\ re_enabled paint_view
       (run (land (run fresh
                       (fst (_execute a_page paint_view
                                      (paint_data a_dataset (JS.VStr "red"))))))
            (on_success a_page paint_view JS.VNull))
  /\ highlighted
       (run (land (run fresh
                       (fst (_execute a_page paint_view
                                      (paint_data a_dataset (JS.VStr "red"))))))
            (on_success a_page paint_view JS.VNull))
     = highlighted
         (run fresh
              (fst (_execute a_page paint_view
                             (paint_data a_dataset (JS.VStr "red")))))
  /\ in_flight
       (run (land (run fresh
                       (fst (_execute a_page paint_view
                                      (paint_data a_dataset (JS.VStr "red"))))))
            (on_success a_page paint_view JS.VNull))
     = pred (in_flight
               (run fresh
                    (fst (_execute a_page paint_view
                                   (paint_data a_dataset (JS.VStr "red")))))).
Proof.
  refine (success_response_re_enables (U:=text_utils) _ _ _ paint_view_built
            _ a_page JS.VNull
            (run fresh
                 (fst (_execute a_page paint_view
                                (paint_data a_dataset (JS.VStr "red")))))).
  reflexivity.
Defined.

Lemma preselected_history_never_posts_witness :
  in_flight (run fresh
                 (fst (_execute a_page preselected_view
                                (paint_data a_dataset (JS.VStr "red")))))
  = 0%nat
  /\ disabled (run fresh
                   (fst (_execute a_page preselected_view
                                  (paint_data a_dataset (JS.VStr "red")))))
     = ∅
  /\ history_disabled
       (run fresh
            (fst (_execute a_page preselected_view
                           (paint_data a_dataset (JS.VStr "red")))))
     = false
  /\ forall create,
       waiting
         (run (run fresh
                   (fst (_execute a_page preselected_view
                                  (paint_data a_dataset (JS.VStr "red")))))
              (fst (_execute a_page preselected_view create)))
       = d (fst (validate preselected_view create)).
Proof.
  refine (preselected_history_never_posts (U:=text_utils) _ _ _
            preselected_view_built _ a_page
            (run fresh
                 (fst (_execute a_page preselected_view
                                (paint_data a_dataset (JS.VStr "red")))))
            _).
  - reflexivity.
  - apply (reach_execute (U:=text_utils)). apply reach_fresh.
Defined.

Example button_left_waiting :
  waiting (run fresh
               (fst (_execute a_page preselected_view
                              (paint_data a_dataset (JS.VStr "red")))))
  = true.
Proof. vm_compute. reflexivity. Qed.

Lemma response_only_re_enables_witness :
  (forall y, y ∈ on_failure a_page paint_view field_error
             \/ y ∈ on_success a_page paint_view field_error ->
             match y with
             | RefreshContents | GlobalHighlight _ _ | ModalShow _
             | ButtonUnwait | HistoryEnable | PortletEnable _ => True
             | _ => False
             end)
  /\ forall u,
       highlighted (run (land u) (on_failure a_page paint_view field_error))
       = highlighted u
       /\ highlighted (run (land u)
                           (on_success a_page paint_view field_error))
          = highlighted u.
Proof.
  exact (response_only_re_enables (U:=text_utils) _ _ _ paint_view_built
           a_page field_error).
Defined.

Lemma header_buttons_reach_every_form_witness :
  collapse_onclick paint_view
  = (List.map Collapse (Obj.keys (forms paint_view)), Ret tt)
  /\ expand_all_onclick paint_view
     = (List.map Expand (Obj.keys (forms paint_view)), Ret tt)
  /\ forall s e,
       e ∈ Obj.keys (forms paint_view) ->
       e ∈ folded s (fst (collapse_onclick paint_view))
       /\ (e ∉ folded s (fst (expand_all_onclick paint_view)))
       /\ (e ∉ folded (folded s (fst (collapse_onclick paint_view)))
                      (fst (expand_all_onclick paint_view))).
Proof.
  exact (header_buttons_reach_every_form (U:=text_utils) _ _ _
           paint_view_built).
Defined.

Lemma document_lists_forms_by_step_id_witness :
  List.filter is_step_form (document twin_workflow twin_view)
  = List.map StepFormNode (Obj.keys (steps twin_view))
  /\ StronglySorted (fun k k' => k <> k' /\ Obj.precedes k' k = false)
                    (Obj.keys (steps twin_view))
  /\ StronglySorted N.lt (Obj.keys (steps twin_view))
  /\ head (document twin_workflow twin_view)
     = Some (HeaderNode ("Workflow: " +:+ wf_name twin_workflow)
                        ["Collapse"; "Expand all"])
  /\ last (document twin_workflow twin_view)
     = Some (ExecuteButtonNode "Run workflow").
Proof.
  destruct (document_lists_forms_by_step_id (U:=text_utils) _ _ _
              twin_view_built) as (Hf & Ho & Hs & Hh & Hl).
  split; [exact Hf|]. split; [exact Ho|]. split; [|by split].
  apply Hs. apply Forall_forall. apply (bool_decide_unpack _).
  vm_compute. exact I.
Defined.

Example document_of_twins :
  document twin_workflow twin_view
  = [HeaderNode "Workflow: Twins" ["Collapse"; "Expand all"];
     ParagraphNode; StepFormNode 2; BoltNode; TextNode " Rename Hide";
     ParagraphNode; StepFormNode 7;
     ParagraphNode; HistoryFormNode;
     ParagraphNode; ExecuteButtonNode "Run workflow"].
Proof. vm_compute. reflexivity. Qed.

Lemma parameter_form_precedes_the_steps_witness :
  (ParameterFormNode
   ∈ document (paint_workflow "${color}" JS.VUndefined) paint_view
   <-> exists c g b, Obj.get (steps paint_view) c = Some g /\ b ∈ inputs g
                     /\ dollar (in_value b) = true)
  /\ forall i j e,
       document (paint_workflow "${color}" JS.VUndefined) paint_view !! i
       = Some ParameterFormNode ->
       document (paint_workflow "${color}" JS.VUndefined) paint_view !! j
       = Some (StepFormNode e) ->
       (i < j)%nat.
Proof.
  exact (parameter_form_precedes_the_steps (U:=text_utils) _ _ _
           paint_view_built).
Defined.

Example document_of_paint :
  document (paint_workflow "${color}" JS.VUndefined) paint_view
  = [HeaderNode "Workflow: Paint" ["Collapse"; "Expand all"];
     ParagraphNode; ParameterFormNode;
     ParagraphNode; StepFormNode 0;
     ParagraphNode; StepFormNode 1;
     ParagraphNode; HistoryFormNode;
     ParagraphNode; ExecuteButtonNode "Run workflow"].
Proof. vm_compute. reflexivity. Qed.


Lemma literal_inputs_are_collapsible_witness :
  exists b x0,
    b ∈ wf_steps (paint_workflow "${color}" JS.VUndefined)
    /\ x0 ∈ all_inputs (inputs b)
    /\ in_id (set_collapsible (plain_input "title" "text" (JS.VStr "sunset")))
       = in_id x0
    /\ in_name (set_collapsible
                  (plain_input "title" "text" (JS.VStr "sunset")))
       = in_name x0
    /\ if literal x0
       then in_collapsible
              (set_collapsible (plain_input "title" "text" (JS.VStr "sunset")))
            = true
            /\ in_collapsible_value
                 (set_collapsible
                    (plain_input "title" "text" (JS.VStr "sunset")))
               = in_value x0
            /\ in_collapsible_preview
                 (set_collapsible
                    (plain_input "title" "text" (JS.VStr "sunset")))
               = true
       else in_collapsible
              (set_collapsible (plain_input "title" "text" (JS.VStr "sunset")))
            = in_collapsible x0
            /\ in_collapsible_value
                 (set_collapsible
                    (plain_input "title" "text" (JS.VStr "sunset")))
               = in_collapsible_value x0
            /\ in_collapsible_preview
                 (set_collapsible
                    (plain_input "title" "text" (JS.VStr "sunset")))
               = in_collapsible_preview x0.
Proof.
  refine (literal_inputs_are_collapsible (U:=text_utils) _ _ _
            paint_view_built 1%N (fst (prepare_step 1 (paint_step "${color}")))
            (set_collapsible (plain_input "title" "text" (JS.VStr "sunset")))
            _ _ _).
  - vm_compute. reflexivity.
  - reflexivity.
  - vm_compute. right. left.
Defined.

(** ** Texts built by [_.reduce] *)

Lemma append_assoc' a b t : (a +:+ b) +:+ t = a +:+ b +:+ t.
Proof.
  induction a as [|x a IH]; [by rewrite !append_nil|].
  by rewrite !append_cons, IH.
Qed.

Lemma append_not_empty a x b : a +:+ String x b <> "".
Proof.
  intros Heq. apply (f_equal String.length) in Heq.
  rewrite append_length in Heq. simpl in Heq. lia.
Qed.

Lemma concat_empty_cons x l :
  String.concat "" (x :: l) = x +:+ String.concat "" l.
Proof.
  destruct l as [|y l].
  - simpl. induction x as [|c x IHx]; [done|].
    by rewrite append_cons, <- IHx.
  - change (String.concat "" (x :: y :: l))
      with (x +:+ "" +:+ String.concat "" (y :: l)).
    by rewrite append_nil.
Qed.

Lemma string_concat_cons sep x l :
  String.concat sep (x :: l)
  = x +:+ String.concat "" (List.map (String.append sep) l).
Proof.
  revert x. induction l as [|y l IH]; intros x.
  - simpl. induction x as [|c x IHx]; [done|].
    by rewrite append_cons, <- IHx.
  - change (String.concat sep (x :: y :: l))
      with (x +:+ sep +:+ String.concat sep (y :: l)).
    rewrite IH. f_equal.
    by rewrite List.map_cons, concat_empty_cons, append_assoc'.
Qed.

Lemma mention_not_empty b : mention b <> "".
Proof.
  unfold mention. intros Heq. apply (f_equal String.length) in Heq.
  rewrite append_length in Heq. simpl in Heq. lia.
Qed.

Lemma provenance_fold cs : forall acc,
  acc <> "" ->
  fold_left
    (fun acc b =>
       (if String.eqb acc "" then acc else acc +:+ ", ")
       +:+ "Output dataset '" +:+ output_name b
       +:+ "' from step " +:+ pretty (conn_order_index b))
    cs acc
  = acc +:+ String.concat ""
              (List.map (String.append ", ") (List.map mention cs)).
Proof.
  induction cs as [|b cs IH]; intros acc Hacc.
  - simpl. induction acc as [|c acc IHa]; [done|].
    rewrite append_cons. f_equal.
    destruct acc; [done|]. by apply IHa.
  - simpl fold_left. fold (mention b).
    destruct (String.eqb_spec acc "") as [->|_]; [done|].
    rewrite IH.
    + rewrite !List.map_cons, concat_empty_cons. by rewrite !append_assoc'.
    + rewrite append_assoc'. apply append_not_empty.
Qed.

(** X23.  The help text of a connected input is the list of its
    connections, "Output dataset '<name>' from step <index>" for each,
    separated by a comma and a space, in the order of the connections. *)
Theorem provenance_lists_the_connections (cs : list connection) :
  provenance cs = String.concat ", " (List.map mention cs).
Proof.
  destruct cs as [|b cs]; [done|].
  unfold provenance. simpl fold_left. fold (mention b).
  rewrite append_nil, List.map_cons, string_concat_cons.
  apply provenance_fold, mention_not_empty.
Qed.


Section Actions.

Context {U : Utils}.


(** X25.  The sub-map of a tool step in the request holds nothing but
    values of the form of that step that passed the check, each under
    its key (the keys of the form data being distinct). *)
Theorem request_parameters_are_checked_values f log this :
  initialize f = (log, Ret this) ->
  forall create e g k v,
    Obj.get (steps this) e = Some g ->
    step_type g = "tool" ->
    NoDup (List.map e_key (create e)) ->
    sub (fst (validate this create)) (step_id g) !! k = Some v ->
    exists x, x ∈ create e /\ e_key x = k /\ e_value x = v
              /\ required_empty x = false.
Proof.
  intros Hi create e g k v Hg Htool Hnd.
  pose proof (initialize_view _ _ _ Hi) as Hok.
  rewrite (validate_swept _ _ Hok). simpl.
  assert (data_input_type (step_type g) = false) as Hdt by (by rewrite Htool).
  destruct (view_step_form _ _ _ Hok Hg) as [Hid He].
  destruct (view_form_block this create e g Hok Hg) as (A & B & Hv & Hsub).
  destruct (tool_items_parameters e g (create e)
              (open_form e g (swept start A)) Hdt Hnd) as [Hw Hk].
  assert (sub (swept start (visits (steps this) create (forms this)))
              (step_id g)
          = sub (fold_left (check e g) (create e)
                           (open_form e g (swept start A))) (step_id g))
    as -> by (unfold sub; by rewrite Hid, Hsub).
  destruct (decide (Exists (fun x => required_empty x = false /\ e_key x = k)
                           (create e))) as [Hex|Hno].
  - apply Exists_exists in Hex as (x & Hx & Hre & <-).
    rewrite (Hw x Hx Hre). intros [= <-]. by exists x.
  - rewrite Hk.
    + unfold sub, open_form. simpl. by rewrite lookup_insert_eq.
    + intros x Hx Hre Hkey. apply Hno, Exists_exists. by exists x.
Qed.

End Actions.

Lemma provenance_lists_the_connections_example :
  provenance [Connection "out_file1" 2; Connection "output" 3]
  = "Output dataset 'out_file1' from step 2, Output dataset 'output' from step 3".
Proof. vm_compute. reflexivity. Qed.


Lemma request_parameters_are_checked_values_witness :
  exists x, x ∈ paint_data a_dataset (JS.VStr "red") 1
            /\ e_key x = "tint" /\ e_value x = JS.VStr "red"
            /\ required_empty x = false.
Proof.
  refine (request_parameters_are_checked_values (U:=text_utils) _ _ _
            paint_view_built (paint_data a_dataset (JS.VStr "red")) 1%N
            (fst (prepare_step 1 (paint_step "${color}")))
            "tint" (JS.VStr "red") _ _ _ _).
  - vm_compute. reflexivity.
  - reflexivity.
  - apply (bool_decide_unpack _). vm_compute. exact I.
  - vm_compute. reflexivity.
Defined.

(** ** Every form is gone through *)

Lemma resets_snoc l y :
  resets (l ++ [y])
  = resets l ++ match y with
                | FormReset e => [e]
                | _ => []
                end.
Proof. unfold resets. rewrite omap_app. simpl. by destruct y. Qed.

(** The loop resets the forms it opens, in the order it opens them. *)
Lemma resets_swept s vs :
  resets (calls (swept s vs))
  = resets (calls s)
    ++ omap (fun v => match v with
                      | Open e _ => Some e
                      | Item _ _ _ => None
                      end) vs.
Proof.
  induction vs as [|v vs IH] using rev_ind.
  - simpl. by rewrite app_nil_r.
  - rewrite swept_snoc, omap_app, app_assoc, <- IH.
    destruct v as [e g|e g x]; simpl.
    + by rewrite resets_snoc.
    + rewrite app_nil_r. unfold check.
      destruct (data_input_type (step_type g)).
      * destruct (selected (e_value x)); simpl; [done|].
        destruct (d (swept s vs)); simpl; [|done].
        by rewrite resets_snoc, app_nil_r.
      * destruct (_ || _ || _); simpl; [done|].
        by rewrite resets_snoc, app_nil_r.
Qed.

Lemma visits_opens steps create fs :
  (forall e a, (e, a) ∈ fs -> is_Some (Obj.get steps e)) ->
  omap (fun v => match v with
                 | Open e _ => Some e
                 | Item _ _ _ => None
                 end) (visits steps create fs)
  = Obj.keys fs.
Proof.
  induction fs as [|[e a] fs IH]; intros Hfs; [done|].
  unfold visits in *. simpl.
  destruct (Hfs e a) as [g ->]; [left|].
  rewrite omap_app. simpl. rewrite IH.
  - f_equal. induction (create e) as [|x l IHl]; [done|]. exact IHl.
  - intros e' a' Hin. apply (Hfs e' a'). by right.
Qed.

Section Sweep.

Context {U : Utils}.

(** X26.  An attempt goes through the form of every step, whether or not
    a field failed before: it resets each form exactly once, in the order
    in which the registry enumerates the step ids -- the order in which
    the document shows the forms. *)
Theorem attempt_resets_every_form f log this :
  initialize f = (log, Ret this) ->
  forall pg create,
    resets (fst (_execute pg this create)) = Obj.keys (forms this)
    /\ List.map StepFormNode (resets (fst (_execute pg this create)))
       = List.filter is_step_form (document f this).
Proof.
  intros Hi pg create. pose proof (initialize_view _ _ _ Hi) as Hok.
  assert (resets (fst (_execute pg this create)) = Obj.keys (forms this))
    as Hr.
  { destruct (execute_tail pg this create Hok) as (tail & -> & Ht).
    unfold resets at 1. rewrite omap_app. fold (resets tail).
    assert (resets tail = []) as ->.
    { clear -Ht. induction tail as [|y tail IH] using rev_ind; [done|].
      rewrite resets_snoc, IH
        by (intros y' Hy'; apply Ht, elem_of_app; by left).
      assert (y ∈ tail ++ [y]) as Hy by (apply elem_of_app; right; left).
      apply Ht in Hy. by destruct y. }
    rewrite app_nil_r.
    change (omap _ (calls ?s)) with (resets (calls s)).
    rewrite resets_swept. simpl. apply visits_opens.
    intros e a Hin.
    destruct (view_forms_steps _ _ _ Hok Hin) as [_ (g & Hg & _)].
    by exists g. }
  split; [done|]. rewrite Hr.
  unfold document. rewrite !List.filter_app, filter_step_nodes.
  assert (Obj.keys (forms this) = Obj.keys (steps this)) as ->.
  { destruct (initialize_inv _ _ _ Hi) as (Hf & Hs & _).
    rewrite Hf, Hs. by apply prepare_keys. }
  destruct (decide (wp_inputs this = ∅)), (history_form this); simpl;
    by rewrite app_nil_r.
Qed.

End Sweep.

Lemma attempt_resets_every_form_witness :
  resets (fst (_execute a_page late_input_view late_input_data))
  = Obj.keys (forms late_input_view)
  /\ List.map StepFormNode
       (resets (fst (_execute a_page late_input_view late_input_data)))
     = List.filter is_step_form (document late_input_workflow late_input_view).
Proof.
  exact (attempt_resets_every_form (U:=text_utils) _ _ _ late_input_view_built
           a_page late_input_data).
Defined.
